(** * Material Kai Vision Platform: PDF pipeline, provider dispatcher, workflow observer

    A shallow embedding of
    - [src/services/hybridAIService.ts] (the provider fallback dispatcher),
    - the [PDFWorkflowService] class (the workflow observer),
    - the [convertapi-pdf-processor] edge function (text extraction, image
      relocation and the stored knowledge entry), and
    - the [SpatialMaterialMapper] class (segmentation of a point cloud and
      the choice of the best matching material),
    followed by the vocabulary of the properties (Part II) and the
    properties proved about the embedding (Part III).

    Conventions.  A JavaScript [number] that carries a score is an IEEE 754
    binary64 value ([PrimFloat.float]); counts, priorities, sizes and
    millisecond clocks are integers ([Z]).  A JavaScript string whose
    characters matter (HTML text) is a list of UTF-16 code units; names and
    messages are [string]s.  Remote calls are fields of an environment
    record: each returns the outcome the call would have, a thrown exception
    included. *)

From stdpp Require Import base option list strings gmap.
From Stdlib Require Import ZArith NArith List String Ascii Bool Lia Floats DecimalString.
From Stdlib Require Import Sorted Permutation.
From Stdlib Require DecimalZ.
Import ListNotations.

#[local] Set Warnings "-inexact-float,-register-all,-abstract-large-number".

Local Open Scope string_scope.
Local Open Scope list_scope.
Local Open Scope Z_scope.

(* ===================================================================== *)
(** * Part I: the embedding *)
(* ===================================================================== *)

(** ** JavaScript values, as far as the dispatcher inspects them *)

Module Js.

(** A raw provider result has type [any].  An object is the list of its own
    enumerable properties in insertion order (keys distinct). *)
Inductive value : Type :=
| JUndefined
| JNull
| JBool (b : bool)
| JNum (x : float)
| JStr (s : string)
| JArr (items : list value)
| JObj (props : list (string * value)).

(** ToBoolean. *)
Definition truthy (v : value) : bool :=
  match v with
  | JUndefined | JNull => false
  | JBool b => b
  | JNum x => negb (PrimFloat.eqb x 0%float || PrimFloat.is_nan x)
  | JStr s => negb (String.eqb s "")
  | JArr _ | JObj _ => true
  end.

Fixpoint assoc (k : string) (props : list (string * value)) : value :=
  match props with
  | [] => JUndefined
  | (k', v) :: rest => if String.eqb k' k then v else assoc k rest
  end.

(** [v?.k] for a key [k] that no prototype defines ([text], [error], ...):
    an object answers with its own property, every other value with
    [undefined]. *)
Definition prop (v : value) (k : string) : value :=
  match v with
  | JObj props => assoc k props
  | _ => JUndefined
  end.

(** [Object.keys(v).length] for a value that is not [null] or [undefined]:
    the own properties of an object, the indices of an array or of a
    string, nothing for a number or a boolean. *)
Definition keysLength (v : value) : nat :=
  match v with
  | JObj props => List.length props
  | JArr items => List.length items
  | JStr s => String.length s
  | _ => 0%nat
  end.

(** [v === s] for a string literal [s]. *)
Definition strictEqStr (v : value) (s : string) : bool :=
  match v with
  | JStr t => String.eqb t s
  | _ => false
  end.

End Js.

(** ** The hybrid AI service (provider fallback dispatcher) *)

Module HybridAI.

Record AIProvider : Type := mkProvider {
  name : string;
  priority : Z; (* 1 = highest priority *)
  available : bool
}.

Inductive RequestType : Type :=
| MaterialAnalysis | Generation3D | TextProcessing | General.

(** [maxRetries] is an integer budget; [None] is an absent field. *)
Record HybridRequest : Type := mkRequest {
  prompt : string;
  model : option string;
  type : RequestType;
  imageUrl : option string;
  maxRetries : option Z;
  minimumScore : option float
}.

(** The object [validateResponse] returns. *)
Module Validation.
Record t : Type := mk {
  score : float;
  confidence : float;
  reasoning : string;
  issues : list string;
  suggestions : list string
}.
End Validation.

(** One entry of [HybridResponse['attempts']]. *)
Module Attempt.
Record t : Type := mk {
  provider : string;
  success : bool;
  score : option float;
  error : option string;
  processing_time_ms : Z
}.
End Attempt.

(** The [validation] field of a response: [bestValidation] on success (the
    validator's object, or [null]), the literal [{ score: 0, issues: [...] }]
    on failure. *)
Inductive ResponseValidation : Type :=
| Validated (v : Validation.t)
| NullValidation
| NotValidated (score : float) (issues : list string).

Module HybridResponse.
Record t : Type := mk {
  success : bool;
  data : Js.value;
  provider : string;
  attempts : list Attempt.t;
  final_score : float;
  validation : ResponseValidation;
  total_processing_time_ms : Z
}.
End HybridResponse.

(** What awaiting a provider call gives: a raw result, or a thrown
    [Error] with its message. *)
Inductive CallOutcome : Type :=
| Returned (result : Js.value)
| Threw (message : string).

(** The remote side: the two provider calls, and the clock
    ([dateNow k] is what the [k]-th call of [Date.now()] returns). *)
Record Env : Type := mkEnv {
  callOpenAI : HybridRequest -> CallOutcome;
  callClaude : HybridRequest -> CallOutcome;
  dateNow : nat -> Z
}.

(** The two calls as this file has them: client-side stubs. *)
Definition callOpenAI_stub (_ : HybridRequest) : CallOutcome :=
  Threw "Use callHybridAnalysis instead for client-side calls".
Definition callClaude_stub (_ : HybridRequest) : CallOutcome :=
  Threw "Use callHybridAnalysis instead for client-side calls".

Definition PROVIDERS : list AIProvider :=
  [ mkProvider "openai" 1 true; mkProvider "claude" 2 true ].

Definition DEFAULT_MIN_SCORE : float := 0.7%float.
Definition DEFAULT_MAX_RETRIES : Z := 2.

(** [validateResponse]:
<<
  const hasContent = result && (result.text || result.raw_response
                       || result.image_url || Object.keys(result).length > 0);
  const hasError = result?.error || result?.status === 'error';
  return { score: hasError ? 0.1 : (hasContent ? 0.9 : 0.3), ... };
>>
    Both constants are used as conditions only, so they are modelled by
    their truth values. *)
Definition hasContent (result : Js.value) : bool :=
  Js.truthy result &&
  (Js.truthy (Js.prop result "text")
   || Js.truthy (Js.prop result "raw_response")
   || Js.truthy (Js.prop result "image_url")
   || (0 <? Js.keysLength result)%nat).

Definition hasError (result : Js.value) : bool :=
  Js.truthy (Js.prop result "error")
  || Js.strictEqStr (Js.prop result "status") "error".

Definition validateResponse (result : Js.value) (request : HybridRequest)
  : Validation.t :=
  Validation.mk
    (if hasError result then 0.1%float
     else if hasContent result then 0.9%float else 0.3%float)
    (if hasContent result then 0.8%float else 0.2%float)
    (if hasContent result then "Response contains content"
     else "Response is empty or invalid")
    (if hasContent result then [] else ["Empty or invalid response"])
    (if hasContent result then [] else ["Retry with different parameters"]).

(** [.sort((a, b) => a.priority - b.priority)]: a stable sort, ascending. *)
Fixpoint insertByPriority (p : AIProvider) (sorted : list AIProvider)
  : list AIProvider :=
  match sorted with
  | [] => [p]
  | q :: rest =>
      if priority q <=? priority p then q :: insertByPriority p rest
      else p :: sorted
  end.

Fixpoint insertEach (todo sorted : list AIProvider) : list AIProvider :=
  match todo with
  | [] => sorted
  | p :: rest => insertEach rest (insertByPriority p sorted)
  end.

Definition sortByPriority (ps : list AIProvider) : list AIProvider :=
  insertEach ps [].

Definition sortedProviders (providers : list AIProvider) : list AIProvider :=
  sortByPriority (List.filter available providers).

(** The [switch (provider.name)] inside the [try]. *)
Definition invoke (env : Env) (providerName : string) (request : HybridRequest)
  : CallOutcome :=
  if String.eqb providerName "openai" then callOpenAI env request
  else if String.eqb providerName "claude" then callClaude env request
  else Threw ("Unknown provider: " ++ providerName).

(** The variables the [for] loop of [processRequest] updates; [ticks] counts
    the calls of [Date.now()] made so far. *)
Record LoopState : Type := mkLoop {
  attempts : list Attempt.t;
  bestResult : Js.value;
  bestScore : float;
  bestValidation : option Validation.t;
  ticks : nat
}.

(** One pass of the loop body for [provider]; the boolean says whether the
    loop goes on to the next provider ([false] is the [break] after a score
    that meets the threshold). *)
Definition attempt (env : Env) (request : HybridRequest) (minScore : float)
    (provider : AIProvider) (st : LoopState) : LoopState * bool :=
  let attemptStart := dateNow env (ticks st) in
  let processingTime := dateNow env (S (ticks st)) - attemptStart in
  match invoke env (name provider) request with
  | Returned result =>
      let validation := validateResponse result request in
      let s := Validation.score validation in
      let pushed :=
        attempts st ++ [Attempt.mk (name provider) true (Some s) None processingTime] in
      let st' :=
        if PrimFloat.ltb (bestScore st) s
        then mkLoop pushed result s (Some validation) (S (S (ticks st)))
        else mkLoop pushed (bestResult st) (bestScore st) (bestValidation st)
                    (S (S (ticks st))) in
      (st', negb (PrimFloat.leb minScore s))
  | Threw message =>
      (mkLoop (attempts st ++
                 [Attempt.mk (name provider) false None (Some message) processingTime])
              (bestResult st) (bestScore st) (bestValidation st) (S (S (ticks st))),
       true)
  end.

(** [for (const provider of sortedProviders) { if (attempts.length >=
    maxRetries) break; ... }] *)
Fixpoint loop (env : Env) (request : HybridRequest) (minScore : float)
    (maxTries : Z) (providers : list AIProvider) (st : LoopState) : LoopState :=
  match providers with
  | [] => st
  | provider :: rest =>
      if Z.of_nat (List.length (attempts st)) >=? maxTries then st
      else
        let '(st', continue) := attempt env request minScore provider st in
        if continue then loop env request minScore maxTries rest st' else st'
  end.

(** [attempts.find(a => a.score === bestScore)?.provider || 'unknown'] *)
Definition scoreIs (best : float) (a : Attempt.t) : bool :=
  match Attempt.score a with
  | Some s => PrimFloat.eqb s best
  | None => false
  end.

Definition bestProvider (attempts : list Attempt.t) (best : float) : string :=
  match List.find (scoreIs best) attempts with
  | Some a => if String.eqb (Attempt.provider a) "" then "unknown" else Attempt.provider a
  | None => "unknown"
  end.

Definition initialState : LoopState := mkLoop [] Js.JNull 0%float None 1.

(** [processRequest], with the provider table as a parameter. *)
Definition processRequestWith (providers : list AIProvider) (env : Env)
    (request : HybridRequest) : HybridResponse.t :=
  let startTime := dateNow env 0 in
  let minScore := default DEFAULT_MIN_SCORE (minimumScore request) in
  let maxTries := default DEFAULT_MAX_RETRIES (maxRetries request) in
  let final := loop env request minScore maxTries (sortedProviders providers) initialState in
  let totalProcessingTime := dateNow env (ticks final) - startTime in
  if Js.truthy (bestResult final) then
    HybridResponse.mk true (bestResult final)
      (bestProvider (attempts final) (bestScore final))
      (attempts final) (bestScore final)
      (match bestValidation final with
       | Some v => Validated v
       | None => NullValidation
       end)
      totalProcessingTime
  else
    HybridResponse.mk false Js.JNull "none" (attempts final) 0%float
      (NotValidated 0%float ["All providers failed"]) totalProcessingTime.

(** [processRequest] of the service instance, whose table is [PROVIDERS]. *)
Definition processRequest (env : Env) (request : HybridRequest) : HybridResponse.t :=
  processRequestWith PROVIDERS env request.

(** [doHealthCheck], with the provider table as a parameter: the message of
    the error it throws, [None] when it returns.
<<
  if (!this.PROVIDERS.some(p => p.available)) throw new Error('No AI providers available');
>> *)
Definition doHealthCheckWith (providers : list AIProvider) : option string :=
  if negb (List.existsb available providers) then Some "No AI providers available"
  else None.

Definition doHealthCheck : option string := doHealthCheckWith PROVIDERS.

End HybridAI.

(** ** The workflow observer ([PDFWorkflowService]) *)

Module Workflow.

Inductive Status : Type := pending | running | completed | failed.

Definition Status_eqb (a b : Status) : bool :=
  match a, b with
  | pending, pending | running, running
  | completed, completed | failed, failed => true
  | _, _ => false
  end.

(** A line of a step's [logs]; the formatting of the time is left out. *)
Inductive LogLine : Type :=
| StartedAt (time : Z)
| CompletedAt (time : Z)
| FailedAt (time : Z)
| DurationMs (ms : Z)
| ErrorLine (message : string)
| Line (text : string).

Module WorkflowStep.
Record t : Type := mk {
  id : string;
  name : string;
  description : string;
  status : Status;
  startTime : option Z;
  endTime : option Z;
  duration : option Z;
  error : option string;
  details : list string;
  logs : list LogLine;
  metadata : list (string * string)
}.
End WorkflowStep.

(** [Partial<WorkflowStep>], with the fields the service passes. *)
Module StepUpdate.
Record t : Type := mk {
  status : option Status;
  startTime : option Z;
  endTime : option Z;
  duration : option Z;
  error : option string;
  details : option (list string);
  logs : option (list LogLine);
  metadata : option (list (string * string))
}.
End StepUpdate.

Module WorkflowJob.
Record t : Type := mk {
  id : string;
  name : string;
  filename : string;
  status : Status;
  startTime : Z;
  endTime : option Z;
  steps : list WorkflowStep.t
}.
End WorkflowJob.

(** The service: the [jobs] map, every job the subscribers were notified
    with (oldest first), and the number of [new Date()] taken so far. *)
Record Service : Type := mkService {
  jobs : gmap string WorkflowJob.t;
  notified : list WorkflowJob.t;
  ticks : nat
}.

(** [{ ...step, ...updates }] *)
Definition merge (updates : StepUpdate.t) (step : WorkflowStep.t) : WorkflowStep.t :=
  WorkflowStep.mk
    (WorkflowStep.id step)
    (WorkflowStep.name step)
    (WorkflowStep.description step)
    (default (WorkflowStep.status step) (StepUpdate.status updates))
    (match StepUpdate.startTime updates with Some t => Some t | None => WorkflowStep.startTime step end)
    (match StepUpdate.endTime updates with Some t => Some t | None => WorkflowStep.endTime step end)
    (match StepUpdate.duration updates with Some d => Some d | None => WorkflowStep.duration step end)
    (match StepUpdate.error updates with Some e => Some e | None => WorkflowStep.error step end)
    (default (WorkflowStep.details step) (StepUpdate.details updates))
    (default (WorkflowStep.logs step) (StepUpdate.logs updates))
    (default (WorkflowStep.metadata step) (StepUpdate.metadata updates)).

Definition hasStatus (st : Status) (step : WorkflowStep.t) : bool :=
  Status_eqb (WorkflowStep.status step) st.

(** [job.steps.findIndex(s => s.id === stepId)] *)
Fixpoint findIndex (stepId : string) (steps : list WorkflowStep.t) : option nat :=
  match steps with
  | [] => None
  | step :: rest =>
      if String.eqb (WorkflowStep.id step) stepId then Some 0%nat
      else S <$> findIndex stepId rest
  end.

(** [notifyUpdate(job)]: every subscriber is called with the job. *)
Definition notifyUpdate (job : WorkflowJob.t) (svc : Service) : Service :=
  mkService (jobs svc) (notified svc ++ [job]) (ticks svc).

(** [updateJobStep]:
<<
  job.steps[stepIndex] = { ...job.steps[stepIndex], ...updates };
  if (updates.status === 'failed') { job.status = 'failed'; job.endTime = new Date(); }
  else if (job.steps.every(s => s.status === 'completed')) { job.status = 'completed'; ... }
  else if (job.steps.some(s => s.status === 'running')) { job.status = 'running'; }
>> *)
Definition updateJobStep (clock : nat -> Z) (jobId stepId : string)
    (updates : StepUpdate.t) (svc : Service) : Service :=
  match jobs svc !! jobId with
  | None => svc
  | Some job =>
      match findIndex stepId (WorkflowJob.steps job) with
      | None => svc
      | Some stepIndex =>
          let steps' := alter (merge updates) stepIndex (WorkflowJob.steps job) in
          let ended (st : Status) :=
            (WorkflowJob.mk (WorkflowJob.id job) (WorkflowJob.name job)
               (WorkflowJob.filename job) st (WorkflowJob.startTime job)
               (Some (clock (ticks svc))) steps',
             S (ticks svc)) in
          let kept (st : Status) :=
            (WorkflowJob.mk (WorkflowJob.id job) (WorkflowJob.name job)
               (WorkflowJob.filename job) st (WorkflowJob.startTime job)
               (WorkflowJob.endTime job) steps',
             ticks svc) in
          let '(job', ticks') :=
            match StepUpdate.status updates with
            | Some failed => ended failed
            | _ =>
                if forallb (hasStatus completed) steps' then ended completed
                else if existsb (hasStatus running) steps' then kept running
                else kept (WorkflowJob.status job)
            end in
          notifyUpdate job' (mkService (<[jobId := job']> (jobs svc)) (notified svc) ticks')
      end
  end.

Definition pendingStep (id name description : string) : WorkflowStep.t :=
  WorkflowStep.mk id name description pending None None None None [] [] [].

(** The steps [startPDFProcessing] creates. *)
Definition initialSteps : list WorkflowStep.t :=
  [ pendingStep "auth" "Authentication" "Verify user authentication and permissions";
    pendingStep "upload" "File Upload" "Upload PDF to secure storage bucket";
    pendingStep "validation" "File Validation"
      "Validate PDF structure and content accessibility";
    pendingStep "convertapi-conversion" "PDF to HTML Conversion"
      "Convert PDF to HTML using ConvertAPI with embedded CSS";
    pendingStep "html-extraction" "HTML Content Extraction"
      "Extract and decode HTML content from ConvertAPI response";
    pendingStep "image-discovery" "Image URL Discovery"
      "Extract image URLs from HTML content for local processing";
    pendingStep "image-download" "Local Image Download"
      "Download images to Supabase storage and generate local URLs";
    pendingStep "html-finalization" "HTML Content Finalization"
      "Replace external image URLs with local URLs and store final HTML";
    pendingStep "layout-analysis" "Layout Analysis"
      "Analyze document structure and extract layout elements";
    pendingStep "image-processing" "Image Processing"
      "Extract and process document images with metadata";
    pendingStep "embedding-generation" "Embedding Generation"
      "Generate vector embeddings using OpenAI text-embedding-3-small";
    pendingStep "knowledge-storage" "Knowledge Base Storage"
      "Store document in enhanced knowledge base with metadata";
    pendingStep "indexing" "Search Indexing"
      "Index document for semantic and full-text search";
    pendingStep "quality-metrics" "Quality Assessment"
      "Calculate processing quality and confidence metrics" ].

(** [startPDFProcessing], up to the call of [executeWorkflow]; [jobId] is
    the identifier the method generates. *)
Definition startPDFProcessing (clock : nat -> Z) (jobId fileName : string)
    (svc : Service) : Service :=
  let job := WorkflowJob.mk jobId "PDF Processing Pipeline" fileName running
               (clock (ticks svc)) None initialSteps in
  notifyUpdate job (mkService (<[jobId := job]> (jobs svc)) (notified svc) (S (ticks svc))).

(** What awaiting a step's executor gives. *)
Inductive ExecOutcome : Type :=
| Resolved (details : list string) (metadata : list (string * string)) (logs : list LogLine)
| Rejected (message : string).

(** [executeStep]; the second component is the message of the executor's
    error when it is thrown again, [None] when the step returns. *)
Definition executeStep (clock : nat -> Z) (jobId stepId : string)
    (outcome : ExecOutcome) (svc : Service) : Service * option string :=
  let startTime := clock (ticks svc) in
  let svc1 :=
    updateJobStep clock jobId stepId
      (StepUpdate.mk (Some running) (Some startTime) None None None None
         (Some [StartedAt startTime]) None)
      (mkService (jobs svc) (notified svc) (S (ticks svc))) in
  let endTime := clock (ticks svc1) in
  let duration := endTime - startTime in
  let svc2 := mkService (jobs svc1) (notified svc1) (S (ticks svc1)) in
  match outcome with
  | Resolved details metadata logs =>
      (updateJobStep clock jobId stepId
         (StepUpdate.mk (Some completed) None (Some endTime) (Some duration) None
            (Some details) (Some (logs ++ [CompletedAt endTime; DurationMs duration]))
            (Some metadata))
         svc2,
       None)
  | Rejected message =>
      (updateJobStep clock jobId stepId
         (StepUpdate.mk (Some failed) None (Some endTime) (Some duration) (Some message)
            None (Some [FailedAt endTime; DurationMs duration; ErrorLine message]) None)
         svc2,
       Some message)
  end.

(** The step identifiers in the order [executeWorkflow] runs them. *)
Definition stepOrder : list string :=
  [ "auth"; "upload"; "validation"; "convertapi-conversion"; "html-extraction";
    "image-discovery"; "image-download"; "html-finalization"; "layout-analysis";
    "image-processing"; "embedding-generation"; "knowledge-storage"; "indexing";
    "quality-metrics" ].

(** The [try] block: the steps one after the other, up to the first that
    throws. *)
Fixpoint runSteps (clock : nat -> Z) (jobId : string)
    (executors : string -> ExecOutcome) (stepIds : list string) (svc : Service)
  : Service * option string :=
  match stepIds with
  | [] => (svc, None)
  | stepId :: rest =>
      let '(svc', thrown) := executeStep clock jobId stepId (executors stepId) svc in
      match thrown with
      | None => runSteps clock jobId executors rest svc'
      | Some message => (svc', Some message)
      end
  end.

(** [executeWorkflow]: the [try] block, and the [catch] block that marks
    a step still running as failed. *)
Definition executeWorkflow (clock : nat -> Z) (jobId : string)
    (executors : string -> ExecOutcome) (svc : Service) : Service :=
  match jobs svc !! jobId with
  | None => svc
  | Some _ =>
      let '(svc', thrown) := runSteps clock jobId executors stepOrder svc in
      match thrown with
      | None => svc'
      | Some message =>
          match jobs svc' !! jobId with
          | None => svc'
          | Some job =>
              match List.find (hasStatus running) (WorkflowJob.steps job) with
              | None => svc'
              | Some runningStep =>
                  let endTime := clock (ticks svc') in
                  updateJobStep clock jobId (WorkflowStep.id runningStep)
                    (StepUpdate.mk (Some failed) None (Some endTime) None
                       (Some message) None (Some [ErrorLine message]) None)
                    (mkService (jobs svc') (notified svc') (S (ticks svc')))
              end
          end
      end
  end.

(** [retryJob]: the job and every step back to [pending]. *)
Definition resetStep (step : WorkflowStep.t) : WorkflowStep.t :=
  WorkflowStep.mk (WorkflowStep.id step) (WorkflowStep.name step)
    (WorkflowStep.description step) pending None None None None [] [] [].

Definition retryJob (jobId : string) (svc : Service) : Service :=
  match jobs svc !! jobId with
  | None => svc
  | Some job =>
      let job' := WorkflowJob.mk (WorkflowJob.id job) (WorkflowJob.name job)
                    (WorkflowJob.filename job) pending (WorkflowJob.startTime job) None
                    (List.map resetStep (WorkflowJob.steps job)) in
      notifyUpdate job' (mkService (<[jobId := job']> (jobs svc)) (notified svc) (ticks svc))
  end.

End Workflow.

(** ** The PDF processor (the [convertapi-pdf-processor] edge function) *)

Module PdfProcessor.

(** *** Strings as lists of UTF-16 code units *)

Definition jsstring : Type := list N.

Fixpoint lit (s : string) : jsstring :=
  match s with
  | EmptyString => []
  | String c rest => N_of_ascii c :: lit rest
  end.

(** The decimal form of an integer, as a template literal prints it. *)
Definition decimal (z : Z) : jsstring := lit (NilZero.string_of_int (Z.to_int z)).

Fixpoint eqb (a b : jsstring) : bool :=
  match a, b with
  | [], [] => true
  | x :: a', y :: b' => N.eqb x y && eqb a' b'
  | _, _ => false
  end.

(** The class [\s] (and what [trim] removes): white space and line
    terminators. *)
Definition isSpace (c : N) : bool :=
  ((9 <=? c) && (c <=? 13) || (c =? 32) || (c =? 160) || (c =? 5760)
   || (8192 <=? c) && (c <=? 8202) || (c =? 8232) || (c =? 8233)
   || (c =? 8239) || (c =? 8287) || (c =? 12288) || (c =? 65279))%N.

(** Canonical form of a code unit under the [i] flag, read against a
    pattern of ASCII letters: only A-Z fold. *)
Definition fold (c : N) : N :=
  if ((65 <=? c) && (c <=? 90))%N then (c + 32)%N else c.

(** [startsWith]: what is left of [s] after the prefix [pattern]. *)
Fixpoint afterPrefix (pattern s : jsstring) : option jsstring :=
  match pattern, s with
  | [], _ => Some s
  | p :: pattern', c :: s' => if N.eqb p c then afterPrefix pattern' s' else None
  | _ :: _, [] => None
  end.

Definition startsWith (s pattern : jsstring) : bool :=
  match afterPrefix pattern s with Some _ => true | None => false end.

(** The same, ignoring case; [pattern] is in lower case. *)
Fixpoint afterPrefixCI (pattern s : jsstring) : option jsstring :=
  match pattern, s with
  | [], _ => Some s
  | p :: pattern', c :: s' => if N.eqb p (fold c) then afterPrefixCI pattern' s' else None
  | _ :: _, [] => None
  end.

(** The position of the first occurrence of [pattern], ignoring case. *)
Fixpoint indexOfCI (pattern s : jsstring) : option nat :=
  match afterPrefixCI pattern s with
  | Some _ => Some 0%nat
  | None =>
      match s with
      | [] => None
      | _ :: s' => S <$> indexOfCI pattern s'
      end
  end.

(** The position of the first [c]. *)
Fixpoint indexOf (c : N) (s : jsstring) : option nat :=
  match s with
  | [] => None
  | x :: s' => if N.eqb x c then Some 0%nat else S <$> indexOf c s'
  end.

(** *** Global replacement

    [s.replace(/re/g, replacement)] for a pattern that matches no empty
    string.  [matchAt t] is the length of the match of the pattern at the
    head of [t], if there is one; the scan resumes after each match.
    [skip] counts the code units of the current match still to pass. *)
Fixpoint replaceFrom (matchAt : jsstring -> option nat) (replacement : jsstring)
    (skip : nat) (s : jsstring) : jsstring :=
  match s with
  | [] => []
  | c :: rest =>
      match skip with
      | S skip' => replaceFrom matchAt replacement skip' rest
      | O =>
          match matchAt s with
          | Some (S n) => replacement ++ replaceFrom matchAt replacement n rest
          | _ => c :: replaceFrom matchAt replacement 0 rest
          end
      end
  end.

Definition replaceAll (matchAt : jsstring -> option nat) (replacement s : jsstring)
  : jsstring :=
  replaceFrom matchAt replacement 0 s.

Definition LT : N := 60.  (* < *)
Definition GT : N := 62.  (* > *)
Definition SPACE : N := 32.

(** [/<tag[^>]*>[\s\S]*?<\/tag>/gi] at the head of [s]: the opening
    [<tag], up to the first [>], then up to the first closing tag. *)
Definition matchBlock (tag : string) (s : jsstring) : option nat :=
  let opening := lit ("<" ++ tag) in
  let closing := lit ("</" ++ tag ++ ">") in
  match afterPrefixCI opening s with
  | None => None
  | Some afterOpening =>
      match indexOf GT afterOpening with
      | None => None
      | Some attrs =>
          match indexOfCI closing (List.skipn (S attrs) afterOpening) with
          | None => None
          | Some body =>
              Some (List.length opening + S attrs + body + List.length closing)%nat
          end
      end
  end.

(** [/<[^>]+>/g] at the head of [s]. *)
Definition matchTag (s : jsstring) : option nat :=
  match s with
  | c :: rest =>
      if N.eqb c LT then
        match indexOf GT rest with
        | Some (S n) => Some (S (S (S n)))
        | _ => None
        end
      else None
  | [] => None
  end.

(** A literal pattern, such as [/&amp;/g]. *)
Definition matchLiteral (pattern : jsstring) (s : jsstring) : option nat :=
  match afterPrefix pattern s with
  | Some _ => Some (List.length pattern)
  | None => None
  end.

(** [/\s+/g] at the head of [s]. *)
Fixpoint spaces (s : jsstring) : nat :=
  match s with
  | c :: rest => if isSpace c then S (spaces rest) else 0%nat
  | [] => 0%nat
  end.

Definition matchSpaces (s : jsstring) : option nat :=
  match spaces s with
  | O => None
  | n => Some n
  end.

(** [trim] *)
Fixpoint trimStart (s : jsstring) : jsstring :=
  match s with
  | c :: rest => if isSpace c then trimStart rest else s
  | [] => []
  end.

Definition trim (s : jsstring) : jsstring :=
  List.rev (trimStart (List.rev (trimStart s))).

(** [s.substring(0, n)] *)
Definition substring0 (n : nat) (s : jsstring) : jsstring := List.firstn n s.

(** *** [extractTextFromHTML] *)

Definition stripScripts (html : jsstring) : jsstring :=
  replaceAll (matchBlock "script") [] html.
Definition stripStyles (text : jsstring) : jsstring :=
  replaceAll (matchBlock "style") [] text.
Definition stripTags (text : jsstring) : jsstring :=
  replaceAll matchTag [SPACE] text.

Definition decodeEntities (text : jsstring) : jsstring :=
  let text := replaceAll (matchLiteral (lit "&nbsp;")) (lit " ") text in
  let text := replaceAll (matchLiteral (lit "&amp;")) (lit "&") text in
  let text := replaceAll (matchLiteral (lit "&lt;")) (lit "<") text in
  let text := replaceAll (matchLiteral (lit "&gt;")) (lit ">") text in
  let text := replaceAll (matchLiteral (lit "&quot;")) [34%N] text in
  replaceAll (matchLiteral (lit "&#39;")) (lit "'") text.

Definition collapseWhitespace (text : jsstring) : jsstring :=
  trim (replaceAll matchSpaces [SPACE] text).

Definition MAX_TEXT_LENGTH : nat := 8000.

Definition extractTextFromHTML (html : jsstring) : jsstring :=
  let text := stripScripts html in
  let text := stripStyles text in
  let text := stripTags text in
  let text := decodeEntities text in
  let text := collapseWhitespace text in
  substring0 MAX_TEXT_LENGTH text.

(** *** Effects: console, object storage, clock, exceptions *)

(** A line written to the console; the text around the values is left
    out.  [index] is the number the message shows. *)
Inductive ConsoleLine : Type :=
| Downloading (index : Z) (url : jsstring)                       (* log *)
| DownloadFailed (index : Z) (status : Z)                        (* warn *)
| InvalidContentType (index : Z) (contentType : option jsstring) (* warn *)
| TooLarge (index : Z) (size : Z)                                (* warn *)
| UploadFailed (index : Z) (message : string)                    (* error *)
| Stored (index : Z)                                             (* log *)
| ProcessingError (index : Z) (message : string)                 (* error *)
| Base64UploadFailed (index : Z) (message : string)              (* error *)
| Base64Converted (index : Z) (url : jsstring)                   (* log *)
| Base64ProcessingError (index : Z) (message : string).          (* error *)

(** An object put into a storage bucket. *)
Record StoredObject : Type := mkStored {
  bucket : string;
  path : jsstring;
  storedType : jsstring;
  storedSize : Z
}.

Record World : Type := mkWorld {
  console : list ConsoleLine;
  storage : list StoredObject;
  ticks : nat
}.

Inductive Result (A : Type) : Type :=
| Ok (a : A)
| Thrown (message : string).
Arguments Ok {A} a.
Arguments Thrown {A} message.

Definition M (A : Type) : Type := World -> Result A * World.

Definition ret {A} (a : A) : M A := fun w => (Ok a, w).

Definition bind {A B} (c : M A) (k : A -> M B) : M B :=
  fun w =>
    match c w with
    | (Ok a, w') => k a w'
    | (Thrown e, w') => (Thrown e, w')
    end.

Definition throw {A} (message : string) : M A := fun w => (Thrown message, w).

(** [try { body } catch (error) { handler }] *)
Definition tryCatch {A} (body : M A) (handler : string -> M A) : M A :=
  fun w =>
    match body w with
    | (Ok a, w') => (Ok a, w')
    | (Thrown e, w') => handler e w'
    end.

Notation "'let*' x ':=' c 'in' k" := (bind c (fun x => k))
  (at level 10, x pattern, c at level 100, k at level 200).

Definition write (line : ConsoleLine) : M unit :=
  fun w => (Ok tt, mkWorld (console w ++ [line]) (storage w) (ticks w)).

Definition put (object : StoredObject) : M unit :=
  fun w => (Ok tt, mkWorld (console w) (storage w ++ [object]) (ticks w)).

(** What [response.blob()] gives. *)
Inductive BlobOutcome : Type :=
| Blob (size : Z)
| BlobFailed (message : string).

Record Response : Type := mkResponse {
  status : Z;
  contentType : option jsstring; (* headers.get('content-type') *)
  body : BlobOutcome
}.

Definition ok (response : Response) : bool :=
  (200 <=? status response) && (status response <=? 299).

Inductive FetchOutcome : Type :=
| Fetched (response : Response)
| FetchFailed (message : string).

(** What [storage.from(bucket).upload(...)] gives: the [error] field of
    its result, or an exception. *)
Inductive UploadOutcome : Type :=
| Uploaded
| UploadError (message : string)
| UploadThrew (message : string).

(** The remote side of the image relocation. *)
Record Env : Type := mkEnv {
  fetch : jsstring -> FetchOutcome;
  upload : string -> jsstring -> UploadOutcome;
  getPublicUrl : string -> jsstring -> jsstring;
  atob : jsstring -> option jsstring; (* [None]: the payload is not base64 *)
  dateNow : nat -> Z
}.

Definition now (env : Env) : M Z :=
  fun w => (Ok (dateNow env (ticks w)), mkWorld (console w) (storage w) (S (ticks w))).

Definition awaitFetch (outcome : FetchOutcome) : M Response :=
  match outcome with
  | Fetched response => ret response
  | FetchFailed message => throw message
  end.

Definition awaitBlob (outcome : BlobOutcome) : M Z :=
  match outcome with
  | Blob size => ret size
  | BlobFailed message => throw message
  end.

(** The [error] of an upload, if it has one. *)
Definition awaitUpload (outcome : UploadOutcome) : M (option string) :=
  match outcome with
  | Uploaded => ret None
  | UploadError message => ret (Some message)
  | UploadThrew message => throw message
  end.

(** *** Image relocation *)

Record ProcessedImage : Type := mkImage {
  originalUrl : jsstring;
  supabaseUrl : jsstring;
  filename : jsstring;
  size : Z
}.

Record ProcessedBase64 : Type := mkBase64 {
  originalSrc : jsstring;
  base64Url : jsstring;      (* supabaseUrl *)
  base64Filename : jsstring  (* filename *)
}.

(** An entry of [extractBase64Images]. *)
Record Base64Image : Type := mkFound {
  src : jsstring;
  data : jsstring;
  imageType : jsstring
}.

Definition MAX_IMAGE_SIZE : Z := 5 * 1024 * 1024.

Definition SLASH : N := 47.

(** [s.split('/')[1]]: what stands between the first and the second
    slash, if there is a first. *)
Fixpoint upTo (c : N) (s : jsstring) : jsstring :=
  match s with
  | [] => []
  | x :: rest => if N.eqb x c then [] else x :: upTo c rest
  end.

Definition secondPart (s : jsstring) : option jsstring :=
  match indexOf SLASH s with
  | Some i => Some (upTo SLASH (List.skipn (S i) s))
  | None => None
  end.

Definition isImageType (contentType : option jsstring) : bool :=
  match contentType with
  | Some t => startsWith t (lit "image/")
  | None => false
  end.

(** [downloadAndStoreImage] *)
Definition downloadAndStoreImage (env : Env) (imageUrl userId : jsstring) (index : Z)
  : M (option ProcessedImage) :=
  tryCatch
    (let* _ := write (Downloading (index + 1) imageUrl) in
     let* response := awaitFetch (fetch env imageUrl) in
     if negb (ok response) then
       let* _ := write (DownloadFailed (index + 1) (status response)) in
       ret None
     else if negb (isImageType (contentType response)) then
       let* _ := write (InvalidContentType (index + 1) (contentType response)) in
       ret None
     else
       let* blobSize := awaitBlob (body response) in
       if blobSize >? MAX_IMAGE_SIZE then
         let* _ := write (TooLarge (index + 1) blobSize) in
         ret None
       else
         let type := default [] (contentType response) in
         let extension :=
           match secondPart type with
           | Some (c :: rest) => c :: rest
           | _ => lit "jpg"
           end in
         let* time := now env in
         let filename :=
           lit "pdf-image-" ++ decimal (index + 1) ++ lit "-" ++ decimal time
             ++ lit "." ++ extension in
         let storagePath := userId ++ lit "/pdf-images/" ++ filename in
         let* error := awaitUpload (upload env "material-images" storagePath) in
         match error with
         | Some message =>
             let* _ := write (UploadFailed (index + 1) message) in
             ret None
         | None =>
             let* _ := put (mkStored "material-images" storagePath type blobSize) in
             let publicUrl := getPublicUrl env "material-images" storagePath in
             let* _ := write (Stored (index + 1)) in
             ret (Some (mkImage imageUrl publicUrl filename blobSize))
         end)
    (fun message =>
       let* _ := write (ProcessingError (index + 1) message) in
       ret None).

(** [processBase64Image] *)
Definition processBase64Image (env : Env) (base64Data imageType userId : jsstring)
    (index : Z) : M (option ProcessedBase64) :=
  tryCatch
    (let* binaryString :=
       match atob env base64Data with
       | Some decoded => ret decoded
       | None => throw "InvalidCharacterError"
       end in
     let* time := now env in
     let filename :=
       lit "base64-image-" ++ decimal index ++ lit "-" ++ decimal time
         ++ lit "." ++ imageType in
     let storagePath := userId ++ lit "/pdf-images/" ++ filename in
     let* error := awaitUpload (upload env "pdf-documents" storagePath) in
     match error with
     | Some message =>
         let* _ := write (Base64UploadFailed index message) in
         ret None
     | None =>
         let* _ := put (mkStored "pdf-documents" storagePath (lit "image/" ++ imageType)
                          (Z.of_nat (List.length binaryString))) in
         let publicUrl := getPublicUrl env "pdf-documents" storagePath in
         let* _ := write (Base64Converted index publicUrl) in
         ret (Some (mkBase64 (lit "data:image/" ++ imageType ++ lit ";base64," ++ base64Data)
                      publicUrl filename))
     end)
    (fun message =>
       let* _ := write (Base64ProcessingError index message) in
       ret None).

(** The two loops of step 3 of [serve]; [i] is the loop index of the head
    of the list still to process.  The pause after each image is left out. *)
Fixpoint downloadAll (env : Env) (userId : jsstring) (i : Z) (imageUrls : list jsstring)
    (processedImages : list ProcessedImage) : M (list ProcessedImage) :=
  match imageUrls with
  | [] => ret processedImages
  | imageUrl :: rest =>
      let* processedImage := downloadAndStoreImage env imageUrl userId i in
      downloadAll env userId (i + 1) rest
        (match processedImage with
         | Some image => processedImages ++ [image]
         | None => processedImages
         end)
  end.

Fixpoint convertAll (env : Env) (userId : jsstring) (i : Z) (base64Images : list Base64Image)
    (processedBase64Images : list ProcessedBase64) : M (list ProcessedBase64) :=
  match base64Images with
  | [] => ret processedBase64Images
  | base64Image :: rest =>
      let* processedBase64 :=
        processBase64Image env (data base64Image) (imageType base64Image) userId i in
      convertAll env userId (i + 1) rest
        (match processedBase64 with
         | Some image => processedBase64Images ++ [image]
         | None => processedBase64Images
         end)
  end.

Definition processImages (env : Env) (userId : jsstring) (imageUrls : list jsstring)
    (base64Images : list Base64Image)
  : M (list ProcessedImage * list ProcessedBase64) :=
  let* processedImages := downloadAll env userId 0 imageUrls [] in
  let* processedBase64Images := convertAll env userId 0 base64Images [] in
  ret (processedImages, processedBase64Images).

(** [replaceImageUrls] and the loop after it: every occurrence of the
    original reference becomes the new URL (the pattern is the reference
    escaped, so it matches literally; the URL holds no [$] pattern). *)
Definition replaceImageUrls (html : jsstring) (processedImages : list ProcessedImage)
  : jsstring :=
  List.fold_left
    (fun updatedHtml image =>
       replaceAll (matchLiteral (originalUrl image)) (supabaseUrl image) updatedHtml)
    processedImages html.


(** *** The knowledge entry (step 6 of [serve]) *)

Definition maxContentSize : nat := 1024 * 1024.

Definition contentToStore (finalHtmlContent : jsstring) : jsstring :=
  if (maxContentSize <? List.length finalHtmlContent)%nat
  then substring0 maxContentSize finalHtmlContent
         ++ 10%N :: lit "<!-- Content truncated due to size -->"
  else finalHtmlContent.

(** [s.replace(pattern, replacement)] for a string pattern: the first
    occurrence only. *)
Fixpoint replaceFirst (pattern replacement s : jsstring) : jsstring :=
  match afterPrefix pattern s with
  | Some rest => replacement ++ rest
  | None =>
      match s with
      | [] => []
      | c :: rest => c :: replaceFirst pattern replacement rest
      end
  end.

(** [s.split(' ')] *)
Fixpoint split (separator : N) (s : jsstring) : list jsstring :=
  match s with
  | [] => [[]]
  | c :: rest =>
      if N.eqb c separator then [] :: split separator rest
      else
        match split separator rest with
        | word :: words => (c :: word) :: words
        | [] => [[c]]
        end
  end.

Record ConfidenceScores : Type := mkScores {
  conversion : float;
  text_extraction : float;
  image_processing : float;
  overall : float
}.

Record StorageInfo : Type := mkStorageInfo {
  html_storage_url : jsstring;
  images_processed : nat;
  images_found : nat;
  base64_images_processed : nat;
  base64_images_found : nat
}.

Record Metadata : Type := mkMetadata {
  source_type : string;
  processing_method : string;
  original_filename : jsstring;
  file_size : Z;
  processing_date : jsstring;
  storage_info : StorageInfo;
  processed_images : list ProcessedImage;
  text_preview : jsstring
}.

Record KnowledgeEntry : Type := mkEntry {
  title : jsstring;
  content : jsstring;
  content_type : string;
  source_url : jsstring;
  semantic_tags : list string;
  language : jsstring;
  technical_complexity : Z;
  reading_level : Z;
  openai_embedding : option (list float);
  confidence_scores : ConfidenceScores;
  search_keywords : list jsstring;
  metadata : Metadata;
  created_by : jsstring;
  last_modified_by : jsstring;
  entry_status : string
}.

(** What [serve] has computed when it builds the entry. *)
Record Processed : Type := mkProcessed {
  originalFilename : jsstring;
  fileSize : Z;
  userId : jsstring;
  optionsLanguage : option jsstring;
  imageUrls : list jsstring;
  base64Images : list Base64Image;
  processedImages : list ProcessedImage;
  processedBase64Images : list ProcessedBase64;
  finalHtmlContent : jsstring;
  htmlPublicUrl : jsstring;
  extractedText : jsstring;
  embedding : list float;
  processingDate : jsstring  (* new Date().toISOString() *)
}.

(** The object literal [knowledgeEntry]. *)
Definition knowledgeEntry (p : Processed) : KnowledgeEntry :=
  mkEntry
    (replaceFirst (lit ".pdf") [] (originalFilename p) ++ lit " - HTML Document")
    (contentToStore (finalHtmlContent p))
    "enhanced_pdf_html"
    (htmlPublicUrl p)
    ["pdf"; "html"; "convertapi"; "uploaded-content"]
    (match optionsLanguage p with
     | Some (c :: rest) => c :: rest
     | _ => lit "en"
     end)
    5
    8
    (match embedding p with [] => None | _ => Some (embedding p) end)
    (mkScores 0.9%float 0.85%float
       (if (0 <? List.length (processedImages p))%nat then 0.8%float else 0.0%float)
       0.87%float)
    (List.firstn 15
       (List.filter (fun word => (3 <? List.length word)%nat)
          (split SPACE (extractedText p))))
    (mkMetadata "convertapi_pdf_upload" "convertapi_html_conversion_optimized"
       (originalFilename p) (fileSize p) (processingDate p)
       (mkStorageInfo (htmlPublicUrl p)
          (List.length (processedImages p)) (List.length (imageUrls p))
          (List.length (processedBase64Images p)) (List.length (base64Images p)))
       (processedImages p)
       (substring0 500 (extractedText p)))
    (userId p)
    (userId p)
    "published".

(** *** Image discovery (step 3 of [serve])

    The patterns of [extractImageUrls] and [extractBase64Images] are
    matched by a backtracking engine; each piece below returns what the
    engine captures and the length of the match at the head of its
    argument.  A greedy class that a fixed character must follow can only
    end at its longest run, so these pieces have one way to match; the one
    choice the engine has is where [[^>]+] ends, and it tries the longest
    run first.  In the patterns quoted below, [Q] stands for the class of
    the double and the single quote. *)

Definition QUOT : N := 34.  (* the double quote *)
Definition APOS : N := 39.  (* the single quote *)
Definition SEMI : N := 59.  (* the semicolon *)

(** The class [Q]. *)
Definition isQuote (c : N) : bool := N.eqb c QUOT || N.eqb c APOS.

(** How many code units at the head of [s] are in a class: what a greedy
    repetition of the class takes. *)
Fixpoint span (inClass : N -> bool) (s : jsstring) : nat :=
  match s with
  | c :: rest => if inClass c then S (span inClass rest) else 0%nat
  | [] => 0%nat
  end.

(** [[^>]+] and the pattern [following] it: one code unit other than [>]
    at least, and of the places where [following] matches behind a longer
    run, the last. *)
Fixpoint afterAttrs {A} (following : jsstring -> option (A * nat)) (s : jsstring)
  : option (A * nat) :=
  match s with
  | [] => None
  | c :: rest =>
      if N.eqb c GT then None
      else
        match afterAttrs following rest with
        | Some (a, n) => Some (a, S n)
        | None =>
            match following rest with
            | Some (a, n) => Some (a, S n)
            | None => None
            end
        end
  end.

(** [while ((match = regex.exec(html)) !== null)] for a global pattern
    that matches no empty string: the captures of the successive matches,
    the scan resuming behind each match. *)
Fixpoint execFrom {A} (matchAt : jsstring -> option (A * nat)) (skip : nat) (s : jsstring)
  : list A :=
  match s with
  | [] => []
  | _ :: rest =>
      match skip with
      | S skip' => execFrom matchAt skip' rest
      | O =>
          match matchAt s with
          | Some (a, S n) => a :: execFrom matchAt n rest
          | _ => execFrom matchAt 0 rest
          end
      end
  end.

Definition execAll {A} (matchAt : jsstring -> option (A * nat)) (s : jsstring) : list A :=
  execFrom matchAt 0 s.

(** [src=Q([^Q]+)Q[^>]*>] *)
Definition srcAttribute (s : jsstring) : option (jsstring * nat) :=
  match afterPrefixCI (lit "src=") s with
  | Some (q :: value) =>
      if isQuote q then
        let n := span (fun c => negb (isQuote c)) value in
        match n, List.skipn n value with
        | S _, _ :: tail =>
            match indexOf GT tail with
            | Some k => Some (List.firstn n value, (4 + 1 + n + 1 + k + 1)%nat)
            | None => None
            end
        | _, _ => None
        end
      else None
  | _ => None
  end.

(** [/<img[^>]+src=Q([^Q]+)Q[^>]*>/gi] at the head of [s]. *)
Definition imgTag (s : jsstring) : option (jsstring * nat) :=
  match afterPrefixCI (lit "<img") s with
  | Some rest =>
      match afterAttrs srcAttribute rest with
      | Some (url, n) => Some (url, (4 + n)%nat)
      | None => None
      end
  | None => None
  end.

(** [extractImageUrls]; a capture is never empty, so [url &&] holds. *)
Definition extractImageUrls (html : jsstring) : list jsstring :=
  List.filter (fun url => startsWith url (lit "http")) (execAll imgTag html).

(** [data:image\/([^;]+);base64,] at the head of [s]: the type, and what
    follows the comma. *)
Definition dataUrlHead (s : jsstring) : option (jsstring * jsstring) :=
  match afterPrefixCI (lit "data:image/") s with
  | Some rest =>
      let n := span (fun c => negb (N.eqb c SEMI)) rest in
      match n with
      | O => None
      | S _ =>
          match afterPrefixCI (lit ";base64,") (List.skipn n rest) with
          | Some payload => Some (List.firstn n rest, payload)
          | None => None
          end
      end
  | None => None
  end.

(** [src=Qdata:image\/([^;]+);base64,([^Q]+)Q[^>]*>] *)
Definition dataSrcAttribute (s : jsstring) : option (jsstring * jsstring * nat) :=
  match afterPrefixCI (lit "src=") s with
  | Some (q :: value) =>
      if isQuote q then
        match dataUrlHead value with
        | Some (type, payload) =>
            let m := span (fun c => negb (isQuote c)) payload in
            match m, List.skipn m payload with
            | S _, _ :: tail =>
                match indexOf GT tail with
                | Some k =>
                    Some (type, List.firstn m payload,
                          (4 + 1 + (11 + List.length type + 8) + m + 1 + k + 1)%nat)
                | None => None
                end
            | _, _ => None
            end
        | None => None
        end
      else None
  | _ => None
  end.

(** The first pattern of [extractBase64Images], at the head of [s]. *)
Definition dataImgTag (s : jsstring) : option (jsstring * jsstring * nat) :=
  match afterPrefixCI (lit "<img") s with
  | Some rest =>
      match afterAttrs dataSrcAttribute rest with
      | Some (found, n) => Some (found, (4 + n)%nat)
      | None => None
      end
  | None => None
  end.

(** The class of the second pattern's payload: neither white space, nor a
    quote, nor an angle bracket. *)
Definition isPayload (c : N) : bool :=
  negb (isSpace c || isQuote c || N.eqb c GT || N.eqb c LT).

(** The second pattern: [data:image\/([^;]+);base64,] and one payload
    character at least, under the flags [gi]. *)
Definition dataUrl (s : jsstring) : option (jsstring * jsstring * nat) :=
  match dataUrlHead s with
  | Some (type, payload) =>
      match span isPayload payload with
      | O => None
      | S m =>
          Some (type, List.firstn (S m) payload,
                (11 + List.length type + 8 + S m)%nat)
      end
  | None => None
  end.

(** The body of the inner loop: the entry is pushed unless its data URL is
    in [foundDataUrls], which holds the [src] of every entry pushed. *)
Definition addFound (base64Images : list Base64Image) (found : jsstring * jsstring)
  : list Base64Image :=
  let '(type, payload) := found in
  let dataUrl := lit "data:image/" ++ type ++ lit ";base64," ++ payload in
  if List.existsb (fun image => eqb (src image) dataUrl) base64Images
  then base64Images
  else base64Images ++ [mkFound dataUrl payload type].

(** [extractBase64Images] *)
Definition extractBase64Images (html : jsstring) : list Base64Image :=
  List.fold_left addFound (execAll dataUrl html)
    (List.fold_left addFound (execAll dataImgTag html) []).

End PdfProcessor.

(** ** The request handler of the PDF processor ([serve])

    The handler around the functions above: the conversion request, the
    extraction of the HTML, the image step, the finalized HTML, the
    embedding, the knowledge entry, and the two [catch] blocks that turn
    every error into a response.  Console output is left out, and so are
    the time stamps of the records and of the failure responses; of the
    clock, the reads whose value is kept are counted.  Error messages are
    [string]s of code units below 256. *)

Module Serve.
Import PdfProcessor.

(** *** Error messages *)




Definition decimalString (z : Z) : string := NilZero.string_of_int (Z.to_int z).

(** [keys.join(', ')] *)
Fixpoint join (separator : string) (parts : list string) : string :=
  match parts with
  | [] => ""
  | [part] => part
  | part :: rest => part ++ separator ++ join separator rest
  end.




(** *** The request and the remote side *)

(** The body of the request; a string field that is missing is empty, and
    [options] is an object when it is given. *)
Module Req.
Record t : Type := mk {
  fileUrl : jsstring;
  originalFilename : jsstring;
  fileSize : Z;
  userId : jsstring;
  language : option jsstring;  (* options.language *)
  maxPages : option Z          (* options.maxPages *)
}.
End Req.

(** What [req.json()] gives. *)
Inductive JsonOutcome : Type :=
| Parsed (requestData : Req.t)
| ParseFailed (message : string).

Record Request : Type := mkRequest {
  isOptions : bool;  (* req.method === 'OPTIONS' *)
  json : JsonOutcome
}.

(** A file of the conversion result.  A URL that is missing is empty;
    [FileData], when it is there, is a string; [keys] is
    [Object.keys(htmlFile)]. *)
Module HtmlFile.
Record t : Type := mk {
  FileName : jsstring;
  Url : jsstring;
  url : jsstring;
  FileUrl : jsstring;
  downloadUrl : jsstring;
  FileData : option jsstring;
  keys : list string
}.
End HtmlFile.

(** The [Parameters] of the conversion request; [EmbedCss] is [true] and
    [EmbedImages] is [false] in every request. *)
Record ConvertParams : Type := mkParams {
  fileValueUrl : jsstring;
  pageRange : option jsstring
}.

(** The answer of the conversion service: its status, the text of an
    answer that is not ok, and the [Files] of one that is (none when the
    field is missing). *)
Inductive ConvertOutcome : Type :=
| ConvertAnswered (status : Z) (errorText : string) (files : list HtmlFile.t)
| ConvertThrew (message : string).

Inductive HtmlOutcome : Type :=
| HtmlAnswered (status : Z) (text : jsstring)
| HtmlThrew (message : string).

(** [data.data[0].embedding] of the answer of the embedding service:
    reading it throws, or it is a vector, or [undefined]. *)
Inductive EmbeddingJson : Type :=
| JsonThrew (message : string)
| EmbeddingField (embedding : option (list float)).

Inductive EmbedOutcome : Type :=
| EmbedAnswered (status : Z) (parsed : EmbeddingJson)
| EmbedThrew (message : string).

(** An insertion with [.select().single()]: the row's [id], the [error]
    of the result, or an exception. *)
Inductive InsertOutcome : Type :=
| Inserted (id : string)
| InsertError (message : string)
| InsertThrew (message : string).

Inductive UpdateOutcome : Type :=
| Updated
| UpdateThrew (message : string).

(** The update of the processing record that ends a run. *)
Inductive RecordUpdate : Type :=
| Completed (processingTimeMs : Z) (documentTitle : jsstring) (keywords : list jsstring)
| FailedWith (errorMessage : string).

Record Remote : Type := mkRemote {
  images : Env;               (* fetch, upload, getPublicUrl, atob, Date.now *)
  hasConvertApiKey : bool;    (* !!convertApiKey *)
  hasOpenAiKey : bool;        (* !!openaiApiKey *)
  createRecord : Req.t -> InsertOutcome;
  convert : ConvertParams -> ConvertOutcome;
  fetchHtml : jsstring -> HtmlOutcome;
  embed : jsstring -> EmbedOutcome;
  insertKnowledge : KnowledgeEntry -> InsertOutcome;
  updateRecord : string -> RecordUpdate -> UpdateOutcome;
  toISOString : Z -> jsstring
}.

(** *** The state of a run: console, storage and clock, and the rows
    written to the two tables *)

Inductive DbWrite : Type :=
| ProcessingRecord (processingId : string) (requestData : Req.t)
| KnowledgeRow (id : string) (entry : KnowledgeEntry)
| RecordUpdated (processingId : string) (update : RecordUpdate).

Record Site : Type := mkSite {
  world : World;
  database : list DbWrite
}.

Definition S (A : Type) : Type := Site -> Result A * Site.

Definition pure {A} (a : A) : S A := fun site => (Ok a, site).

Definition andThen {A B} (c : S A) (k : A -> S B) : S B :=
  fun site =>
    match c site with
    | (Ok a, site') => k a site'
    | (Thrown e, site') => (Thrown e, site')
    end.

Definition raise {A} (message : string) : S A := fun site => (Thrown message, site).

Definition catch {A} (body : S A) (handler : string -> S A) : S A :=
  fun site =>
    match body site with
    | (Ok a, site') => (Ok a, site')
    | (Thrown e, site') => handler e site'
    end.

Notation "'let+' x ':=' c 'in' k" := (andThen c (fun x => k))
  (at level 10, x pattern, c at level 100, k at level 200).

(** A computation on console, storage and clock, within a run. *)
Definition lift {A} (c : M A) : S A :=
  fun site =>
    match c (world site) with
    | (result, w') => (result, mkSite w' (database site))
    end.

Definition written (row : DbWrite) : S unit :=
  fun site => (Ok tt, mkSite (world site) (database site ++ [row])).

Definition okStatus (status : Z) : bool := (200 <=? status) && (status <=? 299).

(** *** [generateEmbedding] *)



(** *** Step 2: the HTML of the conversion *)

(** [a || b]: the first that is not empty. *)
Definition orElse (a b : jsstring) : jsstring :=
  match a with
  | [] => b
  | _ => a
  end.

(** The class [[A-Za-z0-9+/]]. *)
Definition isBase64Char (c : N) : bool :=
  ((65 <=? c) && (c <=? 90) || (97 <=? c) && (c <=? 122)
   || (48 <=? c) && (c <=? 57) || (c =? 43) || (c =? 47))%N.

(** [/^[A-Za-z0-9+/]*={0,2}$/.test(s)] *)
Definition looksBase64 (s : jsstring) : bool :=
  match List.skipn (span isBase64Char s) s with
  | [] => true
  | [c] => N.eqb c 61
  | [c; c'] => N.eqb c 61 && N.eqb c' 61
  | _ => false
  end.

(** [rawData.replace(/\s/g, '')] *)
Definition withoutSpace (rawData : jsstring) : jsstring :=
  List.filter (fun c => negb (isSpace c)) rawData.

Definition htmlContentOf (remote : Remote) (htmlFile : HtmlFile.t) : M jsstring :=
  let htmlFileUrl :=
    orElse (HtmlFile.Url htmlFile)
      (orElse (HtmlFile.url htmlFile)
         (orElse (HtmlFile.FileUrl htmlFile) (HtmlFile.downloadUrl htmlFile))) in
  match htmlFileUrl with
  | _ :: _ =>
      match fetchHtml remote htmlFileUrl with
      | HtmlThrew message => throw message
      | HtmlAnswered status text =>
          if negb (okStatus status)
          then throw ("Failed to download HTML: " ++ decimalString status)
          else ret text
      end
  | [] =>
      match HtmlFile.FileData htmlFile with
      | Some (c :: rest) =>
          let rawData := c :: rest in
          tryCatch
            (if looksBase64 (withoutSpace rawData) then
               match atob (images remote) rawData with
               | Some decoded => ret decoded
               | None => throw "InvalidCharacterError"
               end
             else ret rawData)
            (fun _ => ret rawData)
      | _ =>
          throw ("No HTML content found. Available properties: "
                 ++ join ", " (HtmlFile.keys htmlFile))
      end
  end.

(** *** The responses *)




(** *** The pipeline: the inner [try] block *)



Definition awaitConvert (outcome : ConvertOutcome) : S (list HtmlFile.t) :=
  match outcome with
  | ConvertThrew message => raise message
  | ConvertAnswered status errorText files =>
      if negb (okStatus status)
      then raise ("ConvertAPI request failed: " ++ decimalString status ++ " - " ++ errorText)
      else pure files
  end.

Definition awaitUpdate (processingId : string) (update : RecordUpdate)
    (outcome : UpdateOutcome) : S unit :=
  match outcome with
  | Updated => written (RecordUpdated processingId update)
  | UpdateThrew message => raise message
  end.


(** *** [serve] *)



End Serve.

(** ** The spatial material mapper ([SpatialMaterialMapper])

    The segmentation of a point cloud into surfaces and the choice of the
    best matching material.  Coordinates and confidences are IEEE 754
    binary64 values.  The language leaves the rounding of [Math.sqrt] and
    [Math.pow] to the engine, so both are parameters of the model; the
    comparisons, [Math.min] and [Math.max] are exact.  The catalogue query
    and the confidence of a material, which inspect values of type [any],
    are parameters that may throw. *)

Module Spatial.

Module SpatialPoint.
Record t : Type := mk {
  x : float;
  y : float;
  z : float;
  intensity : option float;
  color : option (float * float * float)
}.
End SpatialPoint.

(** [{ x, y, z }], a point without intensity and color. *)
Definition corner (x y z : float) : SpatialPoint.t := SpatialPoint.mk x y z None None.

Module Bounds.
Record t : Type := mk { min : SpatialPoint.t; max : SpatialPoint.t }.
End Bounds.

Inductive SurfaceType : Type := Wall | Floor | Ceiling | Furniture.

Module Surface.
Record t : Type := mk {
  id : string;
  type : SurfaceType;
  points : list SpatialPoint.t;
  area : float;
  bounds : Bounds.t;
  normal : float * float * float
}.
End Surface.

(** *** [Math.min] and [Math.max]

    The loops of the language definition: a NaN among the numbers is the
    result, a zero of the other sign replaces the zero held so far, and the
    result for no number is the infinity the loop starts from.  The code
    spreads the coordinates of a cloud into the arguments of one call; the
    model covers the clouds for which the engine accepts that many
    arguments. *)

Definition isNegativeZero (number : float) : bool :=
  PrimFloat.is_zero number && PrimFloat.get_sign number.

Definition isPositiveZero (number : float) : bool :=
  PrimFloat.is_zero number && negb (PrimFloat.get_sign number).

Fixpoint minFrom (lowest : float) (numbers : list float) : float :=
  match numbers with
  | [] => lowest
  | number :: rest =>
      if PrimFloat.is_nan number then PrimFloat.nan
      else
        let lowest :=
          if isNegativeZero number && isPositiveZero lowest then number else lowest in
        let lowest := if PrimFloat.ltb number lowest then number else lowest in
        minFrom lowest rest
  end.

Definition Math_min (numbers : list float) : float := minFrom PrimFloat.infinity numbers.

Fixpoint maxFrom (highest : float) (numbers : list float) : float :=
  match numbers with
  | [] => highest
  | number :: rest =>
      if PrimFloat.is_nan number then PrimFloat.nan
      else
        let highest :=
          if isPositiveZero number && isNegativeZero highest then number else highest in
        let highest := if PrimFloat.ltb highest number then number else highest in
        maxFrom highest rest
  end.

Definition Math_max (numbers : list float) : float :=
  maxFrom PrimFloat.neg_infinity numbers.

(** *** Bounds and area *)

Definition calculateBounds (points : list SpatialPoint.t) : Bounds.t :=
  if (List.length points =? 0)%nat
  then Bounds.mk (corner 0 0 0) (corner 0 0 0)
  else
    Bounds.mk
      (corner (Math_min (List.map SpatialPoint.x points))
              (Math_min (List.map SpatialPoint.y points))
              (Math_min (List.map SpatialPoint.z points)))
      (corner (Math_max (List.map SpatialPoint.x points))
              (Math_max (List.map SpatialPoint.y points))
              (Math_max (List.map SpatialPoint.z points))).

Definition calculateSurfaceArea (points : list SpatialPoint.t) : float :=
  if (List.length points <? 3)%nat then 0%float
  else
    let bounds := calculateBounds points in
    ((SpatialPoint.x (Bounds.max bounds) - SpatialPoint.x (Bounds.min bounds))
     * (SpatialPoint.z (Bounds.max bounds) - SpatialPoint.z (Bounds.min bounds)))%float.

Section Engine.

Variable Math_sqrt : float -> float.
Variable Math_pow : float -> float -> float.

(** *** The normal of a surface, from its first three points *)

Definition calculateSurfaceNormal (points : list SpatialPoint.t) : float * float * float :=
  match points with
  | p1 :: p2 :: p3 :: _ =>
      let v1x := (SpatialPoint.x p2 - SpatialPoint.x p1)%float in
      let v1y := (SpatialPoint.y p2 - SpatialPoint.y p1)%float in
      let v1z := (SpatialPoint.z p2 - SpatialPoint.z p1)%float in
      let v2x := (SpatialPoint.x p3 - SpatialPoint.x p1)%float in
      let v2y := (SpatialPoint.y p3 - SpatialPoint.y p1)%float in
      let v2z := (SpatialPoint.z p3 - SpatialPoint.z p1)%float in
      let nx := (v1y * v2z - v1z * v2y)%float in
      let ny := (v1z * v2x - v1x * v2z)%float in
      let nz := (v1x * v2y - v1y * v2x)%float in
      let length := Math_sqrt (nx * nx + ny * ny + nz * nz)%float in
      if PrimFloat.ltb 0 length
      then ((nx / length)%float, (ny / length)%float, (nz / length)%float)
      else (0%float, 0%float, 1%float)
  | _ => (0%float, 0%float, 1%float)
  end.

(** *** Clustering of the wall points *)

Definition distance (p q : SpatialPoint.t) : float :=
  Math_sqrt
    (Math_pow (SpatialPoint.x p - SpatialPoint.x q) 2
     + Math_pow (SpatialPoint.z p - SpatialPoint.z q) 2)%float.

(** The inner loop: [j] runs over the points behind the seed [points[i]];
    [rest] holds [points[j]], [points[j+1]], ... *)
Fixpoint gather (seed : SpatialPoint.t) (j : nat) (rest : list SpatialPoint.t)
    (visited : gset nat) (cluster : list SpatialPoint.t)
    : list SpatialPoint.t * gset nat :=
  match rest with
  | [] => (cluster, visited)
  | point :: rest =>
      if decide (j ∈ visited) then gather seed (S j) rest visited cluster
      else if PrimFloat.ltb (distance seed point) 0.5
      then gather seed (S j) rest ({[ j ]} ∪ visited) (cluster ++ [point])
      else gather seed (S j) rest visited cluster
  end.

(** The outer loop: [i] runs over the points; [rest] holds [points[i]],
    [points[i+1]], ... *)
Fixpoint clusterFrom (i : nat) (rest : list SpatialPoint.t) (visited : gset nat)
    (clusters : list (list SpatialPoint.t)) : list (list SpatialPoint.t) :=
  match rest with
  | [] => clusters
  | seed :: rest =>
      if decide (i ∈ visited) then clusterFrom (S i) rest visited clusters
      else
        let '(cluster, visited) := gather seed (S i) rest ({[ i ]} ∪ visited) [seed] in
        clusterFrom (S i) rest visited
          (if (50 <? List.length cluster)%nat then clusters ++ [cluster] else clusters)
  end.

Definition clusterWallPoints (points : list SpatialPoint.t) : list (list SpatialPoint.t) :=
  clusterFrom 0 points ∅ [].

(** *** Segmentation *)

Definition segmentSurfaces (pointCloudData : list SpatialPoint.t) : list Surface.t :=
  let floorPoints :=
    List.filter (fun p => PrimFloat.ltb (SpatialPoint.y p) (-1.5)) pointCloudData in
  let ceilingPoints :=
    List.filter (fun p => PrimFloat.ltb 1.5 (SpatialPoint.y p)) pointCloudData in
  let wallPoints :=
    List.filter (fun p => PrimFloat.leb (-1.5) (SpatialPoint.y p)
                          && PrimFloat.leb (SpatialPoint.y p) 1.5) pointCloudData in
  let surfaces := [] in
  let surfaces :=
    if (100 <? List.length floorPoints)%nat
    then surfaces ++ [Surface.mk "floor" Floor floorPoints
                        (calculateSurfaceArea floorPoints) (calculateBounds floorPoints)
                        (0%float, 1%float, 0%float)]
    else surfaces in
  let surfaces :=
    if (100 <? List.length ceilingPoints)%nat
    then surfaces ++ [Surface.mk "ceiling" Ceiling ceilingPoints
                        (calculateSurfaceArea ceilingPoints) (calculateBounds ceilingPoints)
                        (0%float, (-1)%float, 0%float)]
    else surfaces in
  let wallClusters := clusterWallPoints wallPoints in
  surfaces
  ++ imap (fun index cluster =>
             Surface.mk ("wall_" ++ Serve.decimalString (Z.of_nat index)) Wall cluster
               (calculateSurfaceArea cluster) (calculateBounds cluster)
               (calculateSurfaceNormal cluster))
          wallClusters.

End Engine.

(** *** The best matching material *)

Inductive Outcome (A : Type) : Type :=
| Returned (value : A)
| Threw (error : string).
Arguments Returned {A} value.
Arguments Threw {A} error.

(** The answer of the catalogue query: [{ data, error }]. *)
Record Selection (Material : Type) : Type := mkSelection {
  data : option (list Material);
  error : option string
}.
Arguments mkSelection {Material} data error.
Arguments data {Material} s.
Arguments error {Material} s.

Record Match : Type := mkMatch { materialId : string; confidence : float }.

Section Matching.

Context {Features Material : Type}.
Variable selectMaterials : Outcome (Selection Material).
Variable idOf : Material -> string.
Variable calculateMaterialMatchConfidence : Features -> Material -> Outcome float.

(** The loop over the catalogue. *)
Fixpoint bestFrom (features : Features) (materials : list Material)
    (bestMatch : option Match) (maxConfidence : float) : Outcome (option Match) :=
  match materials with
  | [] => Returned bestMatch
  | material :: materials =>
      match calculateMaterialMatchConfidence features material with
      | Threw error => Threw error
      | Returned confidence =>
          if PrimFloat.ltb maxConfidence confidence && PrimFloat.ltb 0.6 confidence
          then bestFrom features materials (Some (mkMatch (idOf material) confidence))
                 confidence
          else bestFrom features materials bestMatch maxConfidence
      end
  end.

(** The result and what [console.error] was given. *)
Definition matchMaterialFromFeatures (features : Features) : option Match * list string :=
  let attempt :=
    match selectMaterials with
    | Threw error => Threw error
    | Returned selection =>
        match error selection with
        | Some error => Threw error
        | None => bestFrom features (default [] (data selection)) None 0
        end
    end in
  match attempt with
  | Returned bestMatch => (bestMatch, [])
  | Threw error => (None, [error])
  end.

End Matching.

End Spatial.

(* ===================================================================== *)
(** * Part II: the vocabulary of the properties

    Sample inputs, and the predicates the theorems of Part III are stated
    with. *)
(* ===================================================================== *)

(** ** The dispatcher *)

Module HybridAIProps.
Import HybridAI.

(** *** Sample inputs *)

Definition sampleRequest : HybridRequest :=
  mkRequest "Analyze this marble countertop" None MaterialAnalysis None None None.

Definition sampleClock (k : nat) : Z := 1000 + 25 * Z.of_nat k.

Definition constEnv (openai claude : CallOutcome) : Env :=
  mkEnv (fun _ => openai) (fun _ => claude) sampleClock.

Definition textResult : Js.value := Js.JObj [("text", Js.JStr "Carrara marble")].
Definition errorResult : Js.value := Js.JObj [("error", Js.JStr "rate limited")].
Definition contentWithError : Js.value :=
  Js.JObj [("text", Js.JStr "Carrara marble"); ("error", Js.JStr "partial failure")].
Definition emptyTextResult : Js.value := Js.JObj [("text", Js.JStr "")].

(** *** The ledger *)

(** [a] is tried no later than [b]. *)
Definition byPriority (a b : AIProvider) : Prop := priority a <= priority b.

(** The entry [a] has a score that meets the threshold. *)
Definition clears (minScore : float) (a : Attempt.t) : bool :=
  match Attempt.score a with
  | Some s => PrimFloat.leb minScore s
  | None => false
  end.

(** What the ledger entry of a provider must be, given what invoking it
    gives. *)
Definition recordsOutcome (env : Env) (request : HybridRequest) (a : Attempt.t) : Prop :=
  match invoke env (Attempt.provider a) request with
  | Returned result =>
      Attempt.success a = true
      /\ Attempt.score a = Some (Validation.score (validateResponse result request))
      /\ Attempt.error a = None
  | Threw message =>
      Attempt.success a = false
      /\ Attempt.score a = None
      /\ Attempt.error a = Some message
  end.

(** *** The default validator *)

(** A result carries an error: a truthy [error] field, or [status] equal to
    the string [error]. *)
Definition carriesError (result : Js.value) : Prop :=
  Js.truthy (Js.prop result "error") = true
  \/ Js.prop result "status" = Js.JStr "error".

(** One of the three content fields is non-empty. *)
Definition contentFieldFilled (result : Js.value) : Prop :=
  Js.truthy (Js.prop result "text") = true
  \/ Js.truthy (Js.prop result "raw_response") = true
  \/ Js.truthy (Js.prop result "image_url") = true.

(** What the validator counts as content: a truthy result with a filled
    content field or with any own key at all. *)
Definition countsAsContent (result : Js.value) : Prop :=
  Js.truthy result = true
  /\ (contentFieldFilled result \/ (0 < Js.keysLength result)%nat).

(** *** The running best *)

(** The three scores the validator gives. *)
Definition validScore (x : float) : Prop :=
  x = 0.1%float \/ x = 0.3%float \/ x = 0.9%float.

(** No entry of the ledger scores above [best]. *)
Definition bounded (best : float) (ledger : list Attempt.t) : Prop :=
  List.Forall
    (fun a => match Attempt.score a with
              | Some s => validScore s /\ PrimFloat.leb s best = true
              | None => True
              end) ledger.

(** The running best of the loop: nothing yet, or the result of the first
    entry of the ledger that has the highest score. *)
Definition tracksBest (env : Env) (request : HybridRequest) (st : LoopState) : Prop :=
  (bestScore st = 0%float /\ bestResult st = Js.JNull /\ bestValidation st = None
   /\ List.Forall (fun a => Attempt.score a = None) (attempts st))
  \/ (validScore (bestScore st)
      /\ bounded (bestScore st) (attempts st)
      /\ bestValidation st = Some (validateResponse (bestResult st) request)
      /\ exists before a after,
           attempts st = before ++ a :: after
           /\ List.Forall (fun b => scoreIs (bestScore st) b = false) before
           /\ Attempt.score a = Some (bestScore st)
           /\ invoke env (Attempt.provider a) request = Returned (bestResult st)).

(** *** The clock *)

(** The environment of the client: the two calls are the stubs of the file. *)
Definition clientEnv (clock : nat -> Z) : Env :=
  mkEnv callOpenAI_stub callClaude_stub clock.

Definition stubMessage : string := "Use callHybridAnalysis instead for client-side calls".

(** What a ledger entry says, its time apart. *)
Definition outcomeOf (a : Attempt.t) : string * bool * option float * option string :=
  (Attempt.provider a, Attempt.success a, Attempt.score a, Attempt.error a).

(** [Date.now()] never goes back. *)
Definition monotone (clock : nat -> Z) : Prop := forall k, clock k <= clock (S k).

Definition sumTimes (ledger : list Attempt.t) : Z :=
  List.fold_right (fun a acc => Attempt.processing_time_ms a + acc) 0 ledger.

Definition maxTriesOf (request : HybridRequest) : Z :=
  default DEFAULT_MAX_RETRIES (maxRetries request).

End HybridAIProps.

(** ** The workflow observer *)

Module WorkflowProps.
Import Workflow.

(** *** Sample inputs *)

Definition sampleClock (k : nat) : Z := 1000 + 25 * Z.of_nat k.

(** A step that has nothing but a status. *)
Definition stepWith (st : Status) : WorkflowStep.t :=
  WorkflowStep.mk "s" "S" "" st None None None None [] [] [].

(** *** The status of a job *)

(** The job status as the specification derives it from the steps:
    [failed] if any step failed, [completed] if all steps completed, else
    [running] if any step is running, else [pending]. *)
Definition specStatus (steps : list WorkflowStep.t) : Status :=
  if existsb (hasStatus failed) steps then failed
  else if forallb (hasStatus completed) steps then completed
  else if existsb (hasStatus running) steps then running
  else pending.

(** The same, for a job that has been started: it reports [running], not
    [pending], while no step is running. *)
Definition startedStatus (steps : list WorkflowStep.t) : Status :=
  match specStatus steps with
  | pending => running
  | st => st
  end.

(** The job reports the status its steps give. *)
Definition consistent (job : WorkflowJob.t) : Prop :=
  WorkflowJob.status job = startedStatus (WorkflowJob.steps job).

(** The status [updateJobStep] leaves on the job, from the update, the
    steps after it and the status before it. *)
Definition nextStatus (updates : StepUpdate.t) (steps' : list WorkflowStep.t)
    (old : Status) : Status :=
  match StepUpdate.status updates with
  | Some failed => failed
  | _ =>
      if forallb (hasStatus completed) steps' then completed
      else if existsb (hasStatus running) steps' then running
      else old
  end.

End WorkflowProps.

(** ** A run of the workflow *)

Module WorkflowRunProps.
Import Workflow.

Definition resolves (outcome : ExecOutcome) : bool :=
  match outcome with
  | Resolved _ _ _ => true
  | Rejected _ => false
  end.

(** The statuses of the steps [stepIds] once the workflow has run over
    them: completed up to the first executor that rejects, failed there,
    and pending behind it. *)
Fixpoint statusesAfter (executors : string -> ExecOutcome) (stepIds : list string)
  : list Status :=
  match stepIds with
  | [] => []
  | stepId :: rest =>
      if resolves (executors stepId) then completed :: statusesAfter executors rest
      else failed :: List.repeat pending (List.length rest)
  end.

(** How many of the steps are started. *)
Fixpoint stepsRun (executors : string -> ExecOutcome) (stepIds : list string) : nat :=
  match stepIds with
  | [] => 0
  | stepId :: rest =>
      if resolves (executors stepId) then S (stepsRun executors rest) else 1
  end.

(** The message of the first executor that rejects. *)
Fixpoint firstRejection (executors : string -> ExecOutcome) (stepIds : list string)
  : option string :=
  match stepIds with
  | [] => None
  | stepId :: rest =>
      match executors stepId with
      | Resolved _ _ _ => firstRejection executors rest
      | Rejected message => Some message
      end
  end.

(** A failed step carries the message its executor rejected with. *)
Definition carriesRejection (executors : string -> ExecOutcome) (step : WorkflowStep.t)
  : Prop :=
  WorkflowStep.status step = failed ->
  exists message,
    executors (WorkflowStep.id step) = Rejected message
    /\ WorkflowStep.error step = Some message.

(** Whether [updateJobStep] sets [job.endTime]. *)
Definition ends (updates : StepUpdate.t) (steps' : list WorkflowStep.t) : bool :=
  match StepUpdate.status updates with
  | Some failed => true
  | _ => forallb (hasStatus completed) steps'
  end.

(** What a job keeps for life. *)
Definition header (job : WorkflowJob.t) : string * string * string * Z :=
  (WorkflowJob.id job, WorkflowJob.name job, WorkflowJob.filename job,
   WorkflowJob.startTime job).

(** The job and the index [updateJobStep] addresses, if any. *)
Definition addressed (jobId stepId : string) (svc : Service)
  : option (WorkflowJob.t * nat) :=
  match jobs svc !! jobId with
  | None => None
  | Some job =>
      match findIndex stepId (WorkflowJob.steps job) with
      | None => None
      | Some stepIndex => Some (job, stepIndex)
      end
  end.

End WorkflowRunProps.

(** ** The PDF processor *)

Module PdfProcessorProps.
Import PdfProcessor.

(** *** Sample inputs *)

Definition sampleUser : jsstring := lit "user-42".
Definition sampleUrl : jsstring := lit "https://cdn.example.com/figure.png".
Definition sampleClock (k : nat) : Z := 1700000000000 + 100 * Z.of_nat k.
Definition samplePublicUrl (bucket : string) (path : jsstring) : jsstring :=
  lit "https://storage.example.com/" ++ lit bucket ++ lit "/" ++ path.

(** A remote side where every fetch answers [response] and every upload
    succeeds. *)
Definition answering (response : Response) : Env :=
  mkEnv (fun _ => Fetched response) (fun _ _ => Uploaded) samplePublicUrl
        (fun payload => Some payload) sampleClock.

Definition emptyWorld : World := mkWorld [] [] 0.

Definition pngOfSize (size : Z) : Response :=
  mkResponse 200 (Some (lit "image/png")) (Blob size).

Definition sampleBase64 : Base64Image :=
  mkFound (lit "data:image/png;base64,iVBORw0KGgo=") (lit "iVBORw0KGgo=") (lit "png").

(** What [serve] has computed for a small document, given the images it
    relocated. *)
Definition sampleProcessed (relocated : list ProcessedImage)
    (converted : list ProcessedBase64) : Processed :=
  mkProcessed (lit "catalogue.pdf") 12345 sampleUser None [] [] relocated converted
    (lit "<p>Carrara marble tiles</p>") (lit "https://storage.example.com/doc.html")
    (lit "Carrara marble tiles") [] (lit "2025-01-01T00:00:00.000Z").

(** *** Console lines *)

(** The lines that report a skipped image. *)
Definition isFailureLine (line : ConsoleLine) : bool :=
  match line with
  | DownloadFailed _ _ | InvalidContentType _ _ | TooLarge _ _
  | UploadFailed _ _ | ProcessingError _ _
  | Base64UploadFailed _ _ | Base64ProcessingError _ _ => true
  | Downloading _ _ | Stored _ | Base64Converted _ _ => false
  end.

(** The lines with which the fetch rejects an image. *)
Definition isRejectionLine (line : ConsoleLine) : bool :=
  match line with
  | DownloadFailed _ _ | InvalidContentType _ _ | TooLarge _ _ => true
  | _ => false
  end.

(** How many of [lines] report a skipped image. *)
Definition failures (lines : list ConsoleLine) : nat :=
  List.length (List.filter isFailureLine lines).

(** *** Keywords and extracted text *)

(** A word of more than 3 code units. *)
Definition longWord (word : jsstring) : bool := (3 <? List.length word)%nat.

(** [P] holds of every suffix of [u]. *)
Definition everySuffix (P : jsstring -> Prop) (u : jsstring) : Prop :=
  forall a b, u = a ++ b -> P b.



(** No suffix of [u] starts with [pattern]: [pattern] does not occur. *)
Definition absent (pattern u : jsstring) : Prop :=
  everySuffix (fun b => afterPrefix pattern b = None) u.


(** *** Discovered images *)

(** No code unit of [u] is a quote. *)
Definition quoteFree (u : jsstring) : Prop :=
  List.Forall (fun c => isQuote c = false) u.

(** An entry of [extractBase64Images] as the function builds it. *)
Definition wellFormed (image : Base64Image) : Prop :=
  src image = lit "data:image/" ++ imageType image ++ lit ";base64," ++ data image
  /\ imageType image <> []
  /\ List.Forall (fun c => N.eqb c SEMI = false) (imageType image)
  /\ data image <> []
  /\ quoteFree (data image).

(** What the two patterns of [extractBase64Images] capture: a type and a
    payload. *)
Definition captured (found : jsstring * jsstring) : Prop :=
  fst found <> []
  /\ List.Forall (fun c => N.eqb c SEMI = false) (fst found)
  /\ snd found <> []
  /\ quoteFree (snd found).

(** *** Relocated images and their objects *)

(** [object] is what [downloadAndStoreImage] put into storage for
    [image], and the public URL of the image is that of the object. *)
Definition storedAs (env : Env) (user : jsstring) (image : ProcessedImage)
    (object : StoredObject) : Prop :=
  bucket object = "material-images"
  /\ path object = user ++ lit "/pdf-images/" ++ filename image
  /\ storedSize object = size image
  /\ supabaseUrl image = getPublicUrl env "material-images" (path object).

(** The same for [processBase64Image]. *)
Definition convertedAs (env : Env) (user : jsstring) (image : ProcessedBase64)
    (object : StoredObject) : Prop :=
  bucket object = "pdf-documents"
  /\ path object = user ++ lit "/pdf-images/" ++ base64Filename image
  /\ base64Url image = getPublicUrl env "pdf-documents" (path object).

(** The data URL of an entry, as [processBase64Image] writes it. *)
Definition dataUrlOf (found : Base64Image) : jsstring :=
  lit "data:image/" ++ imageType found ++ lit ";base64," ++ data found.

(** [u] occurs in [s]. *)
Definition occursIn (u s : jsstring) : Prop := exists a b, s = a ++ u ++ b.

(** [a] is what stands before the first occurrence of [pattern] in
    [a ++ pattern ++ b]: no occurrence starts inside [a]. *)
Definition beforeFirst (pattern a : jsstring) : Prop :=
  absent pattern (a ++ List.removelast pattern).

(** The text [src=] does not occur in [u], in whatever case. *)
Definition withoutSrc (u : jsstring) : Prop :=
  everySuffix (fun b => afterPrefixCI (lit "src=") b = None) u.

(** The text [data:image/] does not occur in [u], in whatever case. *)
Definition withoutDataUrl (u : jsstring) : Prop :=
  everySuffix (fun b => afterPrefixCI (lit "data:image/") b = None) u.

(** The tag [<img src=], a quote, the data URL of [type] and [payload],
    a quote, and [>]. *)
Definition base64Tag (q q' : N) (type payload : jsstring) : jsstring :=
  lit "<img src=" ++ q :: (lit "data:image/" ++ type ++ lit ";base64," ++ payload)
    ++ [q'; GT].

(** A relocated image, for the replacement of [url] by [newUrl]. *)
Definition relocatedAs (url newUrl : jsstring) : ProcessedImage :=
  mkImage url newUrl (lit "pdf-image-1-0.png") 0.

Definition DOLLAR : N := 36.

(** How many code units of [u] are [<]. *)
Definition countLT (u : jsstring) : nat :=
  List.length (List.filter (N.eqb LT) u).

End PdfProcessorProps.

(** ** The request handler *)

Module ServeProps.
Import PdfProcessor PdfProcessorProps Serve.

(** *** Sample inputs *)

Definition sampleHtml : jsstring :=
  lit "<html><body><h1>Carrara</h1><img src='https://cdn.example.com/figure.png'></body></html>".


(** A conversion result that carries its HTML inline. *)
Definition fileWith (rawData : jsstring) : HtmlFile.t :=
  HtmlFile.mk (lit "catalogue.html") [] [] [] [] (Some rawData) ["FileName"; "FileData"].

Definition sampleData : Req.t :=
  Req.mk (lit "https://files.example.com/catalogue.pdf") (lit "catalogue.pdf") 12345
    sampleUser None None.

Definition sampleRequest : Request := mkRequest false (Parsed sampleData).

(** A remote side where everything succeeds: the conversion answers
    [convertStatus] with [files], every fetch gives a PNG of 2048 bytes. *)
Definition sampleRemote (convertStatus : Z) (files : list HtmlFile.t) : Remote :=
  mkRemote (answering (pngOfSize 2048)) true true
    (fun _ => Inserted "processing-1")
    (fun _ => ConvertAnswered convertStatus "Unable to convert" files)
    (fun _ => HtmlAnswered 200 sampleHtml)
    (fun _ => EmbedAnswered 200 (EmbeddingField (Some [0.25%float; 0.5%float])))
    (fun _ => Inserted "knowledge-1")
    (fun _ _ => Updated)
    (fun _ => lit "2025-01-01T00:00:00.000Z").


(** *** The HTML of the conversion *)

(** The file offers no URL to download the HTML from. *)
Definition withoutUrl (file : HtmlFile.t) : Prop :=
  HtmlFile.Url file = [] /\ HtmlFile.url file = []
  /\ HtmlFile.FileUrl file = [] /\ HtmlFile.downloadUrl file = [].

(** [c] is neither white space, nor of the base64 alphabet, nor [=]. *)
Definition outsideBase64 (c : N) : Prop :=
  isSpace c = false /\ isBase64Char c = false /\ N.eqb c 61 = false.

(** *** Responses and rows *)















End ServeProps.

(** ** The spatial material mapper *)

Module SpatialProps.
Import Spatial.

(** *** The order of the numbers

    A number that is not NaN has a rank; [<] and [<=] compare ranks, the
    two zeros sharing one. *)

Definition rank (f : spec_float) : Z * Z * Z :=
  match f with
  | S754_zero _ => (0, 0, 0)
  | S754_infinity s => (if s then -2 else 2, 0, 0)
  | S754_nan => (0, 0, 0)
  | S754_finite s m e => if s then (-1, - e, - Z.pos m) else (1, e, Z.pos m)
  end.

Definition below (a b : Z * Z * Z) : Prop :=
  a.1.1 < b.1.1
  \/ (a.1.1 = b.1.1 /\ (a.1.2 < b.1.2 \/ (a.1.2 = b.1.2 /\ a.2 < b.2))).

Definition rankOf (number : float) : Z * Z * Z := rank (Prim2SF number).

Definition isNumber (number : float) : Prop := PrimFloat.is_nan number = false.


(** *** Clusters *)

(** The points that the loops have not yet put into a cluster, of the
    points [points[i]], [points[i+1]], ... *)
Fixpoint unvisited (i : nat) (rest : list SpatialPoint.t) (visited : gset nat)
    : list SpatialPoint.t :=
  match rest with
  | [] => []
  | point :: rest =>
      if decide (i ∈ visited) then unvisited (S i) rest visited
      else point :: unvisited (S i) rest visited
  end.

Section EngineProps.

Variable Math_sqrt : float -> float.
Variable Math_pow : float -> float -> float.

(** Closer than 50 cm in the horizontal plane. *)
Definition near (seed point : SpatialPoint.t) : Prop :=
  PrimFloat.ltb (distance Math_sqrt Math_pow seed point) 0.5 = true.

(** A cluster is its seed and points near the seed. *)
Definition aroundSeed (cluster : list SpatialPoint.t) : Prop :=
  exists seed members, cluster = seed :: members /\ List.Forall (near seed) members.

(** What [clusterWallPoints] promises of a cluster: more than 50 points,
    the seed first and the others near it, in the order of the cloud. *)
Definition wallCluster (points cluster : list SpatialPoint.t) : Prop :=
  (50 < List.length cluster)%nat /\ aroundSeed cluster /\ sublist cluster points.


End EngineProps.

(** *** Surfaces *)

(** The height test of a surface type. *)
Definition heightOf (type : SurfaceType) (point : SpatialPoint.t) : Prop :=
  match type with
  | Floor => PrimFloat.ltb (SpatialPoint.y point) (-1.5) = true
  | Ceiling => PrimFloat.ltb 1.5 (SpatialPoint.y point) = true
  | Wall => PrimFloat.leb (-1.5) (SpatialPoint.y point) = true
            /\ PrimFloat.leb (SpatialPoint.y point) 1.5 = true
  | Furniture => False
  end.

(** A surface has more points than this. *)
Definition minimumSize (type : SurfaceType) : nat :=
  match type with Wall => 50%nat | _ => 100%nat end.

Section SurfaceProps.

Variable Math_sqrt : float -> float.

(** Area, bounds and normal are those of the points of the surface. *)
Definition measured (surface : Surface.t) : Prop :=
  Surface.area surface = calculateSurfaceArea (Surface.points surface)
  /\ Surface.bounds surface = calculateBounds (Surface.points surface)
  /\ Surface.normal surface
     = match Surface.type surface with
       | Floor => (0%float, 1%float, 0%float)
       | Ceiling => (0%float, (-1)%float, 0%float)
       | _ => calculateSurfaceNormal Math_sqrt (Surface.points surface)
       end.

Definition segmentOf (cloud : list SpatialPoint.t) (surface : Surface.t) : Prop :=
  (minimumSize (Surface.type surface) < List.length (Surface.points surface))%nat
  /\ List.Forall (heightOf (Surface.type surface)) (Surface.points surface)
  /\ List.Forall (fun point => isNumber (SpatialPoint.y point)) (Surface.points surface)
  /\ sublist (Surface.points surface) cloud
  /\ measured surface.

End SurfaceProps.

(** *** Bounds *)

(** A point all of whose coordinates are numbers. *)
Definition numeric (point : SpatialPoint.t) : Prop :=
  isNumber (SpatialPoint.x point) /\ isNumber (SpatialPoint.y point)
  /\ isNumber (SpatialPoint.z point).

Definition between (low value high : float) : Prop :=
  PrimFloat.leb low value = true /\ PrimFloat.leb value high = true.

Definition inside (bounds : Bounds.t) (point : SpatialPoint.t) : Prop :=
  between (SpatialPoint.x (Bounds.min bounds)) (SpatialPoint.x point)
          (SpatialPoint.x (Bounds.max bounds))
  /\ between (SpatialPoint.y (Bounds.min bounds)) (SpatialPoint.y point)
             (SpatialPoint.y (Bounds.max bounds))
  /\ between (SpatialPoint.z (Bounds.min bounds)) (SpatialPoint.z point)
             (SpatialPoint.z (Bounds.max bounds)).

(** Some point has a coordinate that is not a number. *)
Definition hasNaN (coordinate : SpatialPoint.t -> float) (points : list SpatialPoint.t) : Prop :=
  List.Exists (fun point => PrimFloat.is_nan (coordinate point) = true) points.

(** Both corners take each of their coordinates from a point. *)
Definition touched (bounds : Bounds.t) (points : list SpatialPoint.t) : Prop :=
  forall coordinate,
    List.In coordinate [SpatialPoint.x; SpatialPoint.y; SpatialPoint.z] ->
    List.In (coordinate (Bounds.min bounds)) (List.map coordinate points)
    /\ List.In (coordinate (Bounds.max bounds)) (List.map coordinate points).

(** *** The best match *)

Section MatchingProps.

Context {Features Material : Type}.
Variable calculateMaterialMatchConfidence : Features -> Material -> Outcome float.
Variable features : Features.

(** The confidence of the material is a value that does not reach [bound]. *)
Definition staysBelow (bound : float) (material : Material) : Prop :=
  exists confidence,
    calculateMaterialMatchConfidence features material = Returned confidence
    /\ PrimFloat.leb bound confidence = false.

(** The confidence of the material is a value that does not exceed
    [bound]. *)
Definition notAbove (bound : float) (material : Material) : Prop :=
  exists confidence,
    calculateMaterialMatchConfidence features material = Returned confidence
    /\ PrimFloat.ltb bound confidence = false.

End MatchingProps.

(** *** Sample inputs *)

(** An engine for the samples: the square root of the processor, and the
    exact square where the code raises to the power 2. *)
Definition square (base exponent : float) : float := (base * base)%float.

Definition sampleSeed : SpatialPoint.t := corner 0 0 0.

(** About 35 cm from the seed in the horizontal plane, a metre above it. *)
Definition sampleMember : SpatialPoint.t := corner 0.25 1 0.25.

Definition sampleCloud : list SpatialPoint.t := sampleSeed :: List.repeat sampleMember 50.

Definition sampleCorners : list SpatialPoint.t :=
  [corner 1 2 3; corner (-1) 0 5; corner 0 (-0) 4].

Definition poisonedCorners : list SpatialPoint.t :=
  [corner 1 2 3; corner PrimFloat.nan 0 5; corner 0 0 4].

End SpatialProps.

(* ===================================================================== *)
(** * Part III: properties *)
(* ===================================================================== *)

Module HybridAIFacts.
Import HybridAI HybridAIProps.

(** *** The ledger only grows, one entry per pass *)

Lemma attempt_ledger env request minScore p st :
  exists a,
    attempts (fst (attempt env request minScore p st)) = attempts st ++ [a]
    /\ Attempt.provider a = name p
    /\ recordsOutcome env request a
    /\ snd (attempt env request minScore p st) = negb (clears minScore a).
Proof.
  unfold attempt, recordsOutcome.
  destruct (invoke env (name p) request) as [result|message] eqn:Hinv.
  - eexists. cbn [fst snd]. split.
    + destruct (PrimFloat.ltb _ _); cbn [attempts]; reflexivity.
    + cbn. rewrite Hinv. auto.
  - eexists. cbn [fst snd attempts]. split; [reflexivity|].
    cbn. rewrite Hinv. auto.
Qed.

Lemma loop_ledger env request minScore maxTries providers : forall st,
  exists new,
    attempts (loop env request minScore maxTries providers st) = attempts st ++ new
    /\ List.map Attempt.provider new
       = List.firstn (List.length new) (List.map name providers)
    /\ List.Forall (recordsOutcome env request) new
    /\ List.Forall (fun a => clears minScore a = false) (List.removelast new)
    /\ (Z.of_nat (List.length (attempts st)) <= Z.max 0 maxTries ->
        Z.of_nat (List.length (attempts st ++ new)) <= Z.max 0 maxTries)
    /\ (List.existsb (clears minScore) new = true
        \/ maxTries <= Z.of_nat (List.length (attempts st ++ new))
        \/ List.length new = List.length providers).
Proof.
  induction providers as [|p rest IH]; intros st; cbn [loop].
  - exists []. rewrite app_nil_r. repeat split; auto.
  - destruct (Z.of_nat (List.length (attempts st)) >=? maxTries) eqn:Hfull.
    + exists []. rewrite app_nil_r. repeat split; auto.
      right; left. lia.
    + destruct (attempt_ledger env request minScore p st)
        as (a & Hatt & Hname & Hrec & Hcont).
      destruct (attempt env request minScore p st) as [st' continue].
      cbn [fst snd] in Hatt, Hcont. subst continue.
      assert (Hlen : Z.of_nat (List.length (attempts st ++ [a])) <= Z.max 0 maxTries).
      { rewrite length_app. cbn [List.length]. lia. }
      destruct (clears minScore a) eqn:Hclr; cbn [negb].
      * exists [a]. rewrite Hatt. repeat split; auto.
        -- cbn. now rewrite Hname.
        -- left. cbn. now rewrite Hclr.
      * destruct (IH st') as (new & Hnew & Hprov & Hall & Hlast & Hbound & Hstop).
        exists (a :: new). rewrite Hnew, Hatt, <- app_assoc. cbn [app].
        repeat split; auto.
        -- cbn. now rewrite Hname, Hprov.
        -- destruct new as [|b new']; [constructor|].
           change (List.removelast (a :: b :: new')) with (a :: List.removelast (b :: new')).
           constructor; assumption.
        -- intros _. specialize (Hbound ltac:(rewrite Hatt; exact Hlen)).
           rewrite Hatt, <- app_assoc in Hbound. exact Hbound.
        -- rewrite Hatt, <- app_assoc in Hstop. cbn [app] in Hstop.
           destruct Hstop as [H|[H|H]].
           ++ left. cbn. rewrite H. apply orb_true_r.
           ++ right; left. exact H.
           ++ right; right. cbn. now rewrite H.
Qed.

Lemma response_attempts providers env request :
  HybridResponse.attempts (processRequestWith providers env request)
  = attempts (loop env request
                (default DEFAULT_MIN_SCORE (minimumScore request))
                (default DEFAULT_MAX_RETRIES (maxRetries request))
                (sortedProviders providers) initialState).
Proof. unfold processRequestWith. destruct (Js.truthy _); reflexivity. Qed.

Lemma sortedProviders_PROVIDERS : sortedProviders PROVIDERS = PROVIDERS.
Proof. reflexivity. Qed.

(** *** The order of the attempts *)

Lemma insertByPriority_perm p : forall sorted,
  Permutation (p :: sorted) (insertByPriority p sorted).
Proof.
  induction sorted as [|q rest IH]; cbn [insertByPriority]; [reflexivity|].
  destruct (priority q <=? priority p); [|reflexivity].
  rewrite perm_swap. now apply perm_skip.
Qed.

Lemma insertByPriority_sorted p : forall sorted,
  StronglySorted byPriority sorted ->
  StronglySorted byPriority (insertByPriority p sorted).
Proof.
  induction 1 as [|q rest Hrest IH Hq]; cbn [insertByPriority].
  - repeat constructor.
  - destruct (Z.leb_spec (priority q) (priority p)) as [Hle|Hlt].
    + constructor; [exact IH|].
      apply (Permutation_Forall (insertByPriority_perm p rest)).
      constructor; assumption.
    + constructor; [now constructor|].
      constructor; [unfold byPriority; lia|].
      eapply List.Forall_impl; [|exact Hq]. unfold byPriority. intros a Ha. lia.
Qed.

Lemma insertEach_sorted : forall todo sorted,
  StronglySorted byPriority sorted ->
  StronglySorted byPriority (insertEach todo sorted)
  /\ Permutation (todo ++ sorted) (insertEach todo sorted).
Proof.
  induction todo as [|p todo IH]; intros sorted Hsorted; cbn [insertEach app].
  - split; [exact Hsorted | reflexivity].
  - destruct (IH (insertByPriority p sorted) (insertByPriority_sorted p sorted Hsorted))
      as [Hs Hp].
    split; [exact Hs|]. rewrite <- Hp.
    rewrite <- (insertByPriority_perm p sorted). apply Permutation_middle.
Qed.

(** X1. The providers are tried in ascending order of priority: the list
    the loop of [processRequest] goes through is sorted by priority and
    holds exactly the available providers of the table, and the ledger
    names a prefix of it. *)
Theorem attempts_in_priority_order providers env request :
  let ledger := HybridResponse.attempts (processRequestWith providers env request) in
  StronglySorted byPriority (sortedProviders providers)
  /\ Permutation (List.filter available providers) (sortedProviders providers)
  /\ List.map Attempt.provider ledger
     = List.firstn (List.length ledger) (List.map name (sortedProviders providers)).
Proof.
  cbn zeta.
  destruct (insertEach_sorted (List.filter available providers) [] (SSorted_nil _))
    as [Hsorted Hperm].
  rewrite app_nil_r in Hperm.
  split; [exact Hsorted|]. split; [exact Hperm|].
  rewrite response_attempts.
  destruct (loop_ledger env request (default DEFAULT_MIN_SCORE (minimumScore request))
              (default DEFAULT_MAX_RETRIES (maxRetries request))
              (sortedProviders providers) initialState)
    as (new & Hnew & Hprov & _).
  cbn [initialState attempts app] in Hnew. now rewrite Hnew.
Qed.

Lemma first_attempt env request minScore maxTries p rest :
  0 < maxTries ->
  loop env request minScore maxTries (p :: rest) initialState
  = let '(st', continue) := attempt env request minScore p initialState in
    if continue then loop env request minScore maxTries rest st' else st'.
Proof.
  intros Hpos. cbn [loop initialState attempts List.length].
  destruct (Z.geb_spec (Z.of_nat 0) maxTries); [lia | reflexivity].
Qed.

(** C2. Early exit: in the ledger of [processRequest] no entry before the
    last one met the caller's threshold (default 0.7), and the entries
    follow the priority-sorted table from its head, so the first attempt
    whose score meets the threshold ends the iteration and no later
    provider is attempted.  With the table P1 = openai (priority 1),
    P2 = claude (priority 2): when P1's result scores at or above the
    threshold the ledger is exactly the one entry of P1. *)
Theorem early_exit_on_threshold providers env request :
  let minScore := default DEFAULT_MIN_SCORE (minimumScore request) in
  let ledger := HybridResponse.attempts (processRequestWith providers env request) in
  List.Forall (fun a => clears minScore a = false) (List.removelast ledger)
  /\ List.map Attempt.provider ledger
     = List.firstn (List.length ledger) (List.map name (sortedProviders providers))
  /\ (forall result,
        0 < default DEFAULT_MAX_RETRIES (maxRetries request) ->
        callOpenAI env request = Returned result ->
        PrimFloat.leb minScore (Validation.score (validateResponse result request)) = true ->
        HybridResponse.attempts (processRequest env request)
        = [Attempt.mk "openai" true
             (Some (Validation.score (validateResponse result request))) None
             (dateNow env 2 - dateNow env 1)]).
Proof.
  intros minScore ledger. subst ledger. rewrite response_attempts.
  fold minScore.
  destruct (loop_ledger env request minScore
              (default DEFAULT_MAX_RETRIES (maxRetries request))
              (sortedProviders providers) initialState)
    as (new & Hnew & Hprov & _ & Hlast & _).
  cbn [initialState attempts app] in Hnew. rewrite Hnew.
  split; [exact Hlast|]. split; [exact Hprov|].
  intros result Hpos Hcall Hclr.
  unfold processRequest. rewrite response_attempts, sortedProviders_PROVIDERS.
  fold minScore. unfold PROVIDERS. rewrite first_attempt by exact Hpos.
  unfold attempt, invoke. cbn [name String.eqb Ascii.eqb Bool.eqb].
  rewrite Hcall, Hclr. cbn [negb initialState bestScore ticks attempts app].
  destruct (PrimFloat.ltb _ _); reflexivity.
Qed.

Lemma early_exit_on_threshold_witness :
  HybridResponse.attempts
    (processRequest (constEnv (Returned textResult) (Returned textResult)) sampleRequest)
  = [Attempt.mk "openai" true (Some 0.9%float) None 25].
Proof.
  apply (proj2 (proj2 (early_exit_on_threshold PROVIDERS
                         (constEnv (Returned textResult) (Returned textResult))
                         sampleRequest)) textResult).
  - vm_compute. reflexivity.
  - reflexivity.
  - vm_compute. reflexivity.
Defined.

(** C3. Retry budget: [processRequest] makes at most [maxRetries]
    (default 2) attempts, however many providers remain; it stops short of
    the budget only after a score that met the threshold or when the sorted
    table is exhausted.  With [maxRetries = 1] and P1 (openai) throwing, the
    ledger is exactly P1's failed attempt and the response is a failure,
    whatever P2 (claude) would have answered. *)
Theorem retry_budget providers env request :
  let maxTries := default DEFAULT_MAX_RETRIES (maxRetries request) in
  let minScore := default DEFAULT_MIN_SCORE (minimumScore request) in
  let ledger := HybridResponse.attempts (processRequestWith providers env request) in
  (List.length ledger <= Z.to_nat maxTries)%nat
  /\ (List.existsb (clears minScore) ledger = true
      \/ maxTries <= Z.of_nat (List.length ledger)
      \/ List.length ledger = List.length (sortedProviders providers))
  /\ (forall message,
        maxRetries request = Some 1 ->
        callOpenAI env request = Threw message ->
        HybridResponse.attempts (processRequest env request)
        = [Attempt.mk "openai" false None (Some message) (dateNow env 2 - dateNow env 1)]
        /\ HybridResponse.success (processRequest env request) = false
        /\ HybridResponse.final_score (processRequest env request) = 0%float).
Proof.
  intros maxTries minScore ledger. subst ledger. rewrite response_attempts.
  fold minScore maxTries.
  destruct (loop_ledger env request minScore maxTries
              (sortedProviders providers) initialState)
    as (new & Hnew & _ & _ & _ & Hbound & Hstop).
  cbn [initialState attempts app List.length] in Hnew, Hbound, Hstop.
  rewrite Hnew. split; [lia|]. split; [exact Hstop|].
  intros message Hmax Hcall.
  assert (Hloop : forall ms,
    loop env request ms 1 PROVIDERS initialState
    = mkLoop [Attempt.mk "openai" false None (Some message) (dateNow env 2 - dateNow env 1)]
             Js.JNull 0%float None 3).
  { intros ms. unfold PROVIDERS. rewrite first_attempt by lia.
    unfold attempt, invoke. cbn [name String.eqb Ascii.eqb Bool.eqb].
    rewrite Hcall. reflexivity. }
  unfold processRequest, processRequestWith.
  rewrite sortedProviders_PROVIDERS, Hmax.
  change (default DEFAULT_MAX_RETRIES (Some 1)) with 1.
  rewrite Hloop. cbn. auto.
Qed.

Lemma retry_budget_witness :
  let env := constEnv (Threw "timeout") (Returned textResult) in
  let request := mkRequest "p" None General None (Some 1) None in
  HybridResponse.attempts (processRequest env request)
  = [Attempt.mk "openai" false None (Some "timeout") 25]
  /\ HybridResponse.success (processRequest env request) = false
  /\ HybridResponse.final_score (processRequest env request) = 0%float.
Proof.
  intros env request.
  apply (proj2 (proj2 (retry_budget PROVIDERS env request)) "timeout");
    reflexivity.
Defined.

(** C10. The success flag of a ledger entry records whether the provider
    invocation returned, not how well it scored: every entry of the ledger
    has [success = true], the validator's score and no error when invoking
    its provider returns, and [success = false], no score and the thrown
    message when it throws.  A result that carries an error field is thus
    recorded as a successful attempt with score 0.1. *)
Theorem success_flag_records_invocation providers env request :
  List.Forall (recordsOutcome env request)
    (HybridResponse.attempts (processRequestWith providers env request))
  /\ (forall result,
        0 < default DEFAULT_MAX_RETRIES (maxRetries request) ->
        callOpenAI env request = Returned result ->
        Js.truthy (Js.prop result "error") = true ->
        exists later,
          HybridResponse.attempts (processRequest env request)
          = Attempt.mk "openai" true (Some 0.1%float) None
              (dateNow env 2 - dateNow env 1) :: later).
Proof.
  rewrite response_attempts.
  destruct (loop_ledger env request (default DEFAULT_MIN_SCORE (minimumScore request))
              (default DEFAULT_MAX_RETRIES (maxRetries request))
              (sortedProviders providers) initialState)
    as (new & Hnew & _ & Hrec & _).
  cbn [initialState attempts app] in Hnew. rewrite Hnew.
  split; [exact Hrec|].
  intros result Hpos Hcall Herr.
  unfold processRequest. rewrite response_attempts, sortedProviders_PROVIDERS.
  unfold PROVIDERS. rewrite first_attempt by exact Hpos.
  unfold attempt, invoke. cbn [name String.eqb Ascii.eqb Bool.eqb].
  rewrite Hcall.
  assert (Hscore : Validation.score (validateResponse result request) = 0.1%float).
  { unfold validateResponse, hasError. rewrite Herr. reflexivity. }
  rewrite Hscore. cbn [initialState bestScore attempts app ticks].
  match goal with
  | |- context [loop ?e ?r ?m ?t ?ps ?st] =>
      destruct (loop_ledger e r m t ps st) as (later & Hlater & _)
  end.
  destruct (negb _).
  - destruct (PrimFloat.ltb _ _); cbn [attempts] in Hlater;
      rewrite Hlater; cbn [app]; eauto.
  - destruct (PrimFloat.ltb _ _); cbn [attempts]; eauto.
Qed.

Lemma success_flag_records_invocation_witness :
  exists later,
    HybridResponse.attempts
      (processRequest (constEnv (Returned errorResult) (Threw "overloaded")) sampleRequest)
    = Attempt.mk "openai" true (Some 0.1%float) None 25 :: later.
Proof.
  apply (proj2 (success_flag_records_invocation PROVIDERS
                  (constEnv (Returned errorResult) (Threw "overloaded"))
                  sampleRequest) errorResult).
  - vm_compute. reflexivity.
  - reflexivity.
  - reflexivity.
Defined.

(** *** The default validator *)

Lemma strictEqStr_true v s : Js.strictEqStr v s = true <-> v = Js.JStr s.
Proof.
  destruct v; cbn; try (split; [discriminate | intros H; discriminate H]).
  rewrite String.eqb_eq. split; [now intros -> | now intros [= ->]].
Qed.

Lemma hasError_spec result : hasError result = true <-> carriesError result.
Proof.
  unfold hasError, carriesError.
  rewrite orb_true_iff, strictEqStr_true. reflexivity.
Qed.

Lemma hasContent_spec result : hasContent result = true <-> countsAsContent result.
Proof.
  unfold hasContent, countsAsContent, contentFieldFilled.
  rewrite andb_true_iff, !orb_true_iff, Nat.ltb_lt. tauto.
Qed.

(** C5, as the validator computes it.  The score is 0.1 for a result that
    carries an error, whatever content it has; otherwise 0.9 for a truthy
    result with a filled content field or any own key (also one whose
    values are all empty); otherwise 0.3. *)
Theorem validateResponse_score result request :
  let score := Validation.score (validateResponse result request) in
  (carriesError result -> score = 0.1%float)
  /\ (~ carriesError result -> countsAsContent result -> score = 0.9%float)
  /\ (~ carriesError result -> ~ countsAsContent result -> score = 0.3%float).
Proof.
  cbn. rewrite <- hasError_spec, <- hasContent_spec.
  destruct (hasError result), (hasContent result); intuition congruence.
Qed.

Lemma validateResponse_score_witness :
  Validation.score (validateResponse errorResult sampleRequest) = 0.1%float.
Proof.
  apply (proj1 (validateResponse_score errorResult sampleRequest)).
  left. reflexivity.
Defined.

(** C5 as the specification words it fails twice.  A result with a
    non-empty content field that also carries an error scores 0.1, not 0.9;
    a result with no filled content field and no error, but with a key,
    scores 0.9, not 0.3. *)
Lemma validateResponse_score_counterexample :
  (contentFieldFilled contentWithError
   /\ Validation.score (validateResponse contentWithError sampleRequest) <> 0.9%float)
  /\ (~ contentFieldFilled emptyTextResult
      /\ ~ carriesError emptyTextResult
      /\ Validation.score (validateResponse emptyTextResult sampleRequest) <> 0.3%float).
Proof.
  split; [split | split; [|split]].
  - left. reflexivity.
  - intros H.
    pose proof (f_equal (fun x => PrimFloat.eqb x 0.9%float) H) as E.
    vm_compute in E. discriminate E.
  - intros [H|[H|H]]; discriminate H.
  - intros [H|H]; discriminate H.
  - intros H.
    pose proof (f_equal (fun x => PrimFloat.eqb x 0.3%float) H) as E.
    vm_compute in E. discriminate E.
Qed.

(** *** The outcome of [processRequest] *)

Lemma validateResponse_validScore result request :
  validScore (Validation.score (validateResponse result request)).
Proof.
  unfold validScore. cbn.
  destruct (hasError result); [|destruct (hasContent result)]; auto.
Qed.

Ltac by_cases_on_scores :=
  unfold validScore in *;
  repeat match goal with
         | H : _ \/ _ |- _ => destruct H
         end;
  subst; vm_compute in *; try discriminate; auto.

Lemma score_beats_zero s : validScore s -> PrimFloat.ltb 0%float s = true.
Proof. intros. by_cases_on_scores. Qed.

Lemma score_raised s' best s :
  validScore s' -> validScore best -> validScore s ->
  PrimFloat.leb s' best = true -> PrimFloat.ltb best s = true ->
  PrimFloat.leb s' s = true /\ PrimFloat.eqb s' s = false.
Proof. intros. by_cases_on_scores. Qed.

Lemma score_not_raised best s :
  validScore best -> validScore s ->
  PrimFloat.ltb best s = false -> PrimFloat.leb s best = true.
Proof. intros. by_cases_on_scores. Qed.

Lemma score_refl s : validScore s -> PrimFloat.leb s s = true /\ PrimFloat.eqb s s = true.
Proof. intros. by_cases_on_scores. Qed.

Lemma attempt_tracksBest env request minScore p st :
  tracksBest env request st ->
  tracksBest env request (fst (attempt env request minScore p st)).
Proof.
  intros Hst. unfold attempt.
  destruct (invoke env (name p) request) as [result|message] eqn:Hinv; cbn [fst].
  - pose proof (validateResponse_validScore result request) as Hvalid.
    set (s := Validation.score (validateResponse result request)) in *.
    destruct (PrimFloat.ltb (bestScore st) s) eqn:Hlt.
    + (* a new best *)
      right. cbn [bestScore bestResult bestValidation attempts].
      destruct (score_refl s Hvalid) as [Hle Heq].
      assert (Hearlier : bounded s (attempts st)
                         /\ List.Forall (fun b => scoreIs s b = false) (attempts st)).
      { destruct Hst as [(_ & _ & _ & Hnone) | (Hbest & Hbound & _)].
        - split; (eapply List.Forall_impl; [|exact Hnone]); intros a Ha;
            unfold scoreIs; now rewrite Ha.
        - split; (eapply List.Forall_impl; [|exact Hbound]); intros a;
            unfold scoreIs; destruct (Attempt.score a) as [s'|]; auto;
            intros [Hs' Hle'];
            destruct (score_raised s' (bestScore st) s Hs' Hbest Hvalid Hle' Hlt); auto. }
      destruct Hearlier as [Hbound Hbefore].
      repeat split; auto.
      * apply List.Forall_app. split; [exact Hbound|].
        constructor; [cbn; auto | constructor].
      * exists (attempts st), (Attempt.mk (name p) true (Some s) None
                                 (dateNow env (S (ticks st)) - dateNow env (ticks st))), [].
        repeat split; auto.
    + (* the best stays *)
      destruct Hst as [(Hzero & _) | (Hbest & Hbound & Hval & before & a & after & Hsplit & Hbefore & Ha & Hres)].
      { rewrite Hzero, (score_beats_zero s Hvalid) in Hlt. discriminate. }
      right. cbn [bestScore bestResult bestValidation attempts].
      repeat split; auto.
      * apply List.Forall_app. split; [exact Hbound|].
        constructor; [cbn; split; [exact Hvalid | now apply score_not_raised] | constructor].
      * exists before, a, (after ++ [Attempt.mk (name p) true (Some s) None
                                       (dateNow env (S (ticks st)) - dateNow env (ticks st))]).
        rewrite Hsplit, <- app_assoc. repeat split; auto.
  - destruct Hst as [(Hzero & Hnull & Hval & Hnone) | (Hbest & Hbound & Hval & before & a & after & Hsplit & Hbefore & Ha & Hres)].
    + left. cbn [bestScore bestResult bestValidation attempts]. repeat split; auto.
      apply List.Forall_app. split; [exact Hnone|]. constructor; [reflexivity | constructor].
    + right. cbn [bestScore bestResult bestValidation attempts]. repeat split; auto.
      * apply List.Forall_app. split; [exact Hbound|]. constructor; [exact I | constructor].
      * exists before, a, (after ++ [Attempt.mk (name p) false None (Some message)
                                       (dateNow env (S (ticks st)) - dateNow env (ticks st))]).
        rewrite Hsplit, <- app_assoc. repeat split; auto.
Qed.

Lemma loop_tracksBest env request minScore maxTries providers : forall st,
  tracksBest env request st ->
  tracksBest env request (loop env request minScore maxTries providers st).
Proof.
  induction providers as [|p rest IH]; intros st Hst; cbn [loop]; [exact Hst|].
  destruct (Z.of_nat (List.length (attempts st)) >=? maxTries); [exact Hst|].
  pose proof (attempt_tracksBest env request minScore p st Hst) as Hst'.
  destruct (attempt env request minScore p st) as [st' continue]. cbn [fst] in Hst'.
  destruct continue; [now apply IH | exact Hst'].
Qed.

Lemma find_first_with_score best before a after :
  List.Forall (fun b => scoreIs best b = false) before ->
  scoreIs best a = true ->
  List.find (scoreIs best) (before ++ a :: after) = Some a.
Proof.
  intros Hbefore Ha. induction Hbefore as [|b before Hb _ IH]; cbn.
  - now rewrite Ha.
  - now rewrite Hb.
Qed.

(** X2. What a success response carries: the raw result of the first attempt
    with the highest score, that score, and the provider of that attempt;
    a failure response carries [null], the score 0 and the provider
    [none].  The response is the success response exactly when that best
    result is truthy. *)
Theorem response_carries_best providers env request :
  let response := processRequestWith providers env request in
  if HybridResponse.success response then
    Js.truthy (HybridResponse.data response) = true
    /\ bounded (HybridResponse.final_score response) (HybridResponse.attempts response)
    /\ exists before a after,
         HybridResponse.attempts response = before ++ a :: after
         /\ List.Forall (fun b => scoreIs (HybridResponse.final_score response) b = false) before
         /\ Attempt.success a = true
         /\ Attempt.score a = Some (HybridResponse.final_score response)
         /\ invoke env (Attempt.provider a) request = Returned (HybridResponse.data response)
         /\ HybridResponse.provider response = Attempt.provider a
  else
    HybridResponse.data response = Js.JNull
    /\ HybridResponse.final_score response = 0%float
    /\ HybridResponse.provider response = "none".
Proof.
  unfold processRequestWith.
  set (minScore := default DEFAULT_MIN_SCORE (minimumScore request)).
  set (maxTries := default DEFAULT_MAX_RETRIES (maxRetries request)).
  assert (Hinit : tracksBest env request initialState).
  { left. repeat split. constructor. }
  pose proof (loop_tracksBest env request minScore maxTries (sortedProviders providers)
                initialState Hinit) as Hfinal.
  destruct (loop_ledger env request minScore maxTries (sortedProviders providers) initialState)
    as (new & Hnew & _ & Hrec & _).
  cbn [initialState attempts app] in Hnew.
  set (final := loop env request minScore maxTries (sortedProviders providers) initialState) in *.
  destruct (Js.truthy (bestResult final)) eqn:Htruthy; cbn zeta;
    cbn [HybridResponse.success HybridResponse.data HybridResponse.final_score
         HybridResponse.attempts HybridResponse.provider]; [|auto].
  destruct Hfinal as [(_ & Hnull & _) | (Hbest & Hbound & _ & before & a & after & Hsplit & Hbefore & Ha & Hres)].
  { rewrite Hnull in Htruthy. discriminate. }
  split; [exact Htruthy|]. split; [exact Hbound|].
  exists before, a, after.
  assert (Hscore : scoreIs (bestScore final) a = true).
  { unfold scoreIs. rewrite Ha. apply score_refl, Hbest. }
  assert (Ha_rec : recordsOutcome env request a).
  { rewrite Hnew in Hsplit. rewrite Hsplit in Hrec.
    apply List.Forall_app in Hrec as [_ Hrec]. now inversion Hrec. }
  unfold recordsOutcome in Ha_rec. rewrite Hres in Ha_rec. destruct Ha_rec as (Hok & _).
  repeat split; auto.
  unfold bestProvider. rewrite Hsplit, (find_first_with_score _ _ _ _ Hbefore Hscore).
  destruct (String.eqb (Attempt.provider a) "") eqn:Hname; [|reflexivity].
  apply String.eqb_eq in Hname. rewrite Hname in Hres. discriminate Hres.
Qed.


End HybridAIFacts.

Module HybridAIRunFacts.
Import HybridAI HybridAIProps HybridAIFacts.

(** X7. With the two provider calls as this file ships them, both stubs
    that throw, [processRequest] fails for every request and every clock:
    the response has [success = false], no data and provider 'none', and
    its ledger is the failed attempt of openai followed by the failed
    attempt of claude, each with the stub's message and no score, cut to
    the retry budget. *)
Theorem shipped_stubs_always_fail clock request :
  let response := processRequest (clientEnv clock) request in
  HybridResponse.success response = false
  /\ HybridResponse.data response = Js.JNull
  /\ HybridResponse.provider response = "none"
  /\ List.map outcomeOf (HybridResponse.attempts response)
     = List.firstn (Z.to_nat (maxTriesOf request))
         [ ("openai", false, None, Some stubMessage);
           ("claude", false, None, Some stubMessage) ].
Proof.
  cbn zeta. unfold processRequest, processRequestWith, maxTriesOf.
  rewrite sortedProviders_PROVIDERS.
  generalize (default DEFAULT_MAX_RETRIES (maxRetries request)). intros m.
  unfold PROVIDERS. cbn [loop initialState attempts List.length].
  destruct (Z.geb_spec (Z.of_nat 0) m) as [H0|H0].
  { replace (Z.to_nat m) with 0%nat by lia. cbn. auto. }
  cbn [attempt invoke name String.eqb Ascii.eqb Bool.eqb clientEnv callOpenAI callClaude
       callOpenAI_stub callClaude_stub attempts ticks bestResult bestScore bestValidation
       app List.length].
  match goal with
  | |- context [Z.geb ?n m] => destruct (Z.geb_spec n m) as [H1|H1]
  end; cbn in H1.
  { replace (Z.to_nat m) with 1%nat by lia. cbn. auto. }
  destruct (Z.to_nat m) as [|[|k]] eqn:Hm; try lia. destruct k; cbn; auto.
Qed.

(** *** The clock *)

Lemma sumTimes_app ledger a :
  sumTimes (ledger ++ [a]) = sumTimes ledger + Attempt.processing_time_ms a.
Proof.
  unfold sumTimes. induction ledger as [|b ledger IH]; cbn; [lia|].
  cbn in IH. rewrite IH. lia.
Qed.

Lemma attempt_clock env request minScore p st :
  exists a,
    attempts (fst (attempt env request minScore p st)) = attempts st ++ [a]
    /\ Attempt.processing_time_ms a = dateNow env (S (ticks st)) - dateNow env (ticks st)
    /\ ticks (fst (attempt env request minScore p st)) = S (S (ticks st)).
Proof.
  unfold attempt. destruct (invoke env (name p) request) as [result|message].
  - eexists. cbn [fst]. destruct (PrimFloat.ltb _ _); cbn; auto.
  - eexists. cbn. auto.
Qed.

Lemma loop_clock env request minScore maxTries providers : forall st,
  monotone (dateNow env) ->
  ticks st = S (2 * List.length (attempts st)) ->
  Forall (fun a => 0 <= Attempt.processing_time_ms a) (attempts st) ->
  sumTimes (attempts st) <= dateNow env (ticks st) - dateNow env 0 ->
  let final := loop env request minScore maxTries providers st in
  ticks final = S (2 * List.length (attempts final))
  /\ Forall (fun a => 0 <= Attempt.processing_time_ms a) (attempts final)
  /\ sumTimes (attempts final) <= dateNow env (ticks final) - dateNow env 0.
Proof.
  intros st Hmono. revert st.
  induction providers as [|p rest IH]; intros st Hticks Hpos Hsum; cbn [loop]; [auto|].
  destruct (Z.of_nat (List.length (attempts st)) >=? maxTries); [auto|].
  destruct (attempt_clock env request minScore p st) as (a & Hatt & Htime & Ht).
  destruct (attempt env request minScore p st) as [st' continue]. cbn [fst] in *.
  assert (Hinv : ticks st' = S (2 * List.length (attempts st'))
                 /\ Forall (fun a => 0 <= Attempt.processing_time_ms a) (attempts st')
                 /\ sumTimes (attempts st') <= dateNow env (ticks st') - dateNow env 0).
  { rewrite Hatt, Ht, length_app, sumTimes_app, Htime. cbn [List.length].
    pose proof (Hmono (ticks st)). pose proof (Hmono (S (ticks st))).
    repeat split; [lia | | lia].
    apply Forall_app. split; [exact Hpos|]. constructor; [lia | constructor]. }
  destruct continue; [|exact Hinv].
  destruct Hinv as (H1 & H2 & H3). now apply IH.
Qed.

(** X8. The clock of [processRequest].  Every attempt reads [Date.now()]
    twice and the function twice more, so with [n] ledger entries the total
    time is the difference between read [2n+1] and read [0].  When the
    clock never goes back, no attempt has a negative time and the times of
    the attempts add up to at most the total time of the response. *)
Theorem attempt_times_within_total providers env request :
  monotone (dateNow env) ->
  let response := processRequestWith providers env request in
  let ledger := HybridResponse.attempts response in
  HybridResponse.total_processing_time_ms response
  = dateNow env (S (2 * List.length ledger)) - dateNow env 0
  /\ Forall (fun a => 0 <= Attempt.processing_time_ms a) ledger
  /\ sumTimes ledger <= HybridResponse.total_processing_time_ms response.
Proof.
  intros Hmono. cbn zeta.
  destruct (loop_clock env request (default DEFAULT_MIN_SCORE (minimumScore request))
              (default DEFAULT_MAX_RETRIES (maxRetries request))
              (sortedProviders providers) initialState Hmono)
    as (Ht & Hpos & Hsum).
  - reflexivity.
  - constructor.
  - cbn. pose proof (Hmono 0%nat). lia.
  - unfold processRequestWith.
    destruct (Js.truthy _); cbn [HybridResponse.attempts HybridResponse.total_processing_time_ms];
      rewrite <- Ht; auto.
Qed.

Lemma attempt_times_within_total_witness :
  let response :=
    processRequestWith PROVIDERS (constEnv (Threw "timeout") (Returned textResult))
      sampleRequest in
  HybridResponse.total_processing_time_ms response
  = sampleClock (S (2 * List.length (HybridResponse.attempts response))) - sampleClock 0
  /\ Forall (fun a => 0 <= Attempt.processing_time_ms a) (HybridResponse.attempts response)
  /\ sumTimes (HybridResponse.attempts response)
     <= HybridResponse.total_processing_time_ms response.
Proof.
  apply (attempt_times_within_total PROVIDERS
           (constEnv (Threw "timeout") (Returned textResult)) sampleRequest).
  intros k. cbn. unfold sampleClock. lia.
Defined.

(** *** The health check *)

Lemma existsb_filter (providers : list AIProvider) :
  List.existsb available providers = false -> List.filter available providers = [].
Proof.
  induction providers as [|p providers IH]; cbn; [reflexivity|].
  destruct (available p); cbn; [discriminate | exact IH].
Qed.

Lemma filter_existsb (providers : list AIProvider) :
  List.existsb available providers = true -> List.filter available providers <> [].
Proof.
  induction providers as [|p providers IH]; cbn; [discriminate|].
  destruct (available p); cbn; [discriminate | exact IH].
Qed.

(** X9. The health check and the dispatcher agree.  When [doHealthCheck]
    throws (no provider of the table is available), [processRequest]
    invokes nobody and returns the failure response with an empty ledger;
    when it passes, the ledger is empty only if the retry budget is below
    one. *)
Theorem health_check_guards_dispatch providers env request :
  let response := processRequestWith providers env request in
  match doHealthCheckWith providers with
  | Some message =>
      message = "No AI providers available"
      /\ HybridResponse.attempts response = []
      /\ HybridResponse.success response = false
      /\ HybridResponse.provider response = "none"
  | None =>
      HybridResponse.attempts response = [] <-> maxTriesOf request <= 0
  end.
Proof.
  cbn zeta. unfold doHealthCheckWith, maxTriesOf.
  destruct (List.existsb available providers) eqn:Hsome; cbn [negb].
  - rewrite response_attempts.
    destruct (insertEach_sorted (List.filter available providers) [] (SSorted_nil _))
      as [_ Hperm].
    rewrite app_nil_r in Hperm. fold (sortByPriority (List.filter available providers)) in Hperm.
    fold (sortedProviders providers) in Hperm.
    destruct (sortedProviders providers) as [|p rest] eqn:Hsorted.
    { apply Permutation_nil_r in Hperm. now apply filter_existsb in Hsome. }
    cbn [loop initialState attempts List.length].
    destruct (Z.geb_spec (Z.of_nat 0) (default DEFAULT_MAX_RETRIES (maxRetries request)))
      as [Hle|Hlt].
    + split; [lia | reflexivity].
    + destruct (attempt_ledger env request
                  (default DEFAULT_MIN_SCORE (minimumScore request)) p
                  (mkLoop [] Js.JNull 0%float None 1)) as (a & Hatt & _).
      destruct (attempt _ _ _ p _) as [st' continue]. cbn [fst attempts app] in Hatt.
      assert (Hne : forall st, attempts st <> [] ->
                attempts (loop env request
                            (default DEFAULT_MIN_SCORE (minimumScore request))
                            (default DEFAULT_MAX_RETRIES (maxRetries request)) rest st) <> []).
      { intros st Hst.
        destruct (loop_ledger env request
                    (default DEFAULT_MIN_SCORE (minimumScore request))
                    (default DEFAULT_MAX_RETRIES (maxRetries request)) rest st)
          as (new & -> & _).
        destruct (attempts st); [congruence | discriminate]. }
      split; [|lia]. intros Hnil. exfalso.
      destruct continue.
      * apply (Hne st'); [rewrite Hatt; discriminate | exact Hnil].
      * rewrite Hatt in Hnil. discriminate.
  - unfold processRequestWith, sortedProviders.
    rewrite (existsb_filter _ Hsome). cbn. auto.
Qed.

End HybridAIRunFacts.

Module WorkflowFacts.
Import Workflow WorkflowProps.

Lemma hasStatus_true st step : hasStatus st step = true <-> WorkflowStep.status step = st.
Proof.
  unfold hasStatus. destruct (WorkflowStep.status step), st; cbn;
    split; intros H; try reflexivity; try discriminate H.
Qed.

Lemma hasStatus_false st step : hasStatus st step = false <-> WorkflowStep.status step <> st.
Proof.
  rewrite <- hasStatus_true. destruct (hasStatus st step); split; congruence.
Qed.

Lemma existsb_none st st' steps :
  st <> st' ->
  Forall (fun step => WorkflowStep.status step = st') steps ->
  existsb (hasStatus st) steps = false.
Proof.
  intros Hne. induction 1 as [|step rest Hstep _ IH]; [reflexivity|].
  cbn. rewrite IH, orb_false_r. apply hasStatus_false. congruence.
Qed.

Lemma forallb_all st steps :
  Forall (fun step => WorkflowStep.status step = st) steps ->
  forallb (hasStatus st) steps = true.
Proof.
  induction 1 as [|step rest Hstep _ IH]; [reflexivity|].
  cbn. rewrite IH, andb_true_r. now apply hasStatus_true.
Qed.

Lemma findIndex_app stepId done step todo :
  Forall (fun s => WorkflowStep.id s <> stepId) done ->
  WorkflowStep.id step = stepId ->
  findIndex stepId (done ++ step :: todo) = Some (List.length done).
Proof.
  intros Hdone Hid. induction Hdone as [|s done Hs _ IH]; cbn.
  - apply String.eqb_eq in Hid. now rewrite Hid.
  - apply String.eqb_neq in Hs. now rewrite Hs, IH.
Qed.

Lemma alter_middle (f : WorkflowStep.t -> WorkflowStep.t) done step todo :
  alter f (List.length done) (done ++ step :: todo) = done ++ f step :: todo.
Proof. induction done as [|s done IH]; cbn; [reflexivity | now rewrite IH]. Qed.

(** *** One transition *)

Lemma updateJobStep_at clock jobId stepId updates svc job done step todo :
  jobs svc !! jobId = Some job ->
  WorkflowJob.steps job = done ++ step :: todo ->
  Forall (fun s => WorkflowStep.id s <> stepId) done ->
  WorkflowStep.id step = stepId ->
  exists job',
    jobs (updateJobStep clock jobId stepId updates svc) = <[jobId := job']> (jobs svc)
    /\ notified (updateJobStep clock jobId stepId updates svc) = notified svc ++ [job']
    /\ WorkflowJob.steps job' = done ++ merge updates step :: todo
    /\ WorkflowJob.status job'
       = nextStatus updates (done ++ merge updates step :: todo) (WorkflowJob.status job).
Proof.
  intros Hjob Hsteps Hdone Hid. unfold updateJobStep, nextStatus.
  rewrite Hjob, Hsteps, (findIndex_app _ _ _ _ Hdone Hid), alter_middle.
  destruct (StepUpdate.status updates) as [[| | |]|];
    repeat match goal with
           | |- context [if ?b then _ else _] => destruct b
           end;
    eexists; cbn; repeat split; reflexivity.
Qed.

Section Shape.
Variables (done todo : list WorkflowStep.t).
Hypothesis Hdone : Forall (fun s => WorkflowStep.status s = completed) done.
Hypothesis Htodo : Forall (fun s => WorkflowStep.status s = pending) todo.

Lemma shape_failed mid :
  existsb (hasStatus failed) (done ++ mid :: todo) = hasStatus failed mid.
Proof.
  rewrite existsb_app. cbn.
  rewrite (existsb_none failed completed done), (existsb_none failed pending todo);
    [apply orb_false_r | discriminate | assumption | discriminate | assumption].
Qed.

Lemma shape_running mid :
  existsb (hasStatus running) (done ++ mid :: todo) = hasStatus running mid.
Proof.
  rewrite existsb_app. cbn.
  rewrite (existsb_none running completed done), (existsb_none running pending todo);
    [apply orb_false_r | discriminate | assumption | discriminate | assumption].
Qed.

Lemma shape_completed mid :
  forallb (hasStatus completed) (done ++ mid :: todo)
  = hasStatus completed mid && match todo with [] => true | _ => false end.
Proof.
  rewrite forallb_app. cbn. rewrite (forallb_all completed done) by assumption.
  destruct Htodo as [|t rest Ht _]; cbn; [reflexivity|].
  replace (hasStatus completed t) with false; [reflexivity|].
  symmetry. apply hasStatus_false. congruence.
Qed.
End Shape.

(** *** One step of the workflow *)

Lemma executeStep_shape clock jobId outcome svc job done step todo :
  jobs svc !! jobId = Some job ->
  WorkflowJob.steps job = done ++ step :: todo ->
  Forall (fun s => WorkflowStep.status s = completed) done ->
  Forall (fun s => WorkflowStep.status s = pending) todo ->
  Forall (fun s => WorkflowStep.id s <> WorkflowStep.id step) done ->
  exists job1 job2 step2,
    notified (fst (executeStep clock jobId (WorkflowStep.id step) outcome svc))
    = notified svc ++ [job1; job2]
    /\ jobs (fst (executeStep clock jobId (WorkflowStep.id step) outcome svc)) !! jobId
       = Some job2
    /\ consistent job1 /\ consistent job2
    /\ WorkflowJob.steps job2 = done ++ step2 :: todo
    /\ WorkflowStep.id step2 = WorkflowStep.id step
    /\ match outcome with
       | Resolved _ _ _ =>
           WorkflowStep.status step2 = completed
           /\ snd (executeStep clock jobId (WorkflowStep.id step) outcome svc) = None
       | Rejected message =>
           WorkflowStep.status step2 = failed
           /\ snd (executeStep clock jobId (WorkflowStep.id step) outcome svc) = Some message
       end.
Proof.
  intros Hjob Hsteps Hdone Htodo Hids.
  cbv beta zeta delta [executeStep].
  set (svcA := mkService (jobs svc) (notified svc) (S (ticks svc))).
  set (u1 := StepUpdate.mk (Some running) _ _ _ _ _ _ _).
  destruct (updateJobStep_at clock jobId (WorkflowStep.id step) u1 svcA job done step todo)
    as (job1 & Hj1 & Hn1 & Hs1 & Hst1); auto.
  set (svc1 := updateJobStep clock jobId (WorkflowStep.id step) u1 svcA) in *.
  assert (Hc1 : consistent job1).
  { unfold consistent, startedStatus, specStatus. rewrite Hst1, Hs1. unfold nextStatus.
    rewrite shape_failed, shape_completed, shape_running by assumption. reflexivity. }
  assert (Hr1 : WorkflowJob.status job1 = running).
  { rewrite Hst1. unfold nextStatus.
    rewrite shape_completed, shape_running by assumption. reflexivity. }
  set (svc2 := mkService (jobs svc1) (notified svc1) (S (ticks svc1))).
  assert (Hjob1 : jobs svc2 !! jobId = Some job1).
  { cbn [svc2 jobs]. rewrite Hj1. apply lookup_insert_eq. }
  destruct outcome as [details metadata logs | message]; cbn [fst snd];
    match goal with
    | |- context [updateJobStep clock jobId _ ?u svc2] =>
        destruct (updateJobStep_at clock jobId (WorkflowStep.id step) u svc2 job1
                    done (merge u1 step) todo)
          as (job2 & Hj2 & Hn2 & Hs2 & Hst2); auto;
        exists job1, job2, (merge u (merge u1 step))
    end;
    rewrite Hj2, Hn2, lookup_insert_eq; cbn [svc2 notified]; rewrite Hn1;
    cbn [svcA notified]; rewrite <- app_assoc;
    (repeat split; [assumption | | assumption]);
    unfold consistent, startedStatus, specStatus; rewrite Hst2, Hs2, Hr1;
    unfold nextStatus;
    rewrite shape_failed, shape_completed, shape_running by assumption;
    cbn; destruct todo; reflexivity.
Qed.

(** *** A run of the steps *)

Lemma last_cons_default {A} (x : A) l d d' : List.last (x :: l) d = List.last (x :: l) d'.
Proof.
  revert x. induction l as [|y l IH]; intros x; [reflexivity|].
  change (List.last (y :: l) d = List.last (y :: l) d'). apply IH.
Qed.

Lemma runSteps_shape clock jobId executors : forall todo done svc job,
  jobs svc !! jobId = Some job ->
  WorkflowJob.steps job = done ++ todo ->
  Forall (fun s => WorkflowStep.status s = completed) done ->
  Forall (fun s => WorkflowStep.status s = pending) todo ->
  List.NoDup (List.map WorkflowStep.id (done ++ todo)) ->
  exists snapshots final,
    notified (fst (runSteps clock jobId executors (List.map WorkflowStep.id todo) svc))
    = notified svc ++ snapshots
    /\ Forall consistent snapshots
    /\ List.last snapshots job = final
    /\ jobs (fst (runSteps clock jobId executors (List.map WorkflowStep.id todo) svc)) !! jobId
       = Some final
    /\ existsb (hasStatus running) (WorkflowJob.steps final) = false.
Proof.
  induction todo as [|step todo IH]; intros done svc job Hjob Hsteps Hdone Htodo Hnodup.
  - exists [], job. cbn. rewrite app_nil_r. repeat split; auto.
    rewrite Hsteps, app_nil_r. apply (existsb_none running completed); [discriminate | assumption].
  - cbn [List.map runSteps].
    assert (Hids : Forall (fun s => WorkflowStep.id s <> WorkflowStep.id step) done).
    { rewrite List.map_app in Hnodup. cbn [List.map] in Hnodup.
      apply List.NoDup_remove_2 in Hnodup.
      apply List.Forall_forall. intros s Hs Heq. apply Hnodup.
      apply List.in_or_app. left. rewrite <- Heq. now apply List.in_map. }
    inversion Htodo as [|? ? Hstep Htodo']; subst.
    destruct (executeStep_shape clock jobId (executors (WorkflowStep.id step))
                svc job done step todo Hjob Hsteps Hdone Htodo' Hids)
      as (job1 & job2 & step2 & Hn & Hj & Hc1 & Hc2 & Hs2 & Hid2 & Hout).
    destruct (executeStep clock jobId (WorkflowStep.id step)
                (executors (WorkflowStep.id step)) svc) as [svc' thrown].
    cbn [fst snd] in Hn, Hj, Hout.
    destruct (executors (WorkflowStep.id step)) as [details metadata logs | message];
      destruct Hout as [Hst2 ->].
    + destruct (IH (done ++ [step2]) svc' job2) as (snaps & final & Hn' & Hall & Hlast & Hj' & Hrun).
      * exact Hj.
      * rewrite Hs2, <- app_assoc. reflexivity.
      * apply Forall_app. split; [assumption | constructor; [assumption | constructor]].
      * assumption.
      * rewrite <- app_assoc. cbn [app].
        rewrite List.map_app in Hnodup |- *. cbn [List.map] in Hnodup |- *.
        rewrite Hid2. exact Hnodup.
      * exists (job1 :: job2 :: snaps), final.
        rewrite Hn', Hn, <- app_assoc. cbn [app].
        repeat split; auto.
        destruct snaps as [|t snaps]; [exact Hlast|].
        change (List.last (t :: snaps) job = final).
        rewrite <- Hlast. apply last_cons_default.
    + exists [job1; job2], job2. cbn [fst]. repeat split; auto.
      rewrite Hs2, shape_running by assumption. apply hasStatus_false. congruence.
Qed.

Lemma find_none_of_existsb (f : WorkflowStep.t -> bool) steps :
  existsb f steps = false -> List.find f steps = None.
Proof.
  induction steps as [|s steps IH]; cbn; [reflexivity|].
  destruct (f s); cbn; [discriminate | exact IH].
Qed.

Lemma initialSteps_ids : List.map WorkflowStep.id initialSteps = stepOrder.
Proof. reflexivity. Qed.

Lemma stepOrder_NoDup : List.NoDup stepOrder.
Proof. apply NoDup_ListNoDup, (bool_decide_unpack _). vm_compute. reflexivity. Qed.



(** The three step lists of the specification, under [startedStatus]. *)
Example status_of_completed_completed_failed :
  startedStatus [stepWith completed; stepWith completed; stepWith failed] = failed.
Proof. reflexivity. Qed.

Example status_of_all_completed :
  startedStatus [stepWith completed; stepWith completed; stepWith completed] = completed.
Proof. reflexivity. Qed.

Example status_of_completed_running_pending :
  startedStatus [stepWith completed; stepWith running; stepWith pending] = running.
Proof. reflexivity. Qed.

(** After [retryJob] the job is [pending], as all its steps are. *)
Lemma retryJob_pending jobId svc job :
  jobs svc !! jobId = Some job ->
  exists job',
    jobs (retryJob jobId svc) !! jobId = Some job'
    /\ WorkflowJob.status job' = pending
    /\ Forall (fun s => WorkflowStep.status s = pending) (WorkflowJob.steps job').
Proof.
  intros Hjob. unfold retryJob. rewrite Hjob. eexists. cbn.
  rewrite lookup_insert_eq. repeat split.
  apply Forall_forall. intros s Hs. apply in_map_iff in Hs as (s0 & <- & _). reflexivity.
Qed.

End WorkflowFacts.

Module WorkflowRunFacts.
Import Workflow WorkflowProps WorkflowRunProps WorkflowFacts.

Lemma updateJobStep_job clock jobId stepId updates svc job done step todo :
  jobs svc !! jobId = Some job ->
  WorkflowJob.steps job = done ++ step :: todo ->
  Forall (fun s => WorkflowStep.id s <> stepId) done ->
  WorkflowStep.id step = stepId ->
  exists job',
    jobs (updateJobStep clock jobId stepId updates svc) = <[jobId := job']> (jobs svc)
    /\ notified (updateJobStep clock jobId stepId updates svc) = notified svc ++ [job']
    /\ WorkflowJob.steps job' = done ++ merge updates step :: todo
    /\ WorkflowJob.status job'
       = nextStatus updates (done ++ merge updates step :: todo) (WorkflowJob.status job)
    /\ WorkflowJob.endTime job'
       = (if ends updates (done ++ merge updates step :: todo)
          then Some (clock (ticks svc)) else WorkflowJob.endTime job)
    /\ header job' = header job.
Proof.
  intros Hjob Hsteps Hdone Hid. unfold updateJobStep, nextStatus, ends, header.
  rewrite Hjob, Hsteps, (findIndex_app _ _ _ _ Hdone Hid), alter_middle.
  destruct (StepUpdate.status updates) as [[| | |]|];
    repeat match goal with
           | |- context [if ?b then _ else _] => destruct b
           end;
    eexists; cbn; repeat split; reflexivity.
Qed.

(** *** One step, in full *)

Lemma executeStep_exact clock jobId outcome svc job done step todo :
  jobs svc !! jobId = Some job ->
  WorkflowJob.steps job = done ++ step :: todo ->
  Forall (fun s => WorkflowStep.status s = completed) done ->
  Forall (fun s => WorkflowStep.status s = pending) todo ->
  Forall (fun s => WorkflowStep.id s <> WorkflowStep.id step) done ->
  exists job2 step2,
    jobs (fst (executeStep clock jobId (WorkflowStep.id step) outcome svc))
    = <[jobId := job2]> (jobs svc)
    /\ List.length (notified (fst (executeStep clock jobId (WorkflowStep.id step) outcome svc)))
       = S (S (List.length (notified svc)))
    /\ WorkflowJob.steps job2 = done ++ step2 :: todo
    /\ resetStep step2 = resetStep step
    /\ header job2 = header job
    /\ match outcome with
       | Resolved _ _ _ =>
           WorkflowStep.status step2 = completed
           /\ snd (executeStep clock jobId (WorkflowStep.id step) outcome svc) = None
           /\ WorkflowJob.status job2 = match todo with [] => completed | _ => running end
           /\ (todo = [] -> is_Some (WorkflowJob.endTime job2))
       | Rejected message =>
           WorkflowStep.status step2 = failed
           /\ WorkflowStep.error step2 = Some message
           /\ snd (executeStep clock jobId (WorkflowStep.id step) outcome svc) = Some message
           /\ WorkflowJob.status job2 = failed
           /\ is_Some (WorkflowJob.endTime job2)
       end.
Proof.
  intros Hjob Hsteps Hdone Htodo Hids.
  cbv beta zeta delta [executeStep].
  set (svcA := mkService (jobs svc) (notified svc) (S (ticks svc))).
  set (u1 := StepUpdate.mk (Some running) _ _ _ _ _ _ _).
  destruct (updateJobStep_job clock jobId (WorkflowStep.id step) u1 svcA job done step todo)
    as (job1 & Hj1 & Hn1 & Hs1 & Hst1 & _ & Hh1); auto.
  set (svc1 := updateJobStep clock jobId (WorkflowStep.id step) u1 svcA) in *.
  assert (Hr1 : WorkflowJob.status job1 = running).
  { rewrite Hst1. unfold nextStatus.
    rewrite shape_completed, shape_running by assumption. reflexivity. }
  set (svc2 := mkService (jobs svc1) (notified svc1) (S (ticks svc1))).
  assert (Hjob1 : jobs svc2 !! jobId = Some job1).
  { cbn [svc2 jobs]. rewrite Hj1. apply lookup_insert_eq. }
  destruct outcome as [details metadata logs | message]; cbn [fst snd];
    match goal with
    | |- context [updateJobStep clock jobId _ ?u svc2] =>
        destruct (updateJobStep_job clock jobId (WorkflowStep.id step) u svc2 job1
                    done (merge u1 step) todo)
          as (job2 & Hj2 & Hn2 & Hs2 & Hst2 & He2 & Hh2); auto;
        exists job2, (merge u (merge u1 step))
    end;
    rewrite Hj2, Hn2; cbn [svc2 jobs notified]; rewrite Hj1, Hn1;
    cbn [svcA jobs notified]; rewrite insert_insert_eq, !length_app;
    (split; [reflexivity|]); (split; [cbn [List.length]; lia|]);
    (split; [exact Hs2|]); (split; [reflexivity|]);
    (split; [now rewrite Hh2, Hh1|]);
    rewrite Hst2, He2, Hr1; unfold nextStatus, ends;
    rewrite ?shape_completed, ?shape_running by assumption; cbn.
  - repeat split; [destruct todo; reflexivity|]. intros ->. cbn. eauto.
  - repeat split. eauto.
Qed.

(** *** The whole run *)

Lemma pending_statuses (todo : list WorkflowStep.t) :
  Forall (fun s => WorkflowStep.status s = pending) todo ->
  List.map WorkflowStep.status todo
  = List.repeat pending (List.length (List.map WorkflowStep.id todo)).
Proof.
  induction 1 as [|s todo Hs _ IH]; cbn; [reflexivity|]. now rewrite Hs, IH.
Qed.

Lemma pending_carry executors (todo : list WorkflowStep.t) :
  Forall (fun s => WorkflowStep.status s = pending) todo ->
  Forall (carriesRejection executors) todo.
Proof.
  apply List.Forall_impl. intros s Hs. unfold carriesRejection. congruence.
Qed.

Lemma runSteps_final clock jobId executors : forall todo done svc job,
  jobs svc !! jobId = Some job ->
  WorkflowJob.steps job = done ++ todo ->
  Forall (fun s => WorkflowStep.status s = completed) done ->
  Forall (fun s => WorkflowStep.status s = pending) todo ->
  List.NoDup (List.map WorkflowStep.id (done ++ todo)) ->
  exists final finalTodo,
    jobs (fst (runSteps clock jobId executors (List.map WorkflowStep.id todo) svc))
    = <[jobId := final]> (jobs svc)
    /\ (todo = [] -> final = job)
    /\ header final = header job
    /\ WorkflowJob.steps final = done ++ finalTodo
    /\ List.map resetStep finalTodo = List.map resetStep todo
    /\ List.map WorkflowStep.status finalTodo
       = statusesAfter executors (List.map WorkflowStep.id todo)
    /\ Forall (carriesRejection executors) finalTodo
    /\ List.length
         (notified (fst (runSteps clock jobId executors (List.map WorkflowStep.id todo) svc)))
       = (List.length (notified svc)
          + 2 * stepsRun executors (List.map WorkflowStep.id todo))%nat
    /\ snd (runSteps clock jobId executors (List.map WorkflowStep.id todo) svc)
       = firstRejection executors (List.map WorkflowStep.id todo)
    /\ (todo <> [] ->
        WorkflowJob.status final
        = (if forallb (fun stepId => resolves (executors stepId))
                (List.map WorkflowStep.id todo)
           then completed else failed)
        /\ is_Some (WorkflowJob.endTime final)).
Proof.
  induction todo as [|step todo IH]; intros done svc job Hjob Hsteps Hdone Htodo Hnodup.
  - exists job, []. cbn. rewrite insert_id by exact Hjob.
    repeat split; auto; try lia. all: congruence.
  - cbn [List.map runSteps statusesAfter stepsRun firstRejection forallb].
    assert (Hids : Forall (fun s => WorkflowStep.id s <> WorkflowStep.id step) done).
    { rewrite List.map_app in Hnodup. cbn [List.map] in Hnodup.
      apply List.NoDup_remove_2 in Hnodup.
      apply List.Forall_forall. intros s Hs Heq. apply Hnodup.
      apply List.in_or_app. left. rewrite <- Heq. now apply List.in_map. }
    inversion Htodo as [|? ? Hstep Htodo']; subst.
    destruct (executeStep_exact clock jobId (executors (WorkflowStep.id step))
                svc job done step todo Hjob Hsteps Hdone Htodo' Hids)
      as (job2 & step2 & Hj & Hn & Hs2 & Hreset & Hhead & Hout).
    assert (Hid2 : WorkflowStep.id step2 = WorkflowStep.id step)
      by exact (f_equal WorkflowStep.id Hreset).
    destruct (executeStep clock jobId (WorkflowStep.id step)
                (executors (WorkflowStep.id step)) svc) as [svc' thrown].
    cbn [fst snd] in Hn, Hj, Hout.
    destruct (executors (WorkflowStep.id step)) as [details metadata logs | message] eqn:Hexec;
      cbn [resolves].
    + destruct Hout as (Hst2 & -> & Hjst & Hend).
      destruct (IH (done ++ [step2]) svc' job2)
        as (final & finalTodo & Hj' & Hsame & Hhead' & Hsteps' & Hreset' & Hstat & Hcarry
            & Hn' & Hthrown & Hfinal).
      * rewrite Hj. apply lookup_insert_eq.
      * rewrite Hs2, <- app_assoc. reflexivity.
      * apply Forall_app. split; [assumption | constructor; [assumption | constructor]].
      * assumption.
      * rewrite <- app_assoc. cbn [app].
        rewrite List.map_app in Hnodup |- *. cbn [List.map] in Hnodup |- *.
        rewrite Hid2. exact Hnodup.
      * exists final, (step2 :: finalTodo).
        rewrite Hj', Hj, insert_insert_eq, Hn', Hn, Hsteps', <- app_assoc.
        cbn [app List.map]. rewrite Hreset, Hreset', Hst2, Hstat.
        repeat split; auto; try lia; try discriminate.
        -- now rewrite Hhead'.
        -- constructor; [|exact Hcarry]. unfold carriesRejection. congruence.
        -- destruct todo as [|next todo].
           ++ rewrite (Hsame eq_refl), Hjst. reflexivity.
           ++ apply Hfinal. discriminate.
        -- destruct todo as [|next todo].
           ++ rewrite (Hsame eq_refl). now apply Hend.
           ++ apply Hfinal. discriminate.
    + destruct Hout as (Hst2 & Herr & -> & Hjst & Hend).
      exists job2, (step2 :: todo). cbn [fst snd List.map].
      rewrite Hj, Hn, Hreset, Hst2, (pending_statuses todo Htodo').
      repeat split; auto; try lia; try discriminate.
      constructor; [|now apply pending_carry].
      intros _. exists message. now rewrite Hid2.
Qed.

Lemma executeWorkflow_runs clock jobId fileName executors svc :
  executeWorkflow clock jobId executors (startPDFProcessing clock jobId fileName svc)
  = fst (runSteps clock jobId executors stepOrder
           (startPDFProcessing clock jobId fileName svc)).
Proof.
  set (started := startPDFProcessing clock jobId fileName svc).
  set (job0 := WorkflowJob.mk jobId "PDF Processing Pipeline" fileName running
                 (clock (ticks svc)) None initialSteps).
  assert (Hlook : jobs started !! jobId = Some job0) by apply lookup_insert_eq.
  destruct (runSteps_shape clock jobId executors initialSteps [] started job0)
    as (snaps & final & Hn & Hall & Hlast & Hj & Hrun).
  - exact Hlook.
  - reflexivity.
  - constructor.
  - repeat constructor.
  - cbn [app]. rewrite initialSteps_ids. exact stepOrder_NoDup.
  - rewrite initialSteps_ids in Hj.
    unfold executeWorkflow. rewrite Hlook.
    destruct (runSteps clock jobId executors stepOrder started) as [svc' thrown].
    cbn [fst] in *. destruct thrown as [message|]; [|reflexivity].
    rewrite Hj, (find_none_of_existsb _ _ Hrun). reflexivity.
Qed.

Lemma workflow_final clock jobId fileName executors svc :
  exists final,
    jobs (executeWorkflow clock jobId executors (startPDFProcessing clock jobId fileName svc))
    = <[jobId := final]> (jobs svc)
    /\ WorkflowJob.filename final = fileName
    /\ List.map resetStep (WorkflowJob.steps final) = List.map resetStep initialSteps
    /\ List.map WorkflowStep.status (WorkflowJob.steps final)
       = statusesAfter executors stepOrder
    /\ Forall (carriesRejection executors) (WorkflowJob.steps final)
    /\ List.length
         (notified (executeWorkflow clock jobId executors
                      (startPDFProcessing clock jobId fileName svc)))
       = (List.length (notified svc) + 1 + 2 * stepsRun executors stepOrder)%nat
    /\ WorkflowJob.status final
       = (if forallb (fun stepId => resolves (executors stepId)) stepOrder
          then completed else failed)
    /\ is_Some (WorkflowJob.endTime final).
Proof.
  rewrite executeWorkflow_runs.
  set (started := startPDFProcessing clock jobId fileName svc).
  set (job0 := WorkflowJob.mk jobId "PDF Processing Pipeline" fileName running
                 (clock (ticks svc)) None initialSteps).
  destruct (runSteps_final clock jobId executors initialSteps [] started job0)
    as (final & finalTodo & Hj & _ & Hhead & Hsteps & Hreset & Hstat & Hcarry & Hn & _
        & Hfinal).
  - apply lookup_insert_eq.
  - reflexivity.
  - constructor.
  - repeat constructor.
  - cbn [app]. rewrite initialSteps_ids. exact stepOrder_NoDup.
  - rewrite initialSteps_ids in *. cbn [app] in Hsteps.
    exists final. rewrite Hj, Hn, Hsteps.
    destruct Hfinal as [Hst Hend]; [discriminate|].
    repeat split; auto.
    + cbn [started startPDFProcessing notifyUpdate jobs]. apply insert_insert_eq.
    + unfold header in Hhead. now inversion Hhead.
    + cbn [started startPDFProcessing notifyUpdate notified]. rewrite length_app.
      cbn [List.length]. lia.
Qed.

(** X4. A run of the workflow stops at the first step whose executor
    rejects.  After [startPDFProcessing] and [executeWorkflow] the job has
    its fourteen steps in the order they were created; the steps before the
    first rejection are [completed], that step is [failed] and carries the
    executor's message, and the steps behind it are still [pending].  The
    job is [completed] when every executor resolved and [failed] otherwise,
    and has an end time either way.  The subscribers were notified once at
    the start and twice per step that was started, and no other job of the
    service changed. *)
Theorem workflow_stops_at_first_failure clock jobId fileName executors svc :
  let finished :=
    executeWorkflow clock jobId executors (startPDFProcessing clock jobId fileName svc) in
  exists final,
    jobs finished !! jobId = Some final
    /\ (forall other, other <> jobId -> jobs finished !! other = jobs svc !! other)
    /\ List.map WorkflowStep.id (WorkflowJob.steps final) = stepOrder
    /\ List.map WorkflowStep.status (WorkflowJob.steps final)
       = statusesAfter executors stepOrder
    /\ Forall (carriesRejection executors) (WorkflowJob.steps final)
    /\ WorkflowJob.status final
       = (if forallb (fun stepId => resolves (executors stepId)) stepOrder
          then completed else failed)
    /\ is_Some (WorkflowJob.endTime final)
    /\ List.length (notified finished)
       = (List.length (notified svc) + 1 + 2 * stepsRun executors stepOrder)%nat.
Proof.
  cbn zeta.
  destruct (workflow_final clock jobId fileName executors svc)
    as (final & Hj & _ & Hreset & Hstat & Hcarry & Hn & Hst & Hend).
  exists final. rewrite Hj, Hn. repeat split; auto.
  - apply lookup_insert_eq.
  - intros other Hother. now apply lookup_insert_ne.
  - rewrite <- initialSteps_ids.
    apply (f_equal (List.map WorkflowStep.id)) in Hreset.
    rewrite !List.map_map in Hreset. exact Hreset.
Qed.

(** X5. [retryJob] undoes a run.  Whatever the executors did, retrying the
    job that [startPDFProcessing] created and [executeWorkflow] drove leaves
    it with exactly the steps it was created with, status [pending] and no
    end time, notifies the subscribers once with that job, and starts no
    step: the workflow is not run again. *)
Theorem retryJob_restores_created_steps clock jobId fileName executors svc :
  let finished :=
    executeWorkflow clock jobId executors (startPDFProcessing clock jobId fileName svc) in
  exists job',
    jobs (retryJob jobId finished) !! jobId = Some job'
    /\ notified (retryJob jobId finished) = notified finished ++ [job']
    /\ WorkflowJob.steps job' = initialSteps
    /\ WorkflowJob.status job' = pending
    /\ WorkflowJob.endTime job' = None
    /\ WorkflowJob.filename job' = fileName.
Proof.
  cbn zeta.
  destruct (workflow_final clock jobId fileName executors svc)
    as (final & Hj & Hname & Hreset & _).
  unfold retryJob. rewrite Hj, lookup_insert_eq. eexists.
  cbn [notifyUpdate jobs notified]. rewrite lookup_insert_eq.
  split; [reflexivity|]. split; [reflexivity|].
  cbn [WorkflowJob.steps WorkflowJob.status WorkflowJob.endTime WorkflowJob.filename].
  rewrite Hreset. repeat split. exact Hname.
Qed.

(** *** What [updateJobStep] leaves alone *)

Lemma findIndex_Some stepId : forall (steps : list WorkflowStep.t) i,
  findIndex stepId steps = Some i ->
  exists step,
    steps !! i = Some step
    /\ WorkflowStep.id step = stepId
    /\ forall j earlier, (j < i)%nat -> steps !! j = Some earlier ->
                         WorkflowStep.id earlier <> stepId.
Proof.
  induction steps as [|s steps IH]; intros i; cbn [findIndex]; [discriminate|].
  destruct (String.eqb_spec (WorkflowStep.id s) stepId) as [Heq|Hne].
  - intros [= <-]. exists s. repeat split; auto. intros j earlier Hj. lia.
  - destruct (findIndex stepId steps) as [k|]; [|discriminate].
    intros [= <-]. destruct (IH k eq_refl) as (step & Hlook & Hid & Hfirst).
    exists step. repeat split; auto.
    intros [|j] earlier Hj; cbn.
    + now intros [= <-].
    + apply Hfirst. lia.
Qed.

Lemma alter_is_insert (f : WorkflowStep.t -> WorkflowStep.t) :
  forall (steps : list WorkflowStep.t) (i : nat) step,
  steps !! i = Some step -> alter f i steps = <[i := f step]> steps.
Proof.
  induction steps as [|s steps IH]; intros [|i] step; cbn; try discriminate.
  - now intros [= ->].
  - intros H. now rewrite (IH i step H).
Qed.

(** X6. [updateJobStep] touches one step of one job.  For an unknown job, or
    a step identifier the job does not have, the service is left as it was
    and nobody is notified.  Otherwise the first step with that identifier
    is replaced by its merge with the update, every other step and the
    number and order of the steps stay, the job keeps its identifier, name,
    file name and start time, the subscribers are notified once with the
    updated job, and no other job of the service changes. *)
Theorem updateJobStep_touches_one_step clock jobId stepId updates svc :
  let svc' := updateJobStep clock jobId stepId updates svc in
  (forall other, other <> jobId -> jobs svc' !! other = jobs svc !! other)
  /\ match addressed jobId stepId svc with
     | None => svc' = svc
     | Some (job, i) =>
         exists step job',
           WorkflowJob.steps job !! i = Some step
           /\ WorkflowStep.id step = stepId
           /\ (forall j earlier, (j < i)%nat -> WorkflowJob.steps job !! j = Some earlier ->
                                 WorkflowStep.id earlier <> stepId)
           /\ jobs svc' !! jobId = Some job'
           /\ notified svc' = notified svc ++ [job']
           /\ WorkflowJob.steps job' = <[i := merge updates step]> (WorkflowJob.steps job)
           /\ header job' = header job
     end.
Proof.
  cbn zeta. unfold updateJobStep, addressed.
  destruct (jobs svc !! jobId) as [job|] eqn:Hjob; [|now split].
  destruct (findIndex stepId (WorkflowJob.steps job)) as [i|] eqn:Hix; [|now split].
  destruct (findIndex_Some stepId _ i Hix) as (step & Hlook & Hid & Hfirst).
  rewrite (alter_is_insert _ _ i step Hlook).
  destruct (StepUpdate.status updates) as [[| | |]|];
    repeat match goal with
           | |- context [if ?b then _ else _] => destruct b
           end;
    (split; [intros other Hother; cbn; now apply lookup_insert_ne|]);
    exists step; eexists; cbn; rewrite lookup_insert_eq;
    repeat split; auto.
Qed.

End WorkflowRunFacts.

Module PdfProcessorFacts.
Import PdfProcessor PdfProcessorProps.

(** *** Worked examples *)

Example extract_sample :
  extractTextFromHTML
    (lit "<html><head><STYLE type='x'>p { color: red }</style><script>var a = '<b>';</script></head><body><p class='a'>Fish &amp;   chips</p>
 <p>1 &lt; 2</p></body></html>")
  = lit "Fish & chips 1 < 2".
Proof. vm_compute. reflexivity. Qed.

Example download_sample :
  downloadAndStoreImage (answering (pngOfSize 2048)) sampleUrl sampleUser 0 emptyWorld
  = (Ok (Some (mkImage sampleUrl
                 (lit "https://storage.example.com/material-images/user-42/pdf-images/pdf-image-1-1700000000000.png")
                 (lit "pdf-image-1-1700000000000.png") 2048)),
     mkWorld [Downloading 1 sampleUrl; Stored 1]
       [mkStored "material-images" (lit "user-42/pdf-images/pdf-image-1-1700000000000.png")
          (lit "image/png") 2048]
       1).
Proof. vm_compute. reflexivity. Qed.

(** *** One image *)

Ltac run_monad :=
  cbv beta iota zeta delta
    [tryCatch bind ret throw write put now awaitFetch awaitBlob awaitUpload];
  cbn [console storage ticks fst snd].

Ltac split_outcomes :=
  repeat match goal with
         | |- context [match ?x with _ => _ end] =>
             lazymatch x with
             | context [match _ with _ => _ end] => fail
             | _ => destruct x eqn:?
             end; run_monad
         end.


(** C8. The fetch of an HTTP image rejects it exactly when the response
    is not ok (status outside 200..299), the content type does not start
    with [image/], or the payload is larger than 5 MB: in those cases, and
    in no other, the function returns [null] with one of the three
    rejection warnings and stores nothing.  An image that passes the three
    checks is relocated whenever its upload succeeds. *)
Theorem fetch_rejects_exactly env imageUrl user index w code mime blobSize :
  fetch env imageUrl = Fetched (mkResponse code mime (Blob blobSize)) ->
  let run := downloadAndStoreImage env imageUrl user index w in
  ((~ (200 <= code <= 299) \/ isImageType mime = false \/ 5 * 1024 * 1024 < blobSize)
   <-> (exists line,
          isRejectionLine line = true
          /\ fst run = Ok None
          /\ console (snd run) = console w ++ [Downloading (index + 1) imageUrl; line]
          /\ storage (snd run) = storage w))
  /\ (200 <= code <= 299 -> isImageType mime = true -> blobSize <= 5 * 1024 * 1024 ->
      (forall path, upload env "material-images" path = Uploaded) ->
      exists image,
        fst run = Ok (Some image)
        /\ originalUrl image = imageUrl
        /\ size image = blobSize
        /\ List.length (storage (snd run)) = S (List.length (storage w))).
Proof.
  intros Hfetch run. subst run.
  unfold downloadAndStoreImage. run_monad. rewrite Hfetch. run_monad.
  unfold ok. cbn [status contentType body]. unfold MAX_IMAGE_SIZE.
  destruct (Z.leb_spec 200 code); cbn [andb negb];
    [destruct (Z.leb_spec code 299); cbn [andb negb];
     [destruct (isImageType mime) eqn:Htype; cbn [negb]; run_monad;
      [destruct (Z.gtb_spec blobSize (5 * 1024 * 1024)); run_monad | ] | ] | ].
  - (* too large *)
    split.
    + split; [intros _ | intros _; right; right; lia].
      exists (TooLarge (index + 1) blobSize).
      repeat split. cbn [snd console]. now rewrite <- app_assoc.
    + intros; lia.
  - (* accepted *)
    split.
    + split; [intros [H'|[H'|H']]; [lia | discriminate | lia] |].
      intros (line & Hline & Hres & Hcon & _). exfalso.
      destruct (upload env "material-images" _); run_monad; cbn [fst snd console] in *;
        try discriminate Hres;
        rewrite <- app_assoc in Hcon; apply app_inv_head in Hcon;
        injection Hcon as <-; discriminate Hline.
    + intros _ _ _ Hup. rewrite Hup. run_monad. cbn [fst snd storage].
      eexists. repeat split. rewrite length_app. cbn. lia.
  - (* not an image *)
    split.
    + split; [intros _ | intros _; right; left; reflexivity].
      exists (InvalidContentType (index + 1) mime).
      repeat split. cbn [snd console]. now rewrite <- app_assoc.
    + intros; discriminate.
  - (* status above 299 *)
    split.
    + split; [intros _ | intros _; left; lia].
      exists (DownloadFailed (index + 1) code).
      repeat split. cbn [snd console]. now rewrite <- app_assoc.
    + intros; lia.
  - (* status below 200 *)
    split.
    + split; [intros _ | intros _; left; lia].
      exists (DownloadFailed (index + 1) code).
      repeat split. cbn [snd console]. now rewrite <- app_assoc.
    + intros; lia.
Qed.

(** At the boundary: a payload of 5 MB + 1 byte is rejected as too large,
    a payload of exactly 5 MB is relocated. *)
Lemma fetch_rejects_exactly_witness :
  (exists line,
     isRejectionLine line = true
     /\ fst (downloadAndStoreImage (answering (pngOfSize 5242881)) sampleUrl sampleUser 0
               emptyWorld) = Ok None
     /\ console (snd (downloadAndStoreImage (answering (pngOfSize 5242881)) sampleUrl
                        sampleUser 0 emptyWorld))
        = console emptyWorld ++ [Downloading (0 + 1) sampleUrl; line]
     /\ storage (snd (downloadAndStoreImage (answering (pngOfSize 5242881)) sampleUrl
                        sampleUser 0 emptyWorld))
        = storage emptyWorld)
  /\ (exists image,
        fst (downloadAndStoreImage (answering (pngOfSize 5242880)) sampleUrl sampleUser 0
               emptyWorld) = Ok (Some image)
        /\ originalUrl image = sampleUrl
        /\ size image = 5242880
        /\ List.length
             (storage (snd (downloadAndStoreImage (answering (pngOfSize 5242880)) sampleUrl
                              sampleUser 0 emptyWorld)))
           = S (List.length (storage emptyWorld))).
Proof.
  split.
  - apply (proj1 (fetch_rejects_exactly (answering (pngOfSize 5242881)) sampleUrl
                    sampleUser 0 emptyWorld 200 (Some (lit "image/png")) 5242881
                    eq_refl)).
    right; right. lia.
  - apply (proj2 (fetch_rejects_exactly (answering (pngOfSize 5242880)) sampleUrl
                    sampleUser 0 emptyWorld 200 (Some (lit "image/png")) 5242880
                    eq_refl)).
    + lia.
    + reflexivity.
    + lia.
    + reflexivity.
Defined.


(** *** The two loops *)

Lemma failures_app a b : failures (a ++ b) = (failures a + failures b)%nat.
Proof. unfold failures. now rewrite List.filter_app, length_app. Qed.





(** *** The knowledge entry *)

Lemma in_firstn {A} (x : A) n : forall l, List.In x (List.firstn n l) -> List.In x l.
Proof.
  induction n as [|n IH]; intros [|y l]; cbn; try tauto.
  intros [H|H]; [now left | right; now apply IH].
Qed.

Lemma firstn_filter_length {A} (f : A -> bool) n l :
  (List.length (List.firstn n (List.filter f l)) <= n)%nat
  /\ List.Forall (fun x => f x = true) (List.firstn n (List.filter f l)).
Proof.
  split; [apply List.firstn_le_length|].
  apply List.Forall_forall. intros x Hx.
  apply in_firstn, List.filter_In in Hx. tauto.
Qed.

(** C6, as the entry is built.  The confidence scores are the constants
    0.9 (conversion), 0.85 (text extraction) and 0.87 (overall); the image
    score is 0.8 when at least one HTTP image was relocated and 0.0 when
    none was, whatever happened to the base64 images.  The keywords are the
    first 15 of the words of the extracted text (split at single spaces)
    that are longer than 3 code units. *)
Theorem knowledgeEntry_scores_and_keywords p :
  let scores := confidence_scores (knowledgeEntry p) in
  let keywords := search_keywords (knowledgeEntry p) in
  conversion scores = 0.9%float
  /\ text_extraction scores = 0.85%float
  /\ overall scores = 0.87%float
  /\ (processedImages p <> [] -> image_processing scores = 0.8%float)
  /\ (processedImages p = [] -> image_processing scores = 0.0%float)
  /\ keywords = List.firstn 15 (List.filter longWord (split SPACE (extractedText p)))
  /\ (List.length keywords <= 15)%nat
  /\ List.Forall (fun word => (3 < List.length word)%nat) keywords.
Proof.
  cbn. repeat split.
  - destruct (processedImages p); [congruence | reflexivity].
  - intros ->. reflexivity.
  - apply firstn_filter_length.
  - eapply List.Forall_impl; [|apply (firstn_filter_length longWord)].
    intros word H. now apply Nat.ltb_lt.
Qed.

Lemma knowledgeEntry_scores_and_keywords_witness :
  image_processing
    (confidence_scores
       (knowledgeEntry
          (sampleProcessed [mkImage sampleUrl (lit "https://storage.example.com/a.png")
                              (lit "a.png") 10] [])))
  = 0.8%float.
Proof.
  apply (proj1 (proj2 (proj2 (proj2 (knowledgeEntry_scores_and_keywords _))))).
  discriminate.
Defined.

(** C6 as the specification words it fails for a document whose only
    image is an inline base64 image: the image is relocated, and the image
    score of the entry built from that run is 0.0, not 0.8. *)
Lemma knowledgeEntry_scores_counterexample :
  exists relocated converted w',
    processImages (answering (pngOfSize 10)) sampleUser [] [sampleBase64] emptyWorld
    = (Ok (relocated, converted), w')
    /\ List.length converted = 1%nat
    /\ image_processing
         (confidence_scores (knowledgeEntry (sampleProcessed relocated converted)))
       <> 0.8%float.
Proof.
  do 3 eexists. split; [vm_compute; reflexivity|]. split; [reflexivity|].
  intros H.
  pose proof (f_equal (fun x => PrimFloat.eqb x 0.8%float) H) as E.
  vm_compute in E. discriminate E.
Qed.


(** *** Text extraction *)

Lemma everySuffix_nil (P : jsstring -> Prop) : P [] -> everySuffix P [].
Proof.
  intros H a b E. symmetry in E. apply List.app_eq_nil in E as [_ ->]. exact H.
Qed.

Lemma everySuffix_cons (P : jsstring -> Prop) c u :
  P (c :: u) -> everySuffix P u -> everySuffix P (c :: u).
Proof.
  intros Hhead Htail [|x a] b E; cbn in E.
  - now subst b.
  - injection E as _ E. exact (Htail a b E).
Qed.

Lemma everySuffix_inv (P : jsstring -> Prop) c u :
  everySuffix P (c :: u) -> P (c :: u) /\ everySuffix P u.
Proof.
  intros H. split.
  - exact (H [] (c :: u) eq_refl).
  - intros a b E. apply (H (c :: a) b). cbn. now rewrite E.
Qed.


(** **** No tag is left after [stripTags] *)






(** **** White space is collapsed *)










(** **** Decoded entities do not come back *)





Lemma afterPrefix_app : forall pattern b v rest,
  afterPrefix pattern b = Some rest -> afterPrefix pattern (b ++ v) = Some (rest ++ v).
Proof.
  induction pattern as [|q pattern IH]; intros b v rest H.
  - cbn in H. destruct b; injection H as <-; reflexivity.
  - destruct b as [|c b]; [discriminate|]. cbn [app afterPrefix] in H |- *.
    destruct (N.eqb q c); [now apply IH | discriminate].
Qed.



(** **** Script and style blocks are removed *)



Lemma fold_not_LT x : N.eqb x LT = false -> N.eqb 60 (fold x) = false.
Proof.
  intros H. apply N.eqb_neq in H. apply N.eqb_neq. unfold fold, LT in *.
  destruct ((65 <=? x) && (x <=? 90))%N eqn:E; [|congruence].
  apply andb_true_iff in E as [E1 E2]. apply N.leb_le in E1, E2. lia.
Qed.

Lemma replaceFrom_skip matchAt replacement : forall block rest,
  replaceFrom matchAt replacement (List.length block) (block ++ rest)
  = replaceFrom matchAt replacement 0 rest.
Proof.
  induction block as [|x block IH]; intros rest; [reflexivity|].
  cbn [app List.length replaceFrom]. apply IH.
Qed.


Section Blocks.
Variable tag : string.
Let opening := lit ("<" ++ tag).
Let closing := lit ("</" ++ tag ++ ">").
(** The tag is written in lower case, as [script] and [style] are. *)
Hypothesis opening_matches : forall rest, afterPrefixCI opening (opening ++ rest) = Some rest.
Hypothesis closing_matches : forall rest, afterPrefixCI closing (closing ++ rest) = Some rest.




End Blocks.



(** **** The extracted text *)






End PdfProcessorFacts.

Module DiscoveryFacts.
Import PdfProcessor PdfProcessorProps PdfProcessorFacts.

(** *** What the scan returns *)

Lemma execFrom_all {A} (matchAt : jsstring -> option (A * nat)) (P : A -> Prop) :
  (forall t a n, matchAt t = Some (a, n) -> P a) ->
  forall s skip, List.Forall P (execFrom matchAt skip s).
Proof.
  intros Hmatch. induction s as [|c rest IH]; intros skip; cbn [execFrom]; [constructor|].
  destruct skip as [|skip]; [|apply IH].
  destruct (matchAt (c :: rest)) as [[a [|n]]|] eqn:Hm; try apply IH.
  constructor; [exact (Hmatch _ _ _ Hm) | apply IH].
Qed.

Lemma afterAttrs_all {A} (following : jsstring -> option (A * nat)) (P : A -> Prop) :
  (forall t a n, following t = Some (a, n) -> P a) ->
  forall s a n, afterAttrs following s = Some (a, n) -> P a.
Proof.
  intros Hf. induction s as [|c rest IH]; intros a n; cbn [afterAttrs]; [discriminate|].
  destruct (N.eqb c GT); [discriminate|].
  destruct (afterAttrs following rest) as [[a' n']|] eqn:Hrest.
  - intros [= <- _]. exact (IH _ _ eq_refl).
  - destruct (following rest) as [[a' n']|] eqn:Hhere; [|discriminate].
    intros [= <- _]. exact (Hf _ _ _ Hhere).
Qed.

Lemma span_firstn (inClass : N -> bool) : forall s,
  List.Forall (fun c => inClass c = true) (List.firstn (span inClass s) s).
Proof.
  induction s as [|c rest IH]; cbn [span]; [constructor|].
  destruct (inClass c) eqn:Hc; cbn [List.firstn]; constructor; assumption.
Qed.

Lemma firstn_not_nil {A} n (l : list A) x rest :
  List.skipn (S n) l = x :: rest -> List.firstn (S n) l <> [].
Proof. destruct l; [rewrite List.skipn_nil; discriminate | discriminate]. Qed.

Lemma quoteFree_span value :
  quoteFree (List.firstn (span (fun c => negb (isQuote c)) value) value).
Proof.
  eapply List.Forall_impl; [|apply span_firstn]. cbn. intros c Hc.
  now apply negb_true_iff in Hc.
Qed.

Lemma srcAttribute_capture t url n :
  srcAttribute t = Some (url, n) -> url <> [] /\ quoteFree url.
Proof.
  unfold srcAttribute.
  destruct (afterPrefixCI (lit "src=") t) as [[|q value]|]; try discriminate.
  destruct (isQuote q); [|discriminate]. cbv zeta.
  destruct (span (fun c => negb (isQuote c)) value) as [|k] eqn:Hspan; [discriminate|].
  destruct (List.skipn (S k) value) as [|x tail] eqn:Hskip; [discriminate|].
  destruct (indexOf GT tail); [|discriminate].
  intros [= <- _]. split.
  - exact (firstn_not_nil _ _ _ _ Hskip).
  - rewrite <- Hspan. apply quoteFree_span.
Qed.

Lemma imgTag_capture t url n : imgTag t = Some (url, n) -> url <> [] /\ quoteFree url.
Proof.
  unfold imgTag. destruct (afterPrefixCI (lit "<img") t) as [rest|]; [|discriminate].
  destruct (afterAttrs srcAttribute rest) as [[url' n']|] eqn:H; [|discriminate].
  intros [= <- _].
  exact (afterAttrs_all srcAttribute _ srcAttribute_capture _ _ _ H).
Qed.

(** Every match of a pattern that starts with [<] uses up one [<]. *)
Lemma execFrom_bound {A} (matchAt : jsstring -> option (A * nat)) :
  (forall c rest, N.eqb LT c = false -> matchAt (c :: rest) = None) ->
  forall s skip, (List.length (execFrom matchAt skip s) <= countLT s)%nat.
Proof.
  intros Hlt. unfold countLT.
  induction s as [|c rest IH]; intros skip; cbn [execFrom List.filter]; [cbn; lia|].
  destruct skip as [|skip].
  - destruct (N.eqb LT c) eqn:Hc.
    + destruct (matchAt (c :: rest)) as [[a [|n]]|]; cbn [List.length];
        pose proof (IH 0%nat); try pose proof (IH n); lia.
    + rewrite (Hlt c rest Hc). apply IH.
  - specialize (IH skip). destruct (N.eqb LT c); cbn [List.length]; lia.
Qed.

Lemma img_needs_LT {A} (following : jsstring -> option (A * nat)) c rest :
  N.eqb LT c = false ->
  match afterPrefixCI (lit "<img") (c :: rest) with
  | Some rest' => following rest'
  | None => None
  end = None.
Proof.
  intros Hc. change (lit "<img") with (60%N :: lit "img"). cbn [afterPrefixCI].
  rewrite N.eqb_sym in Hc. now rewrite (fold_not_LT c Hc).
Qed.

(** X10. What [extractImageUrls] returns.  Every URL it finds starts with
    'http' and holds no quote character (so the tag it came from can be
    found again by its text), and it finds at most one URL per [<] of the
    document: none at all in a document without tags. *)
Theorem extractImageUrls_finds_http_urls html :
  List.Forall (fun url => startsWith url (lit "http") = true /\ quoteFree url)
    (extractImageUrls html)
  /\ (List.length (extractImageUrls html) <= countLT html)%nat.
Proof.
  unfold extractImageUrls, execAll. split.
  - apply List.Forall_forall. intros url Hin.
    apply List.filter_In in Hin as [Hin Hhttp]. split; [exact Hhttp|].
    pose proof (execFrom_all imgTag _ imgTag_capture html 0%nat) as Hall.
    rewrite List.Forall_forall in Hall. exact (proj2 (Hall url Hin)).
  - etransitivity; [apply List.filter_length_le|].
    apply execFrom_bound. intros c rest Hc. unfold imgTag.
    apply (img_needs_LT (fun rest' =>
             match afterAttrs srcAttribute rest' with
             | Some (url, n) => Some (url, (4 + n)%nat)
             | None => None
             end)). exact Hc.
Qed.

(** *** The base64 entries *)

Lemma eqb_eq : forall a b : jsstring, eqb a b = true <-> a = b.
Proof.
  induction a as [|x a IH]; intros [|y b]; cbn [eqb]; split; try easy.
  - intros H. apply andb_true_iff in H as [Hx Hab].
    apply N.eqb_eq in Hx. apply IH in Hab. congruence.
  - intros [= -> ->]. rewrite N.eqb_refl. now apply IH.
Qed.

Lemma dataUrlHead_type s type payload :
  dataUrlHead s = Some (type, payload) ->
  type <> [] /\ List.Forall (fun c => N.eqb c SEMI = false) type.
Proof.
  unfold dataUrlHead.
  destruct (afterPrefixCI (lit "data:image/") s) as [rest|]; [|discriminate]. cbv zeta.
  destruct (span (fun c => negb (N.eqb c SEMI)) rest) as [|k] eqn:Hspan; [discriminate|].
  destruct (afterPrefixCI (lit ";base64,") (List.skipn (S k) rest)) as [p'|] eqn:Hp;
    [|discriminate].
  intros [= <- _]. split.
  - destruct rest; [discriminate Hspan | discriminate].
  - rewrite <- Hspan. eapply List.Forall_impl; [|apply span_firstn].
    cbn. intros c Hc. now apply negb_true_iff in Hc.
Qed.

Lemma dataSrcAttribute_capture t found n :
  dataSrcAttribute t = Some (found, n) -> captured found.
Proof.
  unfold dataSrcAttribute.
  destruct (afterPrefixCI (lit "src=") t) as [[|q value]|]; try discriminate.
  destruct (isQuote q); [|discriminate].
  destruct (dataUrlHead value) as [[type payload]|] eqn:Hhead; [|discriminate]. cbv zeta.
  destruct (span (fun c => negb (isQuote c)) payload) as [|k] eqn:Hspan; [discriminate|].
  destruct (List.skipn (S k) payload) as [|x tail] eqn:Hskip; [discriminate|].
  destruct (indexOf GT tail); [|discriminate].
  intros [= <- _]. destruct (dataUrlHead_type _ _ _ Hhead) as [Hne Hsemi].
  repeat split; cbn [fst snd]; auto.
  - exact (firstn_not_nil _ _ _ _ Hskip).
  - rewrite <- Hspan. apply quoteFree_span.
Qed.

Lemma dataImgTag_capture t found n : dataImgTag t = Some (found, n) -> captured found.
Proof.
  unfold dataImgTag. destruct (afterPrefixCI (lit "<img") t) as [rest|]; [|discriminate].
  destruct (afterAttrs dataSrcAttribute rest) as [[found' n']|] eqn:H; [|discriminate].
  intros [= <- _].
  exact (afterAttrs_all dataSrcAttribute _ dataSrcAttribute_capture _ _ _ H).
Qed.

Lemma isPayload_not_quote c : isPayload c = true -> isQuote c = false.
Proof.
  unfold isPayload. intros H. apply negb_true_iff in H.
  destruct (isQuote c); [|reflexivity].
  rewrite orb_true_r in H. cbn in H. discriminate.
Qed.

Lemma dataUrl_capture t found n : dataUrl t = Some (found, n) -> captured found.
Proof.
  unfold dataUrl.
  destruct (dataUrlHead t) as [[type payload]|] eqn:Hhead; [|discriminate].
  destruct (span isPayload payload) as [|k] eqn:Hspan; [discriminate|].
  intros [= <- _]. destruct (dataUrlHead_type _ _ _ Hhead) as [Hne Hsemi].
  repeat split; cbn [fst snd]; auto.
  - destruct payload; [discriminate Hspan | discriminate].
  - rewrite <- Hspan. eapply List.Forall_impl; [|apply span_firstn].
    apply isPayload_not_quote.
Qed.

Lemma addFound_keeps found : forall images,
  captured found ->
  List.Forall wellFormed images /\ List.NoDup (List.map src images) ->
  List.Forall wellFormed (addFound images found)
  /\ List.NoDup (List.map src (addFound images found)).
Proof.
  intros images (Ht & Hsemi & Hd & Hq) [Hall Hnodup].
  destruct found as [type payload]. cbn [fst snd] in *. unfold addFound.
  destruct (List.existsb _ images) eqn:Hseen; [now split|].
  split.
  - apply Forall_app. split; [exact Hall|].
    constructor; [|constructor]. repeat split; assumption.
  - rewrite List.map_app. cbn [List.map src].
    apply List.NoDup_app; repeat split; [exact Hnodup | repeat constructor; easy |].
    intros u Hu [<-|[]].
    apply List.in_map_iff in Hu as (image & Hsrc & Hin).
    assert (Hfalse : List.existsb
              (fun image => eqb (src image)
                 (lit "data:image/" ++ type ++ lit ";base64," ++ payload)) images = true).
    { apply List.existsb_exists. exists image. split; [exact Hin|]. now apply eqb_eq. }
    congruence.
Qed.

Lemma addFound_all : forall founds images,
  List.Forall captured founds ->
  List.Forall wellFormed images /\ List.NoDup (List.map src images) ->
  List.Forall wellFormed (List.fold_left addFound founds images)
  /\ List.NoDup (List.map src (List.fold_left addFound founds images)).
Proof.
  induction founds as [|found founds IH]; intros images Hcap Hinv; [exact Hinv|].
  inversion Hcap as [|? ? Hfound Hrest]; subst. cbn [List.fold_left].
  apply IH; [exact Hrest | now apply addFound_keeps].
Qed.

Lemma extractBase64Images_invariant html :
  List.Forall wellFormed (extractBase64Images html)
  /\ List.NoDup (List.map src (extractBase64Images html)).
Proof.
  unfold extractBase64Images, execAll.
  apply addFound_all; [exact (execFrom_all dataUrl _ dataUrl_capture html 0%nat)|].
  apply addFound_all; [exact (execFrom_all dataImgTag _ dataImgTag_capture html 0%nat)|].
  split; constructor.
Qed.

(** X11. The entries of [extractBase64Images].  No two entries have the
    same [src] (an image embedded several times is converted once), and
    every entry is built as [processBase64Image] rebuilds it: its [src] is
    'data:image/', the type, ';base64,' and the payload, the type is not
    empty and holds no semicolon, the payload is not empty and holds no
    quote. *)
Theorem extractBase64Images_entries_are_distinct html :
  List.NoDup (List.map src (extractBase64Images html))
  /\ List.Forall wellFormed (extractBase64Images html).
Proof.
  unfold extractBase64Images, execAll.
  assert (Hempty : List.Forall wellFormed [] /\ List.NoDup (List.map src [])).
  { split; constructor. }
  pose proof (execFrom_all dataImgTag _ dataImgTag_capture html 0%nat) as Htags.
  pose proof (execFrom_all dataUrl _ dataUrl_capture html 0%nat) as Hurls.
  pose proof (addFound_all _ _ Htags Hempty) as Hfirst.
  pose proof (addFound_all _ _ Hurls Hfirst) as [Hall Hnodup].
  split; [exact Hnodup | exact Hall].
Qed.

(** *** Replacement of a reference *)

Lemma afterPrefix_Some : forall pattern s rest,
  afterPrefix pattern s = Some rest -> s = pattern ++ rest.
Proof.
  induction pattern as [|q pattern IH]; intros s rest H.
  - cbn in H. now injection H as <-.
  - destruct s as [|c s]; [discriminate|]. cbn [afterPrefix] in H.
    destruct (N.eqb_spec q c) as [->|]; [|discriminate].
    cbn [app]. f_equal. now apply IH.
Qed.

Lemma afterPrefix_self : forall pattern rest, afterPrefix pattern (pattern ++ rest) = Some rest.
Proof.
  induction pattern as [|q pattern IH]; intros rest; [reflexivity|].
  cbn [app afterPrefix]. now rewrite N.eqb_refl.
Qed.

Lemma replaceAll_absent pattern r : forall s,
  absent pattern s -> replaceAll (matchLiteral pattern) r s = s.
Proof.
  unfold replaceAll. induction s as [|c rest IH]; intros H; [reflexivity|].
  apply everySuffix_inv in H as [Hhead Htail].
  cbn [replaceFrom]. unfold matchLiteral at 1. rewrite Hhead. f_equal. now apply IH.
Qed.

Lemma replaceAll_first pattern r :
  pattern <> [] ->
  forall s, occursIn pattern s ->
  exists a b,
    s = a ++ pattern ++ b
    /\ beforeFirst pattern a
    /\ replaceAll (matchLiteral pattern) r s
       = a ++ r ++ replaceAll (matchLiteral pattern) r b.
Proof.
  intros Hne. unfold replaceAll, beforeFirst.
  assert (Hshort : absent pattern (List.removelast pattern)).
  { intros a b E.
    destruct (afterPrefix pattern b) as [rest|] eqn:Hb; [|reflexivity]. exfalso.
    apply afterPrefix_Some in Hb.
    apply (f_equal (@List.length N)) in E.
    rewrite Hb, !length_app in E.
    pose proof (f_equal (@List.length N) (List.app_removelast_last 0%N Hne)) as Hlen.
    rewrite length_app in Hlen. cbn [List.length] in Hlen. lia. }
  induction s as [|c rest IH]; intros (x & y & E).
  - destruct x; destruct pattern; cbn in E; congruence.
  - destruct (afterPrefix pattern (c :: rest)) as [b|] eqn:Hhead.
    + exists [], b. pose proof (afterPrefix_Some _ _ _ Hhead) as Hs.
      split; [exact Hs|]. split; [exact Hshort|].
      cbn [app replaceFrom]. unfold matchLiteral at 1. rewrite Hhead.
      destruct pattern as [|q pattern]; [congruence|]. cbn [List.length].
      cbn [app] in Hs. injection Hs as _ ->. cbn [app]. f_equal.
      apply replaceFrom_skip.
    + destruct x as [|x0 x].
      { cbn [app] in E. rewrite E, afterPrefix_self in Hhead. discriminate. }
      cbn [app] in E. injection E as -> E.
      destruct (IH (ex_intro _ x (ex_intro _ y E))) as (a & b & Hs & Hfirst & Hrep).
      exists (x0 :: a), b. split; [cbn [app]; now rewrite Hs|]. split.
      * cbn [app]. apply everySuffix_cons; [|exact Hfirst].
        destruct (afterPrefix pattern (x0 :: a ++ List.removelast pattern)) as [t|] eqn:Ht;
          [|reflexivity].
        exfalso.
        apply (afterPrefix_app _ _ ([List.last pattern 0%N] ++ b)) in Ht.
        assert (Heq : (x0 :: a ++ List.removelast pattern) ++ [List.last pattern 0%N] ++ b
                      = x0 :: rest).
        { rewrite Hs. change (x0 :: a ++ List.removelast pattern)
            with ((x0 :: a) ++ List.removelast pattern).
          rewrite <- app_assoc, (app_assoc (List.removelast pattern)).
          rewrite <- (List.app_removelast_last 0%N Hne). reflexivity. }
        rewrite Heq in Ht. congruence.
      * cbn [app replaceFrom]. unfold matchLiteral at 1. rewrite Hhead.
        f_equal. exact Hrep.
Qed.

(** X12. An image that is not referenced leaves the document as it is:
    [replaceImageUrls] returns the HTML unchanged when the original URL of
    none of the images occurs in it. *)
Theorem replaceImageUrls_without_reference html images :
  List.Forall (fun image => absent (originalUrl image) html) images ->
  replaceImageUrls html images = html.
Proof.
  unfold replaceImageUrls. induction 1 as [|image images Himage _ IH]; [reflexivity|].
  cbn [List.fold_left]. rewrite (replaceAll_absent _ _ _ Himage). exact IH.
Qed.

Lemma replaceImageUrls_without_reference_witness :
  replaceImageUrls (lit "<p>no image</p>")
    [relocatedAs sampleUrl (lit "https://storage.example.com/1.png")]
  = lit "<p>no image</p>".
Proof.
  apply replaceImageUrls_without_reference.
  constructor; [|constructor].
  cbv [absent relocatedAs originalUrl].
  repeat (apply everySuffix_cons; [reflexivity|]). now apply everySuffix_nil.
Defined.

(** *** A discovered URL stands in the document *)

Lemma afterPrefixCI_suffix : forall pattern s rest,
  afterPrefixCI pattern s = Some rest -> exists x, s = x ++ rest.
Proof.
  induction pattern as [|q pattern IH]; intros s rest H.
  - cbn in H. injection H as <-. now exists [].
  - destruct s as [|c s]; [discriminate|]. cbn [afterPrefixCI] in H.
    destruct (N.eqb q (fold c)); [|discriminate].
    destruct (IH _ _ H) as [x ->]. now exists (c :: x).
Qed.

Lemma occursIn_suffix u x s : occursIn u s -> occursIn u (x ++ s).
Proof. intros (a & b & ->). exists (x ++ a), b. now rewrite <- app_assoc. Qed.

Lemma occursIn_firstn n (s : jsstring) : occursIn (List.firstn n s) s.
Proof. exists [], (List.skipn n s). cbn [app]. symmetry. apply List.firstn_skipn. Qed.

Lemma afterAttrs_occurs {A} (following : jsstring -> option (A * nat)) (f : A -> jsstring) :
  (forall t a n, following t = Some (a, n) -> occursIn (f a) t) ->
  forall s a n, afterAttrs following s = Some (a, n) -> occursIn (f a) s.
Proof.
  intros Hf. induction s as [|c rest IH]; intros a n; cbn [afterAttrs]; [discriminate|].
  destruct (N.eqb c GT); [discriminate|].
  destruct (afterAttrs following rest) as [[a' n']|] eqn:Hrest.
  - intros [= <- _]. apply (occursIn_suffix _ [c]). exact (IH _ _ eq_refl).
  - destruct (following rest) as [[a' n']|] eqn:Hhere; [|discriminate].
    intros [= <- _]. apply (occursIn_suffix _ [c]). exact (Hf _ _ _ Hhere).
Qed.

Lemma execFrom_occurs {A} (matchAt : jsstring -> option (A * nat)) (f : A -> jsstring) :
  (forall t a n, matchAt t = Some (a, n) -> occursIn (f a) t) ->
  forall s skip, List.Forall (fun a => occursIn (f a) s) (execFrom matchAt skip s).
Proof.
  intros Hmatch.
  assert (Hcons : forall c rest l,
            List.Forall (fun a => occursIn (f a) rest) l ->
            List.Forall (fun a => occursIn (f a) (c :: rest)) l).
  { intros c rest l. apply List.Forall_impl. intros a. apply (occursIn_suffix _ [c]). }
  induction s as [|c rest IH]; intros skip; cbn [execFrom]; [constructor|].
  destruct skip as [|skip]; [|apply Hcons, IH].
  destruct (matchAt (c :: rest)) as [[a [|n]]|] eqn:Hm; try apply Hcons, IH.
  constructor; [exact (Hmatch _ _ _ Hm) | apply Hcons, IH].
Qed.

Lemma srcAttribute_occurs t url n : srcAttribute t = Some (url, n) -> occursIn url t.
Proof.
  unfold srcAttribute.
  destruct (afterPrefixCI (lit "src=") t) as [[|q value]|] eqn:Hsrc; try discriminate.
  destruct (isQuote q); [|discriminate]. cbv zeta.
  destruct (span (fun c => negb (isQuote c)) value) as [|k]; [discriminate|].
  destruct (List.skipn (S k) value) as [|x tail]; [discriminate|].
  destruct (indexOf GT tail); [|discriminate].
  intros [= <- _]. destruct (afterPrefixCI_suffix _ _ _ Hsrc) as [x' ->].
  apply occursIn_suffix, (occursIn_suffix _ [q]), occursIn_firstn.
Qed.

Lemma imgTag_occurs t url n : imgTag t = Some (url, n) -> occursIn url t.
Proof.
  unfold imgTag. destruct (afterPrefixCI (lit "<img") t) as [rest|] eqn:Himg; [|discriminate].
  destruct (afterAttrs srcAttribute rest) as [[url' n']|] eqn:H; [|discriminate].
  intros [= <- _]. destruct (afterPrefixCI_suffix _ _ _ Himg) as [x ->].
  apply occursIn_suffix.
  exact (afterAttrs_occurs srcAttribute (fun u => u) srcAttribute_occurs _ _ _ H).
Qed.

(** X13. Discovery and replacement fit together.  A URL that
    [extractImageUrls] finds stands in the document, and [replaceImageUrls]
    with its relocated image puts the new URL (one without [$]) in its
    place: the result is the text before the first occurrence, the new URL,
    and the rest of the document with the same replacement made. *)
Theorem discovered_url_is_replaced html url newUrl :
  List.In url (extractImageUrls html) ->
  indexOf DOLLAR newUrl = None ->
  exists before rest,
    html = before ++ url ++ rest
    /\ beforeFirst url before
    /\ replaceImageUrls html [relocatedAs url newUrl]
       = before ++ newUrl ++ replaceImageUrls rest [relocatedAs url newUrl].
Proof.
  intros Hin _. unfold extractImageUrls, execAll in Hin.
  apply List.filter_In in Hin as [Hin _].
  pose proof (execFrom_all imgTag _ imgTag_capture html 0%nat) as Hcap.
  pose proof (execFrom_occurs imgTag (fun u => u) imgTag_occurs html 0%nat) as Hocc.
  rewrite List.Forall_forall in Hcap, Hocc.
  destruct (Hcap url Hin) as [Hne _].
  exact (replaceAll_first url newUrl Hne html (Hocc url Hin)).
Qed.

Lemma discovered_url_is_replaced_witness :
  exists before rest,
    lit "<p><img src='https://cdn.example.com/figure.png'></p>"
    = before ++ sampleUrl ++ rest
    /\ beforeFirst sampleUrl before
    /\ replaceImageUrls (lit "<p><img src='https://cdn.example.com/figure.png'></p>")
         [relocatedAs sampleUrl (lit "https://storage.example.com/1.png")]
       = before ++ lit "https://storage.example.com/1.png"
         ++ replaceImageUrls rest
              [relocatedAs sampleUrl (lit "https://storage.example.com/1.png")].
Proof.
  apply discovered_url_is_replaced.
  - vm_compute. now left.
  - vm_compute. reflexivity.
Defined.

(** *** A plain tag is found *)

Lemma execFrom_skip {A} (matchAt : jsstring -> option (A * nat)) : forall block rest,
  execFrom matchAt (List.length block) (block ++ rest) = execFrom matchAt 0 rest.
Proof.
  induction block as [|x block IH]; intros rest; [reflexivity|].
  cbn [app List.length execFrom]. apply IH.
Qed.

Lemma span_app (inClass : N -> bool) : forall u c v,
  List.Forall (fun x => inClass x = true) u ->
  inClass c = false ->
  span inClass (u ++ c :: v) = List.length u.
Proof.
  induction u as [|x u IH]; intros c v Hu Hc; cbn [app span List.length].
  - now rewrite Hc.
  - inversion Hu as [|? ? Hx Hrest]; subst. rewrite Hx. f_equal. now apply IH.
Qed.

Lemma isQuote_cases q : isQuote q = true -> q = QUOT \/ q = APOS.
Proof.
  unfold isQuote. intros H. apply orb_true_iff in H as [H|H]; apply N.eqb_eq in H; auto.
Qed.

Lemma afterAttrs_none {A} (following : jsstring -> option (A * nat)) rest : forall u,
  (forall a b, u = a ++ b -> a <> [] -> following (b ++ GT :: rest) = None) ->
  afterAttrs following (u ++ GT :: rest) = None.
Proof.
  induction u as [|c u IH]; intros H; cbn [app afterAttrs].
  - now rewrite N.eqb_refl.
  - destruct (N.eqb c GT); [reflexivity|].
    rewrite IH.
    + now rewrite (H [c] u eq_refl).
    + intros a b -> Ha. apply (H (c :: a) b); [reflexivity | discriminate].
Qed.

Lemma afterPrefixCI_into : forall pattern u c v t,
  List.Forall (fun x => N.eqb x (fold c) = false) pattern ->
  afterPrefixCI pattern (u ++ c :: v) = Some t ->
  exists t', afterPrefixCI pattern u = Some t'.
Proof.
  induction pattern as [|x pattern IH]; intros u c v t Hp H.
  - now exists u.
  - inversion Hp as [|? ? Hx Hrest]; subst.
    destruct u as [|y u]; cbn [app afterPrefixCI] in H |- *.
    + rewrite Hx in H. discriminate.
    + destruct (N.eqb x (fold y)); [|discriminate]. exact (IH _ _ _ _ Hrest H).
Qed.

Lemma suffix_of_snoc {A} (q : A) : forall a b u,
  a ++ b = u ++ [q] -> b = [] \/ exists u1 u2, u = u1 ++ u2 /\ b = u2 ++ [q].
Proof.
  induction a as [|x a IH]; intros b u E.
  - right. exists [], u. now split.
  - destruct u as [|y u]; cbn [app] in E.
    + injection E as _ E. apply List.app_eq_nil in E as [_ ->]. now left.
    + injection E as _ E. destruct (IH _ _ E) as [->|(u1 & u2 & -> & ->)]; [now left|].
      right. exists (y :: u1), u2. now split.
Qed.

Lemma srcAttribute_plain q q' url after :
  isQuote q = true -> isQuote q' = true -> url <> [] -> quoteFree url ->
  srcAttribute (lit "src=" ++ q :: url ++ q' :: GT :: after)
  = Some (url, (4 + 1 + List.length url + 1 + 0 + 1)%nat).
Proof.
  intros Hq Hq' Hne Hfree. unfold srcAttribute.
  change (afterPrefixCI (lit "src=") (lit "src=" ++ q :: url ++ q' :: GT :: after))
    with (Some (q :: url ++ q' :: GT :: after)).
  cbv beta iota zeta. rewrite Hq.
  rewrite !(span_app (fun c => negb (isQuote c)) url q' (GT :: after)).
  - destruct url as [|c url]; [congruence|]. cbn [List.length].
    change (S (List.length url)) with (List.length (c :: url)).
    rewrite List.skipn_app, List.skipn_all, Nat.sub_diag, List.firstn_app, List.firstn_all,
      Nat.sub_diag.
    cbn [List.skipn List.firstn app indexOf]. rewrite N.eqb_refl, app_nil_r. reflexivity.
  - eapply List.Forall_impl; [|exact Hfree]. cbn. intros c Hc. now rewrite Hc.
  - now rewrite Hq'.
Qed.

Lemma srcAttribute_not_later q q' url after a b :
  isQuote q = true -> isQuote q' = true -> withoutSrc url ->
  lit "src=" ++ q :: url ++ [q'] = a ++ b -> a <> [] ->
  srcAttribute (b ++ GT :: after) = None.
Proof.
  intros Hq Hq' Hsrc E Ha.
  destruct a as [|a0 [|a1 [|a2 [|a3 [|a4 a]]]]]; [congruence| | | | |];
    cbn [lit app] in E; injection E as <-; intros; subst.
  1-3: reflexivity.
  - destruct (isQuote_cases _ Hq) as [->| ->]; reflexivity.
  - match goal with
    | H : _ ++ _ = a ++ b |- _ => symmetry in H; apply suffix_of_snoc in H
    end.
    match goal with
    | H : _ \/ _ |- _ => destruct H as [->|(u1 & u2 & -> & ->)]
    end; [reflexivity|].
    unfold srcAttribute. rewrite <- app_assoc. cbn [app].
    destruct (afterPrefixCI (lit "src=") (u2 ++ q' :: GT :: after)) as [t|] eqn:Ht;
      [|reflexivity].
    exfalso. apply afterPrefixCI_into in Ht as [t' Ht'].
    + rewrite (Hsrc u1 u2 eq_refl) in Ht'. discriminate.
    + destruct (isQuote_cases _ Hq') as [->| ->]; repeat constructor.
Qed.

Lemma imgTag_plain q q' url after :
  isQuote q = true -> isQuote q' = true ->
  url <> [] -> quoteFree url -> withoutSrc url ->
  imgTag (lit "<img src=" ++ q :: url ++ q' :: GT :: after)
  = Some (url, S (List.length (lit "img src=" ++ q :: url ++ [q'; GT]))).
Proof.
  intros Hq Hq' Hne Hfree Hsrc. unfold imgTag.
  change (afterPrefixCI (lit "<img") (lit "<img src=" ++ q :: url ++ q' :: GT :: after))
    with (Some (SPACE :: lit "src=" ++ q :: url ++ q' :: GT :: after)).
  cbn [afterAttrs]. change (N.eqb SPACE GT) with false. cbv iota.
  replace (lit "src=" ++ q :: url ++ q' :: GT :: after)
    with ((lit "src=" ++ q :: url ++ [q']) ++ GT :: after) at 1
    by (cbn [lit app]; now rewrite <- app_assoc).
  rewrite afterAttrs_none.
  - rewrite (srcAttribute_plain q q' url after Hq Hq' Hne Hfree).
    do 2 f_equal. cbn [lit app List.length]. rewrite length_app. cbn [List.length]. lia.
  - intros a b E Ha. exact (srcAttribute_not_later q q' url after a b Hq Hq' Hsrc E Ha).
Qed.

(** X14. A plain image tag is discovered.  When the document is text
    without [<], then the tag [<img src=], a quote, a URL and a quote, and
    [>] -- the URL not empty, free of quotes and of the text 'src=' -- it
    is that URL which [extractImageUrls] finds first, if it starts with
    'http', and the search goes on behind the tag. *)
Theorem plain_img_tag_is_discovered before q q' url after :
  indexOf LT before = None ->
  isQuote q = true -> isQuote q' = true ->
  url <> [] -> quoteFree url -> withoutSrc url ->
  extractImageUrls (before ++ lit "<img src=" ++ q :: url ++ q' :: GT :: after)
  = (if startsWith url (lit "http") then [url] else []) ++ extractImageUrls after.
Proof.
  intros Hbefore Hq Hq' Hne Hfree Hsrc. unfold extractImageUrls, execAll.
  assert (Hscan : execFrom imgTag 0 (before ++ lit "<img src=" ++ q :: url ++ q' :: GT :: after)
                  = url :: execFrom imgTag 0 after).
  { induction before as [|x before IH].
    - cbn [app]. pose proof (imgTag_plain q q' url after Hq Hq' Hne Hfree Hsrc) as Hm.
      change (lit "<img src=" ++ q :: url ++ q' :: GT :: after)
        with (LT :: (lit "img src=" ++ q :: url ++ q' :: GT :: after)) in *.
      cbn [execFrom]. rewrite Hm. f_equal.
      replace (lit "img src=" ++ q :: url ++ q' :: GT :: after)
        with ((lit "img src=" ++ q :: url ++ [q'; GT]) ++ after)
        by (cbn [lit app]; rewrite <- app_assoc; reflexivity).
      apply execFrom_skip.
    - cbn [indexOf] in Hbefore. destruct (N.eqb x LT) eqn:Hx; [discriminate|].
      destruct (indexOf LT before) eqn:Hrest; [discriminate|].
      cbn [app execFrom].
      assert (Hnone : imgTag (x :: before ++ lit "<img src=" ++ q :: url ++ q' :: GT :: after)
                      = None).
      { unfold imgTag.
        apply (img_needs_LT (fun rest' =>
                 match afterAttrs srcAttribute rest' with
                 | Some (u, n) => Some (u, (4 + n)%nat)
                 | None => None
                 end)). now rewrite N.eqb_sym. }
      rewrite Hnone. now apply IH. }
  rewrite Hscan. cbn [List.filter]. now destruct (startsWith url (lit "http")).
Qed.

Lemma plain_img_tag_is_discovered_witness :
  extractImageUrls
    (lit "Figure 1: " ++ lit "<img src=" ++ QUOT :: sampleUrl ++ QUOT :: GT :: lit " (front)")
  = [sampleUrl] ++ extractImageUrls (lit " (front)").
Proof.
  apply (plain_img_tag_is_discovered (lit "Figure 1: ") QUOT QUOT sampleUrl (lit " (front)")).
  - reflexivity.
  - reflexivity.
  - reflexivity.
  - discriminate.
  - repeat constructor.
  - cbv [withoutSrc].
    repeat (apply everySuffix_cons; [reflexivity|]). now apply everySuffix_nil.
Defined.

(** *** A plain base64 tag is found once *)

Lemma execFrom_no_start {A} (matchAt : jsstring -> option (A * nat)) rest : forall s,
  List.Forall (fun c => forall t, matchAt (c :: t) = None) s ->
  execFrom matchAt 0 (s ++ rest) = execFrom matchAt 0 rest.
Proof.
  induction 1 as [|c s Hc _ IH]; [reflexivity|].
  cbn [app execFrom]. now rewrite Hc.
Qed.

Lemma execFrom_nothing {A} (matchAt : jsstring -> option (A * nat)) rest : forall s,
  everySuffix (fun b => b <> [] -> matchAt (b ++ rest) = None) s ->
  execFrom matchAt 0 (s ++ rest) = execFrom matchAt 0 rest.
Proof.
  induction s as [|c s IH]; intros H; [reflexivity|].
  apply everySuffix_inv in H as [Hhead Htail].
  cbn [app execFrom]. cbn [app] in Hhead. rewrite Hhead by discriminate. now apply IH.
Qed.

Lemma dataUrlHead_needs_d c t : N.eqb 100 (fold c) = false -> dataUrlHead (c :: t) = None.
Proof.
  intros H. unfold dataUrlHead. change (lit "data:image/") with (100%N :: lit "ata:image/").
  cbn [afterPrefixCI]. now rewrite H.
Qed.

Lemma dataUrl_needs_d c t : N.eqb 100 (fold c) = false -> dataUrl (c :: t) = None.
Proof. intros H. unfold dataUrl. now rewrite (dataUrlHead_needs_d c t H). Qed.

Lemma quote_not_d q : isQuote q = true -> N.eqb 100 (fold q) = false.
Proof. intros H. destruct (isQuote_cases q H) as [->| ->]; reflexivity. Qed.

Lemma dataUrl_absent rest u :
  withoutDataUrl u ->
  (forall c t, rest = c :: t ->
               List.Forall (fun x => N.eqb x (fold c) = false) (lit "data:image/")) ->
  everySuffix (fun b => b <> [] -> dataUrl (b ++ rest) = None) u.
Proof.
  intros Hu Hrest a b E _. unfold dataUrl, dataUrlHead.
  destruct (afterPrefixCI (lit "data:image/") (b ++ rest)) as [t|] eqn:Ht; [|reflexivity].
  exfalso. destruct rest as [|c rest].
  - rewrite app_nil_r in Ht. rewrite (Hu a b E) in Ht. discriminate.
  - apply afterPrefixCI_into in Ht as [t' Ht']; [|exact (Hrest c rest eq_refl)].
    rewrite (Hu a b E) in Ht'. discriminate.
Qed.

Lemma skipn_exact {A} (u v : list A) : List.skipn (List.length u) (u ++ v) = v.
Proof. induction u as [|x u IH]; [reflexivity | exact IH]. Qed.

Lemma firstn_exact {A} (u v : list A) : List.firstn (List.length u) (u ++ v) = u.
Proof. induction u as [|x u IH]; [reflexivity | cbn; now rewrite IH]. Qed.

Lemma dataUrlHead_plain type rest :
  type <> [] -> List.Forall (fun c => N.eqb c SEMI = false) type ->
  dataUrlHead (lit "data:image/" ++ type ++ lit ";base64," ++ rest) = Some (type, rest).
Proof.
  intros Hne Hsemi. unfold dataUrlHead.
  change (afterPrefixCI (lit "data:image/")
            (lit "data:image/" ++ type ++ lit ";base64," ++ rest))
    with (Some (type ++ lit ";base64," ++ rest)).
  cbv beta iota zeta.
  change (lit ";base64," ++ rest) with (SEMI :: (lit "base64," ++ rest)).
  rewrite !(span_app (fun c => negb (N.eqb c SEMI)) type SEMI).
  - destruct type as [|c type]; [congruence|]. cbn [List.length].
    change (S (List.length type)) with (List.length (c :: type)).
    rewrite skipn_exact, firstn_exact. reflexivity.
  - eapply List.Forall_impl; [|exact Hsemi]. cbn. intros c Hc. now rewrite Hc.
  - reflexivity.
Qed.

Lemma dataUrl_plain type payload q' tail :
  type <> [] -> List.Forall (fun c => N.eqb c SEMI = false) type ->
  payload <> [] -> List.Forall (fun c => isPayload c = true) payload ->
  isQuote q' = true ->
  dataUrl (lit "data:image/" ++ type ++ lit ";base64," ++ payload ++ q' :: tail)
  = Some (type, payload, (11 + List.length type + 8 + List.length payload)%nat).
Proof.
  intros Ht Hsemi Hp Hclass Hq'. unfold dataUrl.
  rewrite (dataUrlHead_plain type _ Ht Hsemi).
  rewrite (span_app isPayload payload q' tail Hclass).
  - destruct payload as [|c payload]; [congruence|]. cbn [List.length].
    change (S (List.length payload)) with (List.length (c :: payload)).
    now rewrite firstn_exact.
  - unfold isPayload. now rewrite Hq', orb_true_r.
Qed.

Lemma isPayload_quoteFree payload :
  List.Forall (fun c => isPayload c = true) payload -> quoteFree payload.
Proof. apply List.Forall_impl. exact isPayload_not_quote. Qed.

Lemma dataSrcAttribute_plain q q' type payload after :
  isQuote q = true -> isQuote q' = true ->
  type <> [] -> List.Forall (fun c => N.eqb c SEMI = false) type ->
  payload <> [] -> quoteFree payload ->
  dataSrcAttribute
    (lit "src=" ++ q :: lit "data:image/" ++ type ++ lit ";base64," ++ payload
       ++ q' :: GT :: after)
  = Some (type, payload,
          (4 + 1 + (11 + List.length type + 8) + List.length payload + 1 + 0 + 1)%nat).
Proof.
  intros Hq Hq' Ht Hsemi Hp Hfree. unfold dataSrcAttribute.
  change (afterPrefixCI (lit "src=")
            (lit "src=" ++ q :: lit "data:image/" ++ type ++ lit ";base64," ++ payload
               ++ q' :: GT :: after))
    with (Some (q :: lit "data:image/" ++ type ++ lit ";base64," ++ payload
                  ++ q' :: GT :: after)).
  cbv beta iota zeta. rewrite Hq, (dataUrlHead_plain type _ Ht Hsemi).
  rewrite !(span_app (fun c => negb (isQuote c)) payload q' (GT :: after)).
  - destruct payload as [|c payload]; [congruence|]. cbn [List.length].
    change (S (List.length payload)) with (List.length (c :: payload)).
    rewrite skipn_exact, firstn_exact. cbn [indexOf]. now rewrite N.eqb_refl.
  - eapply List.Forall_impl; [|exact Hfree]. cbn. intros c Hc. now rewrite Hc.
  - now rewrite Hq'.
Qed.

Lemma dataSrcAttribute_behind_quote w q' after :
  quoteFree w -> isQuote q' = true ->
  dataSrcAttribute (w ++ q' :: GT :: after) = None.
Proof.
  intros Hw Hq'. unfold dataSrcAttribute.
  change (lit "src=") with [115%N; 114%N; 99%N; 61%N].
  assert (Hfold : fold q' = q') by (destruct (isQuote_cases q' Hq') as [->| ->]; reflexivity).
  assert (H115 : N.eqb 115 q' = false)
    by (destruct (isQuote_cases q' Hq') as [->| ->]; reflexivity).
  assert (H114 : N.eqb 114 q' = false)
    by (destruct (isQuote_cases q' Hq') as [->| ->]; reflexivity).
  assert (H99 : N.eqb 99 q' = false)
    by (destruct (isQuote_cases q' Hq') as [->| ->]; reflexivity).
  assert (H61 : N.eqb 61 q' = false)
    by (destruct (isQuote_cases q' Hq') as [->| ->]; reflexivity).
  destruct w as [|a [|b [|c [|d [|e w]]]]]; cbn [app afterPrefixCI];
    rewrite ?Hfold, ?H115; try reflexivity;
    (destruct (N.eqb 115 (fold a)); [|reflexivity]);
    rewrite ?Hfold, ?H114; try reflexivity;
    (destruct (N.eqb 114 (fold b)); [|reflexivity]);
    rewrite ?Hfold, ?H99; try reflexivity;
    (destruct (N.eqb 99 (fold c)); [|reflexivity]);
    rewrite ?Hfold, ?H61; try reflexivity;
    (destruct (N.eqb 61 (fold d)); [|reflexivity]).
  - rewrite Hq'. now rewrite (dataUrlHead_needs_d GT after eq_refl).
  - inversion Hw as [|? ? _ Hw1]; subst. inversion Hw1 as [|? ? _ Hw2]; subst.
    inversion Hw2 as [|? ? _ Hw3]; subst. inversion Hw3 as [|? ? _ Hw4]; subst.
    inversion Hw4 as [|? ? He _]; subst. now rewrite He.
Qed.

Lemma quoteFree_suffix u1 u2 : quoteFree (u1 ++ u2) -> quoteFree u2.
Proof. unfold quoteFree. rewrite List.Forall_app. tauto. Qed.

Lemma dataSrcAttribute_not_later q q' w after a b :
  isQuote q = true -> isQuote q' = true -> quoteFree w ->
  lit "src=" ++ q :: w ++ [q'] = a ++ b -> a <> [] ->
  dataSrcAttribute (b ++ GT :: after) = None.
Proof.
  intros Hq Hq' Hw E Ha.
  destruct a as [|a0 [|a1 [|a2 [|a3 [|a4 a]]]]]; [congruence| | | | |];
    cbn [lit app] in E; injection E as <-; intros; subst.
  1-3: reflexivity.
  - destruct (isQuote_cases _ Hq) as [->| ->]; reflexivity.
  - match goal with
    | H : _ ++ _ = a ++ b |- _ => symmetry in H; apply suffix_of_snoc in H
    end.
    match goal with
    | H : _ \/ _ |- _ => destruct H as [->|(u1 & u2 & -> & ->)]
    end; [reflexivity|].
    rewrite <- app_assoc. cbn [app].
    apply dataSrcAttribute_behind_quote; [|exact Hq'].
    exact (quoteFree_suffix u1 u2 Hw).
Qed.

Lemma quoteFree_lit_app (u v : jsstring) : quoteFree u -> quoteFree v -> quoteFree (u ++ v).
Proof. unfold quoteFree. rewrite List.Forall_app. tauto. Qed.

Lemma dataImgTag_plain q q' type payload after :
  isQuote q = true -> isQuote q' = true ->
  type <> [] -> List.Forall (fun c => N.eqb c SEMI = false) type -> quoteFree type ->
  payload <> [] -> quoteFree payload ->
  dataImgTag (base64Tag q q' type payload ++ after)
  = Some (type, payload, List.length (base64Tag q q' type payload)).
Proof.
  intros Hq Hq' Ht Hsemi Htfree Hp Hfree. unfold dataImgTag, base64Tag.
  set (w := lit "data:image/" ++ type ++ lit ";base64," ++ payload).
  change (afterPrefixCI (lit "<img") ((lit "<img src=" ++ q :: w ++ [q'; GT]) ++ after))
    with (Some (SPACE :: (lit "src=" ++ q :: w ++ [q'; GT]) ++ after)).
  cbn [afterAttrs]. change (N.eqb SPACE GT) with false. cbv iota.
  assert (Hw : quoteFree w).
  { subst w. apply quoteFree_lit_app; [repeat constructor|].
    apply quoteFree_lit_app; [exact Htfree|].
    apply quoteFree_lit_app; [repeat constructor | exact Hfree]. }
  replace ((lit "src=" ++ q :: w ++ [q'; GT]) ++ after)
    with ((lit "src=" ++ q :: w ++ [q']) ++ GT :: after)
    by (cbn [lit app]; rewrite <- !app_assoc; reflexivity).
  rewrite afterAttrs_none.
  - replace ((lit "src=" ++ q :: w ++ [q']) ++ GT :: after)
      with (lit "src=" ++ q :: lit "data:image/" ++ type ++ lit ";base64," ++ payload
              ++ q' :: GT :: after)
      by (subst w; cbn [lit app]; rewrite <- !app_assoc; reflexivity).
    rewrite (dataSrcAttribute_plain q q' type payload after Hq Hq' Ht Hsemi Hp Hfree).
    do 2 f_equal. subst w. cbn [lit app List.length].
    rewrite ?length_app. cbn [List.length]. rewrite ?length_app. cbn [List.length lit]. lia.
  - intros a b E Ha. exact (dataSrcAttribute_not_later q q' w after a b Hq Hq' Hw E Ha).
Qed.

(** X23. A plain base64 image is found once.  In a document that is text
    without [<] and without 'data:image/', then the tag [<img src=], a
    quote, a data URL, a quote and [>], then such text again, both patterns
    of [extractBase64Images] find the data URL -- the one by its tag, the
    other on its own -- and the result is the single entry of its type and
    payload.  The type is not empty and free of semicolons and quotes; the
    payload is not empty and free of white space, quotes and angle
    brackets. *)
Theorem plain_base64_tag_is_found_once before q q' type payload after :
  indexOf LT before = None -> withoutDataUrl before ->
  indexOf LT after = None -> withoutDataUrl after ->
  isQuote q = true -> isQuote q' = true ->
  type <> [] -> List.Forall (fun c => N.eqb c SEMI = false) type -> quoteFree type ->
  payload <> [] -> List.Forall (fun c => isPayload c = true) payload ->
  extractBase64Images (before ++ base64Tag q q' type payload ++ after)
  = [mkFound (lit "data:image/" ++ type ++ lit ";base64," ++ payload) payload type].
Proof.
  intros Hb1 Hb2 Ha1 Ha2 Hq Hq' Ht Hsemi Htfree Hp Hclass.
  pose proof (isPayload_quoteFree payload Hclass) as Hfree.
  assert (HnoLT : forall u, indexOf LT u = None ->
            List.Forall (fun c => forall t, dataImgTag (c :: t) = None) u).
  { induction u as [|x u IH]; intros Hu; [constructor|].
    cbn [indexOf] in Hu. destruct (N.eqb x LT) eqn:Hx; [discriminate|].
    destruct (indexOf LT u) eqn:Hrest; [discriminate|].
    constructor; [|now apply IH]. intros t. unfold dataImgTag.
    apply (img_needs_LT (fun rest' =>
             match afterAttrs dataSrcAttribute rest' with
             | Some (found, n) => Some (found, (4 + n)%nat)
             | None => None
             end)). now rewrite N.eqb_sym. }
  assert (Htags : execAll dataImgTag (before ++ base64Tag q q' type payload ++ after)
                  = [(type, payload)]).
  { unfold execAll. rewrite (execFrom_no_start dataImgTag _ before (HnoLT before Hb1)).
    pose proof (dataImgTag_plain q q' type payload after Hq Hq' Ht Hsemi Htfree Hp Hfree)
      as Hm.
    destruct (base64Tag q q' type payload) as [|c block] eqn:Hblock; [discriminate Hblock|].
    cbn [app execFrom]. cbn [app] in Hm. rewrite Hm. cbn [List.length]. f_equal.
    rewrite execFrom_skip.
    rewrite <- (app_nil_r after), (execFrom_no_start dataImgTag [] after (HnoLT after Ha1)).
    reflexivity. }
  assert (Hurls : execAll dataUrl (before ++ base64Tag q q' type payload ++ after)
                  = [(type, payload)]).
  { unfold execAll, base64Tag.
    rewrite (execFrom_nothing dataUrl _ before).
    2:{ apply dataUrl_absent; [exact Hb2|]. intros c t E. cbn [lit app] in E.
        injection E as <- _. repeat constructor. }
    rewrite <- !app_assoc.
    rewrite (execFrom_no_start dataUrl _ (lit "<img src=")).
    2:{ repeat constructor; intros t; now apply dataUrl_needs_d. }
    change ((q :: lit "data:image/" ++ type ++ lit ";base64," ++ payload ++ [q'; GT])
            ++ after)
      with ([q] ++ (lit "data:image/" ++ type ++ lit ";base64," ++ payload ++ [q'; GT])
            ++ after).
    rewrite (execFrom_no_start dataUrl _ [q]).
    2:{ constructor; [|constructor]. intros t. apply dataUrl_needs_d, quote_not_d, Hq. }
    rewrite <- !app_assoc. cbn [app].
    pose proof (dataUrl_plain type payload q' (GT :: after) Ht Hsemi Hp Hclass Hq') as Hm.
    change (lit "data:image/" ++ type ++ lit ";base64," ++ payload ++ q' :: GT :: after)
      with (100%N :: (lit "ata:image/" ++ type ++ lit ";base64," ++ payload
                        ++ q' :: GT :: after)) in *.
    replace (11 + List.length type + 8 + List.length payload)%nat
      with (S (List.length (lit "ata:image/" ++ type ++ lit ";base64," ++ payload))) in Hm
      by (rewrite !length_app; cbn [List.length lit]; lia).
    cbn [execFrom]. rewrite Hm. f_equal.
    replace (lit "ata:image/" ++ type ++ lit ";base64," ++ payload ++ q' :: GT :: after)
      with ((lit "ata:image/" ++ type ++ lit ";base64," ++ payload) ++ q' :: GT :: after)
      by (rewrite <- !app_assoc; reflexivity).
    rewrite execFrom_skip.
    change (q' :: GT :: after) with ([q'; GT] ++ after).
    rewrite (execFrom_no_start dataUrl after [q'; GT]).
    2:{ constructor; [|constructor; [|constructor]]; intros t; apply dataUrl_needs_d;
          [apply quote_not_d, Hq' | reflexivity]. }
    rewrite <- (app_nil_r after), (execFrom_nothing dataUrl [] after); [reflexivity|].
    apply dataUrl_absent; [exact Ha2 | discriminate]. }
  unfold extractBase64Images. rewrite Htags, Hurls. cbn [List.fold_left addFound List.existsb app].
  replace (eqb _ _) with true by (symmetry; now apply eqb_eq). reflexivity.
Qed.

Lemma plain_base64_tag_is_found_once_witness :
  extractBase64Images
    (lit "Logo: " ++ base64Tag QUOT QUOT (lit "png") (lit "iVBORw0KGgo=") ++ lit " end")
  = [sampleBase64].
Proof.
  apply (plain_base64_tag_is_found_once (lit "Logo: ") QUOT QUOT (lit "png")
           (lit "iVBORw0KGgo=") (lit " end"));
    try reflexivity; try discriminate; try (repeat constructor; fail);
    cbv [withoutDataUrl];
    repeat (apply everySuffix_cons; [reflexivity|]); now apply everySuffix_nil.
Defined.

End DiscoveryFacts.

Module RelocationFacts.
Import PdfProcessor PdfProcessorProps PdfProcessorFacts.

Lemma downloadAndStoreImage_stores env imageUrl user index w :
  exists result w',
    downloadAndStoreImage env imageUrl user index w = (Ok result, w')
    /\ match result with
       | None => storage w' = storage w
       | Some image =>
           originalUrl image = imageUrl
           /\ exists object,
                storage w' = storage w ++ [object] /\ storedAs env user image object
       end.
Proof.
  unfold downloadAndStoreImage. run_monad. split_outcomes;
    do 2 eexists; (split; [reflexivity|]); cbn [storage]; try reflexivity;
    (split; [reflexivity|]); eexists; (split; [reflexivity|]); repeat split.
Qed.

Lemma processBase64Image_stores env base64Data type user index w :
  exists result w',
    processBase64Image env base64Data type user index w = (Ok result, w')
    /\ match result with
       | None => storage w' = storage w
       | Some image =>
           originalSrc image = lit "data:image/" ++ type ++ lit ";base64," ++ base64Data
           /\ exists object,
                storage w' = storage w ++ [object] /\ convertedAs env user image object
       end.
Proof.
  unfold processBase64Image. run_monad. split_outcomes;
    do 2 eexists; (split; [reflexivity|]); cbn [storage]; try reflexivity;
    (split; [reflexivity|]); eexists; (split; [reflexivity|]); repeat split.
Qed.

Lemma downloadAll_stores env user : forall urls i processed w,
  exists new objects w',
    downloadAll env user i urls processed w = (Ok (processed ++ new), w')
    /\ storage w' = storage w ++ objects
    /\ Forall2 (storedAs env user) new objects
    /\ sublist (List.map originalUrl new) urls.
Proof.
  induction urls as [|imageUrl rest IH]; intros i processed w; cbn [downloadAll].
  - exists [], [], w. unfold ret. rewrite !app_nil_r. repeat split; constructor.
  - destruct (downloadAndStoreImage_stores env imageUrl user i w)
      as (result & w1 & Hrun & Hres).
    unfold bind at 1. rewrite Hrun.
    match goal with
    | |- context [downloadAll env user ?j rest ?acc w1] =>
        destruct (IH j acc w1) as (new & objects & w' & Hrest & Hsto & Hall & Hsub)
    end.
    rewrite Hrest. destruct result as [image|].
    + destruct Hres as (Horig & object & Hone & Hstored).
      exists (image :: new), (object :: objects), w'.
      rewrite <- app_assoc. cbn [app]. rewrite Hsto, Hone, <- app_assoc.
      repeat split.
      * now constructor.
      * cbn [List.map]. rewrite Horig. now constructor.
    + exists new, objects, w'. rewrite Hsto, Hres. repeat split; [assumption|].
      now constructor.
Qed.

Lemma convertAll_stores env user : forall images i processed w,
  exists new objects w',
    convertAll env user i images processed w = (Ok (processed ++ new), w')
    /\ storage w' = storage w ++ objects
    /\ Forall2 (convertedAs env user) new objects
    /\ sublist (List.map originalSrc new) (List.map dataUrlOf images).
Proof.
  induction images as [|found rest IH]; intros i processed w; cbn [convertAll].
  - exists [], [], w. unfold ret. rewrite !app_nil_r. repeat split; constructor.
  - destruct (processBase64Image_stores env (data found) (imageType found) user i w)
      as (result & w1 & Hrun & Hres).
    unfold bind at 1. rewrite Hrun.
    match goal with
    | |- context [convertAll env user ?j rest ?acc w1] =>
        destruct (IH j acc w1) as (new & objects & w' & Hrest & Hsto & Hall & Hsub)
    end.
    rewrite Hrest. destruct result as [image|].
    + destruct Hres as (Horig & object & Hone & Hstored).
      exists (image :: new), (object :: objects), w'.
      rewrite <- app_assoc. cbn [app]. rewrite Hsto, Hone, <- app_assoc.
      repeat split.
      * now constructor.
      * cbn [List.map]. rewrite Horig. now constructor.
    + exists new, objects, w'. rewrite Hsto, Hres. repeat split; [assumption|].
      now constructor.
Qed.

Lemma dataUrlOf_src images :
  List.Forall wellFormed images -> List.map dataUrlOf images = List.map src images.
Proof.
  induction 1 as [|image images Himage _ IH]; [reflexivity|].
  cbn [List.map]. rewrite IH. f_equal. symmetry. exact (proj1 Himage).
Qed.

(** X15. What the image step stores.  After discovery and the two loops of
    step 3, the storage holds one new object for every relocated image and
    nothing else: each relocated HTTP image has its object in
    'material-images' and each converted base64 image in 'pdf-documents',
    under the user's folder and the file name of the image, and its new
    URL is the public URL of that path.  The relocated images keep the
    order of discovery, and the reference of every converted base64 image
    is the [src] of a discovered one, so the replacement that follows
    searches for what discovery recorded. *)
Theorem every_relocated_image_is_stored env user html w :
  exists relocated converted objects objects64 w',
    processImages env user (extractImageUrls html) (extractBase64Images html) w
    = (Ok (relocated, converted), w')
    /\ storage w' = storage w ++ objects ++ objects64
    /\ Forall2 (storedAs env user) relocated objects
    /\ Forall2 (convertedAs env user) converted objects64
    /\ sublist (List.map originalUrl relocated) (extractImageUrls html)
    /\ sublist (List.map originalSrc converted) (List.map src (extractBase64Images html)).
Proof.
  unfold processImages.
  destruct (downloadAll_stores env user (extractImageUrls html) 0 [] w)
    as (relocated & objects & w1 & Hrun1 & Hsto1 & Hall1 & Hsub1).
  destruct (convertAll_stores env user (extractBase64Images html) 0 [] w1)
    as (converted & objects64 & w2 & Hrun2 & Hsto2 & Hall2 & Hsub2).
  cbn [app] in Hrun1, Hrun2.
  exists relocated, converted, objects, objects64, w2.
  unfold bind at 1. rewrite Hrun1. unfold bind at 1. rewrite Hrun2.
  unfold ret. rewrite Hsto2, Hsto1, <- app_assoc.
  rewrite <- (dataUrlOf_src (extractBase64Images html)).
  - repeat split; assumption.
  - exact (proj1 (DiscoveryFacts.extractBase64Images_invariant html)).
Qed.

End RelocationFacts.

Module ServeFacts.
Import PdfProcessor PdfProcessorProps PdfProcessorFacts Serve ServeProps.

Ltac run_site :=
  cbv beta iota zeta delta
    [andThen pure raise catch lift written awaitConvert awaitUpdate
     tryCatch bind ret throw write put now awaitUpload];
  cbn [world database console storage ticks fst snd].

(** *** The embedding *)



(** *** The HTML of the conversion *)


Lemma looksBase64_class : forall s,
  looksBase64 s = true ->
  List.Forall (fun c => isBase64Char c = true \/ N.eqb c 61 = true) s.
Proof.
  unfold looksBase64. induction s as [|c s IH]; [constructor|].
  cbn [span]. destruct (isBase64Char c) eqn:Hc; cbn [List.skipn].
  - intros H. constructor; [now left | now apply IH].
  - destruct s as [|c' [|c'' s]]; try discriminate.
    + intros H. constructor; [now right | constructor].
    + intros H. apply andb_true_iff in H as [H1 H2].
      constructor; [now right|]. constructor; [now right | constructor].
Qed.

Lemma looksBase64_alphabet : forall s,
  List.Forall (fun c => isBase64Char c = true) s -> looksBase64 s = true.
Proof.
  unfold looksBase64. induction 1 as [|c s Hc _ IH]; [reflexivity|].
  cbn [span]. rewrite Hc. exact IH.
Qed.

(** X17. The inline payload of the conversion.  When the file offers no
    URL and its [FileData] is not empty, the HTML is taken from it without
    an error and without a remote call: decoded by [atob] when the payload,
    white space apart, is of the base64 alphabet with at most two [=]
    behind it and [atob] accepts it, and as it is otherwise.  So a payload
    that holds a character outside the alphabet, such as the [<] of a tag,
    is never decoded, and one that is plain text of the alphabet is. *)
Theorem inline_payload_decoded_only_if_base64 remote file raw w :
  withoutUrl file -> HtmlFile.FileData file = Some raw -> raw <> [] ->
  htmlContentOf remote file w
  = (Ok (if looksBase64 (withoutSpace raw)
         then default raw (atob (images remote) raw) else raw), w)
  /\ (forall c, List.In c raw -> outsideBase64 c -> looksBase64 (withoutSpace raw) = false)
  /\ (List.Forall (fun c => isBase64Char c = true) raw ->
      looksBase64 (withoutSpace raw) = true).
Proof.
  intros (H1 & H2 & H3 & H4) Hdata Hne. split; [|split].
  - unfold htmlContentOf. rewrite H1, H2, H3, H4, Hdata. cbn [orElse].
    destruct raw as [|c rest]; [congruence|]. run_site.
    destruct (looksBase64 _); [|reflexivity].
    destruct (atob (images remote) (c :: rest)); reflexivity.
  - intros c Hin (Hspace & Hclass & Heq).
    destruct (looksBase64 (withoutSpace raw)) eqn:Hlooks; [|reflexivity]. exfalso.
    apply looksBase64_class in Hlooks. rewrite List.Forall_forall in Hlooks.
    destruct (Hlooks c) as [H|H]; [|congruence..].
    unfold withoutSpace. apply List.filter_In. now rewrite Hspace.
  - intros Hall. apply looksBase64_alphabet. unfold withoutSpace.
    apply List.Forall_forall. intros c Hc. apply List.filter_In in Hc as [Hc _].
    rewrite List.Forall_forall in Hall. now apply Hall.
Qed.

Lemma inline_payload_decoded_only_if_base64_witness :
  htmlContentOf (sampleRemote 200 []) (fileWith (lit "<p>Carrara</p>")) emptyWorld
  = (Ok (lit "<p>Carrara</p>"), emptyWorld)
  /\ htmlContentOf (sampleRemote 200 []) (fileWith (lit "Carrara")) emptyWorld
     = (Ok (default (lit "Carrara") (atob (images (sampleRemote 200 [])) (lit "Carrara"))),
        emptyWorld).
Proof.
  split.
  - apply (inline_payload_decoded_only_if_base64 (sampleRemote 200 [])
             (fileWith (lit "<p>Carrara</p>")) (lit "<p>Carrara</p>") emptyWorld).
    + repeat split.
    + reflexivity.
    + discriminate.
  - apply (inline_payload_decoded_only_if_base64 (sampleRemote 200 [])
             (fileWith (lit "Carrara")) (lit "Carrara") emptyWorld).
    + repeat split.
    + reflexivity.
    + discriminate.
Defined.

(** *** The pipeline *)






(** *** The handler *)







(** *** Fatal and other failures *)








End ServeFacts.

Module SpatialFacts.
Import Spatial SpatialProps.

Lemma SFcompare_rank f1 f2 :
  match SFcompare f1 f2 with
  | Some Lt => below (rank f1) (rank f2)
  | Some Eq => rank f1 = rank f2
  | Some Gt => below (rank f2) (rank f1)
  | None => f1 = S754_nan \/ f2 = S754_nan
  end.
Proof.
  unfold below.
  destruct f1 as [s1|s1| |s1 m1 e1], f2 as [s2|s2| |s2 m2 e2];
    try destruct s1; try destruct s2; cbn; auto; try lia.
  all: change (PosDef.Pos.compare_cont Eq m1 m2) with (Pos.compare m1 m2).
  all: destruct (Z.compare_spec e1 e2) as [->| |]; cbn; try lia.
  all: destruct (Pos.compare_spec m1 m2) as [->| |]; cbn; try reflexivity; lia.
Qed.

Lemma is_nan_spec number : PrimFloat.is_nan number = true <-> Prim2SF number = S754_nan.
Proof.
  unfold PrimFloat.is_nan. rewrite eqb_spec. unfold SFeqb.
  destruct (Prim2SF number) as [s|s| |s m e]; cbn.
  - split; discriminate.
  - destruct s; split; discriminate.
  - split; reflexivity.
  - change (PosDef.Pos.compare_cont Eq m m) with (Pos.compare m m).
    rewrite Z.compare_refl, Pos.compare_refl. destruct s; split; discriminate.
Qed.

Lemma isNumber_spec number : isNumber number <-> Prim2SF number <> S754_nan.
Proof.
  unfold isNumber. rewrite <- is_nan_spec. destruct (PrimFloat.is_nan number); split; congruence.
Qed.

Lemma SFcompare_numbers f1 f2 c :
  SFcompare f1 f2 = Some c -> f1 <> S754_nan /\ f2 <> S754_nan.
Proof. destruct f1, f2; cbn; try discriminate; split; discriminate. Qed.

Lemma ltb_below a b :
  PrimFloat.ltb a b = true <-> isNumber a /\ isNumber b /\ below (rankOf a) (rankOf b).
Proof.
  rewrite ltb_spec, !isNumber_spec. unfold SFltb, rankOf.
  pose proof (SFcompare_rank (Prim2SF a) (Prim2SF b)) as H.
  pose proof (SFcompare_numbers (Prim2SF a) (Prim2SF b)) as Hnan.
  destruct (SFcompare (Prim2SF a) (Prim2SF b)) as [[]|].
  - split; [discriminate|]. intros (_ & _ & Hb). rewrite H in Hb. unfold below in Hb. lia.
  - split; [intros _|reflexivity]. destruct (Hnan _ eq_refl). auto.
  - split; [discriminate|]. intros (_ & _ & Hb). unfold below in *. lia.
  - split; [discriminate|]. intros (Ha & Hb & _). tauto.
Qed.

Lemma leb_below a b :
  PrimFloat.leb a b = true
  <-> isNumber a /\ isNumber b /\ (below (rankOf a) (rankOf b) \/ rankOf a = rankOf b).
Proof.
  rewrite leb_spec, !isNumber_spec. unfold SFleb, rankOf.
  pose proof (SFcompare_rank (Prim2SF a) (Prim2SF b)) as H.
  pose proof (SFcompare_numbers (Prim2SF a) (Prim2SF b)) as Hnan.
  destruct (SFcompare (Prim2SF a) (Prim2SF b)) as [[]|].
  - split; [intros _|reflexivity]. destruct (Hnan _ eq_refl). auto.
  - split; [intros _|reflexivity]. destruct (Hnan _ eq_refl). auto.
  - split; [discriminate|]. intros (_ & _ & [Hb|Hb]).
    + unfold below in *. lia.
    + rewrite Hb in H. unfold below in H. lia.
  - split; [discriminate|]. intros (Ha & Hb & _). tauto.
Qed.

Lemma below_total a b : below a b \/ a = b \/ below b a.
Proof.
  destruct a as [[a1 a2] a3], b as [[b1 b2] b3]. unfold below. cbn [fst snd].
  destruct (Z.lt_trichotomy a1 b1) as [?|[->|?]]; [lia| |lia].
  destruct (Z.lt_trichotomy a2 b2) as [?|[->|?]]; [lia| |lia].
  destruct (Z.lt_trichotomy a3 b3) as [?|[->|?]]; [lia| |lia].
  right. left. reflexivity.
Qed.

Lemma below_trans a b c : below a b -> below b c -> below a c.
Proof. unfold below. lia. Qed.

Lemma below_irrefl a : ~ below a a.
Proof. unfold below. lia. Qed.

Lemma leb_refl a : isNumber a -> PrimFloat.leb a a = true.
Proof. intros Ha. apply leb_below. auto. Qed.

Lemma leb_trans a b c :
  PrimFloat.leb a b = true -> PrimFloat.leb b c = true -> PrimFloat.leb a c = true.
Proof.
  intros (Ha & _ & Hab)%leb_below (_ & Hc & Hbc)%leb_below. apply leb_below.
  split_and!; [exact Ha | exact Hc|].
  destruct Hab as [Hab|Hab], Hbc as [Hbc|Hbc].
  - left. eapply below_trans; eassumption.
  - left. now rewrite <- Hbc.
  - left. now rewrite Hab.
  - right. congruence.
Qed.

Lemma ltb_leb a b : PrimFloat.ltb a b = true -> PrimFloat.leb a b = true.
Proof. intros (Ha & Hb & Hab)%ltb_below. apply leb_below. auto. Qed.

Lemma ltb_trans a b c :
  PrimFloat.ltb a b = true -> PrimFloat.ltb b c = true -> PrimFloat.ltb a c = true.
Proof.
  intros (Ha & _ & Hab)%ltb_below (_ & Hc & Hbc)%ltb_below. apply ltb_below.
  split_and!; [exact Ha | exact Hc | eapply below_trans; eassumption].
Qed.

Lemma not_ltb_leb a b :
  isNumber a -> isNumber b -> PrimFloat.ltb a b = false -> PrimFloat.leb b a = true.
Proof.
  intros Ha Hb Hlt. apply leb_below. split_and!; [exact Hb | exact Ha|].
  destruct (below_total (rankOf a) (rankOf b)) as [H|[H|H]]; [|now right | now left].
  assert (PrimFloat.ltb a b = true) by (apply ltb_below; auto). congruence.
Qed.

Lemma ltb_not_leb a b : PrimFloat.ltb a b = true -> PrimFloat.leb b a = false.
Proof.
  intros (Ha & Hb & Hab)%ltb_below.
  destruct (PrimFloat.leb b a) eqn:Hle; [|reflexivity].
  apply leb_below in Hle as (_ & _ & [Hba|Hba]).
  - destruct (below_irrefl (rankOf a)). eapply below_trans; eassumption.
  - rewrite Hba in Hab. now destruct (below_irrefl (rankOf a)).
Qed.

Lemma is_zero_rank a : PrimFloat.is_zero a = true -> isNumber a /\ rankOf a = (0, 0, 0).
Proof.
  unfold PrimFloat.is_zero. rewrite eqb_spec. unfold SFeqb, rankOf. intros H.
  pose proof (SFcompare_rank (Prim2SF a) (Prim2SF PrimFloat.zero)) as Hrank.
  pose proof (SFcompare_numbers (Prim2SF a) (Prim2SF PrimFloat.zero)) as Hnan.
  destruct (SFcompare _ _) as [[]|]; try discriminate.
  split; [|exact Hrank]. apply isNumber_spec. now destruct (Hnan _ eq_refl).
Qed.

(** *** Clustering *)

Lemma unvisited_agree : forall rest i visited visited',
  (forall k, (i <= k)%nat -> k ∈ visited <-> k ∈ visited') ->
  unvisited i rest visited = unvisited i rest visited'.
Proof.
  induction rest as [|point rest IH]; intros i visited visited' H; [reflexivity|].
  cbn [unvisited]. rewrite (IH (S i) visited visited') by (intros k Hk; apply H; lia).
  destruct (decide (i ∈ visited)) as [Hi|Hi], (decide (i ∈ visited')) as [Hi'|Hi'];
    try reflexivity.
  - exfalso. apply Hi', (H i); [lia|exact Hi].
  - exfalso. apply Hi, (H i); [lia|exact Hi'].
Qed.

Lemma unvisited_none : forall rest i, unvisited i rest ∅ = rest.
Proof.
  induction rest as [|point rest IH]; intros i; [reflexivity|].
  cbn [unvisited]. destruct (decide (i ∈ ∅)) as [Hi|_]; [set_solver|]. now rewrite IH.
Qed.

Section EngineFacts.

Variable Math_sqrt : float -> float.
Variable Math_pow : float -> float -> float.

Lemma gather_spec seed : forall rest j visited cluster cluster' visited',
  gather Math_sqrt Math_pow seed j rest visited cluster = (cluster', visited') ->
  exists taken,
    cluster' = cluster ++ taken
    /\ List.Forall (near Math_sqrt Math_pow seed) taken
    /\ (forall k, k ∈ visited -> k ∈ visited')
    /\ (forall k, (k < j)%nat -> k ∈ visited' -> k ∈ visited)
    /\ taken ++ unvisited j rest visited' ≡ₚ unvisited j rest visited
    /\ sublist taken rest.
Proof.
  induction rest as [|point rest IH]; intros j visited cluster cluster' visited' H.
  - cbn in H. injection H as <- <-. exists []. rewrite app_nil_r.
    repeat split; auto; constructor.
  - cbn [gather] in H. cbn [unvisited].
    destruct (decide (j ∈ visited)) as [Hj|Hj].
    + destruct (IH _ _ _ _ _ H) as (taken & -> & Hnear & Hup & Hdown & Hperm & Hsub).
      exists taken. destruct (decide (j ∈ visited')) as [_|Hj']; [|now destruct Hj'; auto].
      split_and!; [reflexivity | exact Hnear | exact Hup | | exact Hperm | now apply sublist_cons].
      intros k Hk. apply Hdown. lia.
    + destruct (PrimFloat.ltb _ _) eqn:Hclose.
      * destruct (IH _ _ _ _ _ H) as (taken & -> & Hnear & Hup & Hdown & Hperm & Hsub).
        exists (point :: taken).
        assert (Hin : j ∈ visited') by (apply Hup; set_solver).
        destruct (decide (j ∈ visited')) as [_|Hj']; [|now destruct Hj'].
        split_and!.
        -- now rewrite <- app_assoc.
        -- constructor; [exact Hclose | exact Hnear].
        -- intros k Hk. apply Hup. set_solver.
        -- intros k Hk Hk'. apply Hdown in Hk'; [|lia].
           apply elem_of_union in Hk' as [Hk'|Hk']; [|exact Hk'].
           apply elem_of_singleton in Hk'. lia.
        -- cbn [app]. apply Permutation_skip. rewrite Hperm.
           rewrite (unvisited_agree rest (S j) ({[j]} ∪ visited) visited); [reflexivity|].
           intros k Hk. rewrite elem_of_union, elem_of_singleton. split; [|auto].
           intros [->|Hv]; [lia | exact Hv].
        -- now apply sublist_skip.
      * destruct (IH _ _ _ _ _ H) as (taken & -> & Hnear & Hup & Hdown & Hperm & Hsub).
        exists taken.
        destruct (decide (j ∈ visited')) as [Hj'|_].
        { exfalso. apply Hj, Hdown; [lia | exact Hj']. }
        split_and!; [reflexivity | exact Hnear | exact Hup | | | now apply sublist_cons].
        -- intros k Hk. apply Hdown. lia.
        -- rewrite <- Hperm. symmetry. apply Permutation_middle.
Qed.

Lemma clusterFrom_spec : forall rest i visited clusters,
  exists added,
    clusterFrom Math_sqrt Math_pow i rest visited clusters = (clusters ++ added)%list
    /\ List.Forall (wallCluster Math_sqrt Math_pow rest) added
    /\ List.concat added ⊆+ unvisited i rest visited.
Proof.
  induction rest as [|seed rest IH]; intros i visited clusters.
  - exists []. cbn. rewrite app_nil_r. split_and!; [reflexivity | constructor | constructor].
  - cbn [clusterFrom unvisited].
    assert (Hweaken : forall added,
              List.Forall (wallCluster Math_sqrt Math_pow rest) added ->
              List.Forall (wallCluster Math_sqrt Math_pow (seed :: rest)) added).
    { intros added. apply List.Forall_impl. intros cluster (Hsize & Hseed & Hsub).
      split_and!; [exact Hsize | exact Hseed | now apply sublist_cons]. }
    destruct (decide (i ∈ visited)) as [Hi|Hi].
    + destruct (IH (S i) visited clusters) as (added & -> & Hall & Hsub).
      exists added. split_and!; [reflexivity | now apply Hweaken | exact Hsub].
    + destruct (gather _ _ seed (S i) rest ({[i]} ∪ visited) [seed])
        as [cluster visited'] eqn:Hgather.
      apply gather_spec in Hgather as (taken & -> & Hnear & Hup & Hdown & Hperm & Htaken).
      rewrite (unvisited_agree rest (S i) ({[i]} ∪ visited) visited) in Hperm.
      2:{ intros k Hk. rewrite elem_of_union, elem_of_singleton. split; [|auto].
          intros [->|Hv]; [lia | exact Hv]. }
      destruct (IH (S i) visited'
                  (if (50 <? List.length ([seed] ++ taken))%nat
                   then clusters ++ [[seed] ++ taken] else clusters))
        as (added & -> & Hall & Hsub).
      destruct (Nat.ltb_spec 50 (List.length ([seed] ++ taken))) as [Hsize|Hsize].
      * exists (([seed] ++ taken) :: added). split_and!.
        -- now rewrite <- app_assoc.
        -- constructor; [|now apply Hweaken].
           split_and!; [exact Hsize | | now apply sublist_skip].
           exists seed, taken. split; [reflexivity | exact Hnear].
        -- cbn [List.concat app]. apply submseteq_skip. rewrite <- Hperm.
           now apply submseteq_app; [reflexivity|].
      * exists added. split_and!; [reflexivity | now apply Hweaken |].
        apply submseteq_cons. rewrite <- Hperm, Hsub. apply submseteq_inserts_l. reflexivity.
Qed.

Lemma concat_length_above {A} (n : nat) : forall lists : list (list A),
  List.Forall (fun l => (n <= List.length l)%nat) lists ->
  (n * List.length lists <= List.length (List.concat lists))%nat.
Proof.
  induction lists as [|l lists IH]; intros H; cbn [List.concat List.length]; [lia|].
  inversion H as [|? ? Hl Hrest]; subst. rewrite length_app. specialize (IH Hrest). lia.
Qed.

(** X24. The clusters of [clusterWallPoints].  Every cluster has more than
    50 points; its first point is the seed and every other member is
    nearer than 50 cm to the seed (as [Math.sqrt] and [Math.pow] of the
    engine measure it); its points stand in the order of the cloud.  No
    point is put into two clusters: the clusters together are part of the
    cloud, each point counted as often as the cloud has it.  So a cloud of
    n points has at most n/51 clusters, and one of at most 50 points has
    none. *)
Theorem clusterWallPoints_uses_no_point_twice points :
  let clusters := clusterWallPoints Math_sqrt Math_pow points in
  List.Forall (wallCluster Math_sqrt Math_pow points) clusters
  /\ List.concat clusters ⊆+ points
  /\ (51 * List.length clusters <= List.length points)%nat.
Proof.
  cbv zeta. unfold clusterWallPoints.
  destruct (clusterFrom_spec points 0 ∅ []) as (added & -> & Hall & Hsub).
  cbn [app].
  rewrite unvisited_none in Hsub. split_and!; [exact Hall | exact Hsub|].
  apply submseteq_length in Hsub.
  pose proof (concat_length_above 51 added) as Hsum.
  assert (Hsizes : List.Forall (fun l => (51 <= List.length l)%nat) added).
  { eapply List.Forall_impl; [|exact Hall]. intros cluster (Hsize & _). cbn beta. lia. }
  specialize (Hsum Hsizes). unfold length in *. lia.
Qed.

Lemma gather_all seed : forall rest j visited cluster,
  (forall k, (j <= k)%nat -> k ∉ visited) ->
  List.Forall (near Math_sqrt Math_pow seed) rest ->
  exists visited',
    gather Math_sqrt Math_pow seed j rest visited cluster = ((cluster ++ rest)%list, visited')
    /\ (forall k, (j <= k < j + List.length rest)%nat -> k ∈ visited')
    /\ (forall k, k ∈ visited -> k ∈ visited').
Proof.
  induction rest as [|point rest IH]; intros j visited cluster Hfresh Hnear.
  - exists visited. cbn. rewrite app_nil_r. split_and!; [reflexivity | lia | auto].
  - inversion Hnear as [|? ? Hpoint Hrest]; subst. cbn [gather].
    destruct (decide (j ∈ visited)) as [Hj|_]; [now destruct (Hfresh j)|].
    unfold near in Hpoint. rewrite Hpoint.
    destruct (IH (S j) ({[j]} ∪ visited) (cluster ++ [point])%list) as (visited' & -> & Hall & Hup).
    + intros k Hk. rewrite elem_of_union, elem_of_singleton.
      intros [->|Hv]; [lia | now apply (Hfresh k); [lia|]].
    + exact Hrest.
    + exists visited'. rewrite <- app_assoc. split_and!; [reflexivity | |].
      * intros k Hk. cbn [List.length] in Hk.
        destruct (decide (k = j)) as [->|Hne]; [|apply Hall; lia].
        now apply Hup, elem_of_union_l, elem_of_singleton.
      * intros k Hk. apply Hup. set_solver.
Qed.

Lemma clusterFrom_visited : forall rest i visited clusters,
  (forall k, (i <= k < i + List.length rest)%nat -> k ∈ visited) ->
  clusterFrom Math_sqrt Math_pow i rest visited clusters = clusters.
Proof.
  induction rest as [|seed rest IH]; intros i visited clusters Hall; [reflexivity|].
  cbn [clusterFrom]. cbn [List.length] in Hall.
  destruct (decide (i ∈ visited)) as [_|Hi]; [|destruct Hi; apply Hall; lia].
  apply IH. intros k Hk. apply Hall. lia.
Qed.

(** X25. A tight cloud is one wall.  When every point behind the first is
    nearer than 50 cm to the first, [clusterWallPoints] returns the whole
    cloud as its only cluster if the cloud has more than 50 points, and no
    cluster otherwise. *)
Theorem tight_cloud_is_one_cluster seed members :
  List.Forall (near Math_sqrt Math_pow seed) members ->
  clusterWallPoints Math_sqrt Math_pow (seed :: members)
  = if (50 <? List.length (seed :: members))%nat then [seed :: members] else [].
Proof.
  intros Hnear. unfold clusterWallPoints. cbn [clusterFrom].
  destruct (decide (0%nat ∈ (∅ : gset nat))) as [H0|_]; [set_solver|].
  destruct (gather_all seed members 1 ({[0%nat]} ∪ ∅) [seed]) as (visited' & -> & Hall & _).
  - intros k Hk. rewrite elem_of_union, elem_of_singleton. intros [->|Hv]; [lia | set_solver].
  - exact Hnear.
  - apply clusterFrom_visited. intros k Hk. apply Hall. lia.
Qed.

End EngineFacts.

Lemma tight_cloud_is_one_cluster_witness :
  clusterWallPoints PrimFloat.sqrt square sampleCloud = [sampleCloud].
Proof.
  apply (tight_cloud_is_one_cluster PrimFloat.sqrt square sampleSeed
           (List.repeat sampleMember 50)).
  repeat constructor.
Defined.

(** *** Segmentation *)

Lemma heights_apart number :
  let isFloor := PrimFloat.ltb number (-1.5) in
  let isCeiling := PrimFloat.ltb 1.5 number in
  let isWall := PrimFloat.leb (-1.5) number && PrimFloat.leb number 1.5 in
  (isFloor = true -> isCeiling = false /\ isWall = false)
  /\ (isCeiling = true -> isWall = false).
Proof.
  cbv zeta.
  destruct (PrimFloat.ltb number (-1.5)) eqn:Hfloor,
           (PrimFloat.ltb 1.5 number) eqn:Hceiling,
           (PrimFloat.leb (-1.5) number) eqn:Hlow,
           (PrimFloat.leb number 1.5) eqn:Hhigh;
    cbn [andb]; try (split; [intros _; split; reflexivity | intros _; reflexivity]);
    try (split; [discriminate | discriminate]);
    try (split; [discriminate | intros _; reflexivity]);
    exfalso;
    try apply ltb_below in Hfloor as (_ & _ & Hfloor);
    try apply ltb_below in Hceiling as (_ & _ & Hceiling);
    try apply leb_below in Hlow as (_ & _ & Hlow);
    try apply leb_below in Hhigh as (_ & _ & Hhigh);
    unfold rankOf in *;
    change (rank (Prim2SF (-1.5))) with ((-1, 52, -6755399441055744) : Z * Z * Z) in *;
    change (rank (Prim2SF 1.5)) with ((1, -52, 6755399441055744) : Z * Z * Z) in *;
    destruct (rank (Prim2SF number)) as [[r1 r2] r3]; unfold below in *; cbn [fst snd] in *;
    repeat match goal with
           | H : _ \/ (_, _, _) = (_, _, _) |- _ => destruct H as [H | [= ? ? ?]]
           end; lia.
Qed.

Lemma filter_sublist {A} (f : A -> bool) : forall l, sublist (List.filter f l) l.
Proof.
  induction l as [|a l IH]; cbn [List.filter]; [constructor|].
  destruct (f a); [now apply sublist_skip | now apply sublist_cons].
Qed.

Lemma filter_holds {A} (f : A -> bool) : forall l,
  List.Forall (fun a => f a = true) (List.filter f l).
Proof.
  induction l as [|a l IH]; cbn [List.filter]; [constructor|].
  destruct (f a) eqn:Ha; [constructor; assumption | exact IH].
Qed.

Lemma three_filters {A} (f g h : A -> bool) : forall l,
  (forall a, (f a = true -> g a = false /\ h a = false) /\ (g a = true -> h a = false)) ->
  (List.filter f l ++ List.filter g l ++ List.filter h l)%list ⊆+ l.
Proof.
  intros l Hapart. induction l as [|a l IH]; cbn [List.filter]; [constructor|].
  destruct (Hapart a) as [Hf Hg].
  destruct (f a) eqn:Hfa.
  - destruct (Hf eq_refl) as [-> ->]. cbn [app]. now apply submseteq_skip.
  - destruct (g a) eqn:Hga.
    + rewrite (Hg eq_refl). cbn [app]. rewrite <- Permutation_middle.
      now apply submseteq_skip.
    + destruct (h a).
      * rewrite app_assoc, <- Permutation_middle, <- app_assoc. now apply submseteq_skip.
      * now apply submseteq_cons.
Qed.

Lemma sublist_Forall {A} (P : A -> Prop) (l1 l2 : list A) :
  sublist l1 l2 -> List.Forall P l2 -> List.Forall P l1.
Proof.
  intros Hsub Hall. apply List.Forall_forall. intros a Ha.
  apply (proj1 (List.Forall_forall P l2) Hall).
  apply list_elem_of_In. eapply elem_of_sublist; [|exact Hsub]. now apply list_elem_of_In.
Qed.

Lemma decimalString_inj m n :
  Serve.decimalString (Z.of_nat m) = Serve.decimalString (Z.of_nat n) -> m = n.
Proof.
  unfold Serve.decimalString. intros H.
  assert (Hnil : forall k, Z.to_int k <> Decimal.Pos Decimal.Nil
                           /\ Z.to_int k <> Decimal.Neg Decimal.Nil).
  { intros k. split; intros E;
      (assert (Hk : k = 0) by (rewrite <- (DecimalZ.of_to k), E; reflexivity));
      subst k; discriminate E. }
  apply (f_equal NilZero.int_of_string) in H.
  destruct (Hnil (Z.of_nat m)), (Hnil (Z.of_nat n)).
  rewrite !NilZero.isi in H by assumption.
  injection H as H. apply DecimalZ.to_int_inj in H. lia.
Qed.

Lemma wall_ids_distinct : forall n i,
  List.NoDup
    (List.map (fun index => "wall_" ++ Serve.decimalString (Z.of_nat index))%string
              (List.seq i n)).
Proof.
  induction n as [|n IH]; intros i; cbn [List.seq List.map]; constructor; [|apply IH].
  intros Hin. apply List.in_map_iff in Hin as (k & Heq & Hk).
  apply List.in_seq in Hk. injection Heq as Heq. apply decimalString_inj in Heq. lia.
Qed.

Lemma imap_points {A} (mk : nat -> list A -> Surface.t) (proj : Surface.t -> list A) :
  forall clusters,
  (forall index cluster, proj (mk index cluster) = cluster) ->
  List.map proj (imap mk clusters) = clusters.
Proof.
  intros clusters Hproj. revert mk Hproj.
  induction clusters as [|cluster clusters IH]; intros mk Hproj; [reflexivity|].
  cbn [imap List.map]. rewrite Hproj. f_equal. apply IH. intros index c. apply Hproj.
Qed.

Lemma imap_ids {A} (mk : nat -> A -> Surface.t) (name : nat -> string) :
  forall clusters i,
  (forall index cluster, Surface.id (mk index cluster) = name (i + index)%nat) ->
  List.map Surface.id (imap mk clusters) = List.map name (List.seq i (List.length clusters)).
Proof.
  intros clusters. revert mk.
  induction clusters as [|cluster clusters IH]; intros mk i Hid; [reflexivity|].
  cbn [imap List.map List.length List.seq]. rewrite Hid, Nat.add_0_r. f_equal.
  apply IH. intros index c. unfold compose. rewrite Hid. f_equal. lia.
Qed.

Lemma imap_Forall {A B} (P : B -> Prop) (Q : A -> Prop) (mk : nat -> A -> B) :
  forall clusters,
  (forall index cluster, Q cluster -> P (mk index cluster)) ->
  List.Forall Q clusters -> List.Forall P (imap mk clusters).
Proof.
  intros clusters. revert mk.
  induction clusters as [|cluster clusters IH]; intros mk HP HQ; [constructor|].
  inversion HQ as [|? ? Hc Hrest]; subst. cbn [imap]. constructor; [now apply HP|].
  apply IH; [|exact Hrest]. intros index c. apply HP.
Qed.

Section SurfaceFacts.

Variable Math_sqrt : float -> float.
Variable Math_pow : float -> float -> float.

(** X26. [segmentSurfaces] shares the cloud out.  Every surface has more
    points than its type asks for (100 for floor and ceiling, 50 for a
    wall), all of them at the height of its type, none with a height that
    is not a number, in the order of the cloud; its area, bounds and normal
    are computed from these points.  No point of the cloud belongs to two
    surfaces: the surfaces together are part of the cloud, each point
    counted as often as the cloud has it.  The ids of the surfaces are
    distinct. *)
Theorem segmentSurfaces_shares_the_cloud_out cloud :
  let surfaces := segmentSurfaces Math_sqrt Math_pow cloud in
  List.Forall (segmentOf Math_sqrt cloud) surfaces
  /\ List.concat (List.map Surface.points surfaces) ⊆+ cloud
  /\ List.NoDup (List.map Surface.id surfaces).
Proof.
  cbv zeta. unfold segmentSurfaces.
  set (isFloor := fun p => PrimFloat.ltb (SpatialPoint.y p) (-1.5)).
  set (isCeiling := fun p => PrimFloat.ltb 1.5 (SpatialPoint.y p)).
  set (isWall := fun p => PrimFloat.leb (-1.5) (SpatialPoint.y p)
                          && PrimFloat.leb (SpatialPoint.y p) 1.5).
  set (mkWall := fun (index : nat) cluster => Surface.mk _ Wall cluster _ _ _).
  assert (Hapart : forall p, (isFloor p = true -> isCeiling p = false /\ isWall p = false)
                             /\ (isCeiling p = true -> isWall p = false)).
  { intros p. apply (heights_apart (SpatialPoint.y p)). }
  unfold clusterWallPoints.
  destruct (clusterFrom_spec Math_sqrt Math_pow (List.filter isWall cloud) 0 ∅ [])
    as (walls & -> & Hwalls & Hsub).
  rewrite unvisited_none in Hsub. cbn [app].
  assert (Hfloor : 
    (100 < List.length (List.filter isFloor cloud))%nat ->
    segmentOf Math_sqrt cloud
      (Surface.mk "floor" Floor (List.filter isFloor cloud)
         (calculateSurfaceArea (List.filter isFloor cloud))
         (calculateBounds (List.filter isFloor cloud)) (0%float, 1%float, 0%float))).
  { intros Hsize. unfold segmentOf, measured. cbn [Surface.points Surface.type Surface.area Surface.bounds Surface.normal minimumSize heightOf].
    split_and!; try reflexivity; [exact Hsize | apply filter_holds | | apply filter_sublist].
    eapply List.Forall_impl; [|apply (filter_holds isFloor)].
    intros p Hp. now apply ltb_below in Hp. }
  assert (Hceiling : 
    (100 < List.length (List.filter isCeiling cloud))%nat ->
    segmentOf Math_sqrt cloud
      (Surface.mk "ceiling" Ceiling (List.filter isCeiling cloud)
         (calculateSurfaceArea (List.filter isCeiling cloud))
         (calculateBounds (List.filter isCeiling cloud)) (0%float, (-1)%float, 0%float))).
  { intros Hsize. unfold segmentOf, measured. cbn [Surface.points Surface.type Surface.area Surface.bounds Surface.normal minimumSize heightOf].
    split_and!; try reflexivity; [exact Hsize | apply filter_holds | | apply filter_sublist].
    eapply List.Forall_impl; [|apply (filter_holds isCeiling)].
    intros p Hp. now apply ltb_below in Hp. }
  assert (Hsegments : List.Forall (segmentOf Math_sqrt cloud) (imap mkWall walls)).
  { eapply imap_Forall; [|exact Hwalls].
    intros index cluster (Hsize & _ & Hin).
    assert (Hheights : List.Forall (fun p => isWall p = true) cluster).
    { eapply sublist_Forall; [exact Hin | apply filter_holds]. }
    unfold segmentOf, measured. cbn [mkWall Surface.points Surface.type Surface.area Surface.bounds Surface.normal minimumSize heightOf].
    split_and!; try reflexivity; [exact Hsize | | |].
    - eapply List.Forall_impl; [|exact Hheights]. intros p Hp. now apply andb_true_iff in Hp.
    - eapply List.Forall_impl; [|exact Hheights]. intros p Hp.
      apply andb_true_iff in Hp as [Hp _]. now apply leb_below in Hp.
    - etransitivity; [exact Hin | apply filter_sublist]. }
  assert (Hpoints : List.map Surface.points (imap mkWall walls) = walls).
  { now apply imap_points. }
  assert (Hids : List.map Surface.id (imap mkWall walls)
                 = List.map (fun index => "wall_" ++ Serve.decimalString (Z.of_nat index))%string
                     (List.seq 0 (List.length walls))).
  { now apply imap_ids. }
  assert (Hshare : forall a b : bool,
            ((if a then List.filter isFloor cloud else [])
             ++ (if b then List.filter isCeiling cloud else [])
             ++ List.concat walls)%list ⊆+ cloud).
  { intros a b. etransitivity; [|apply (three_filters isFloor isCeiling isWall cloud Hapart)].
    apply submseteq_app; [destruct a; [reflexivity | apply submseteq_nil_l]|].
    apply submseteq_app; [destruct b; [reflexivity | apply submseteq_nil_l] | exact Hsub]. }
  assert (Hnames : forall name,
            List.In name (List.map Surface.id (imap mkWall walls)) ->
            name <> "floor" /\ name <> "ceiling").
  { intros name. rewrite Hids. intros Hin. apply List.in_map_iff in Hin as (k & <- & _).
    split; discriminate. }
  assert (Hdistinct : List.NoDup (List.map Surface.id (imap mkWall walls))).
  { rewrite Hids. apply wall_ids_distinct. }
  clearbody mkWall.
  destruct (Nat.ltb_spec 100 (List.length (List.filter isFloor cloud))) as [Hf|Hf];
    destruct (Nat.ltb_spec 100 (List.length (List.filter isCeiling cloud))) as [Hc|Hc];
    cbn [app List.map List.concat Surface.points Surface.id];
    rewrite ?List.map_app, ?List.concat_app, ?Hpoints.
  - split_and!.
    + constructor; [now apply Hfloor|]. constructor; [now apply Hceiling | exact Hsegments].
    + exact (Hshare true true).
    + constructor; [|constructor; [|exact Hdistinct]].
      * intros [Hin|Hin]; [discriminate | now destruct (Hnames _ Hin)].
      * intros Hin. now destruct (Hnames _ Hin).
  - split_and!.
    + constructor; [now apply Hfloor | exact Hsegments].
    + exact (Hshare true false).
    + constructor; [|exact Hdistinct]. intros Hin. now destruct (Hnames _ Hin).
  - split_and!.
    + constructor; [now apply Hceiling | exact Hsegments].
    + exact (Hshare false true).
    + constructor; [|exact Hdistinct]. intros Hin. now destruct (Hnames _ Hin).
  - split_and!; [exact Hsegments | exact (Hshare false false) | exact Hdistinct].
Qed.

End SurfaceFacts.

(** *** Bounds *)

Lemma rank_infinity number :
  isNumber number -> rankOf number = (2, 0, 0) -> number = PrimFloat.infinity.
Proof.
  unfold rankOf. intros _ H. apply Prim2SF_inj.
  destruct (Prim2SF number) as [s|s| |s m e]; cbn in H; try discriminate.
  - destruct s; [discriminate | reflexivity].
  - destruct s; discriminate.
Qed.

Lemma rank_neg_infinity number :
  isNumber number -> rankOf number = (-2, 0, 0) -> number = PrimFloat.neg_infinity.
Proof.
  unfold rankOf. intros _ H. apply Prim2SF_inj.
  destruct (Prim2SF number) as [s|s| |s m e]; cbn in H; try discriminate.
  - destruct s; [reflexivity | discriminate].
  - destruct s; discriminate.
Qed.

Lemma rank_range number :
  ~ below (2, 0, 0) (rankOf number) /\ ~ below (rankOf number) (-2, 0, 0).
Proof.
  unfold rankOf, below.
  destruct (Prim2SF number) as [s|s| |s m e]; try destruct s; cbn; lia.
Qed.

Lemma minFrom_spec : forall numbers lowest,
  isNumber lowest -> List.Forall isNumber numbers ->
  isNumber (minFrom lowest numbers)
  /\ (minFrom lowest numbers = lowest \/ List.In (minFrom lowest numbers) numbers)
  /\ PrimFloat.leb (minFrom lowest numbers) lowest = true
  /\ List.Forall (fun number => PrimFloat.leb (minFrom lowest numbers) number = true) numbers.
Proof.
  induction numbers as [|number rest IH]; intros lowest Hlowest Hall; cbn [minFrom].
  - split_and!; [exact Hlowest | now left | now apply leb_refl | constructor].
  - inversion Hall as [|? ? Hnumber Hrest]; subst. rewrite Hnumber.
    set (lowest1 := if isNegativeZero number && isPositiveZero lowest then number else lowest).
    set (lowest2 := if PrimFloat.ltb number lowest1 then number else lowest1).
    assert (H1 : isNumber lowest1 /\ (lowest1 = lowest \/ lowest1 = number)
                 /\ PrimFloat.leb lowest1 lowest = true).
    { subst lowest1. destruct (isNegativeZero number && isPositiveZero lowest) eqn:Hswap.
      - split_and!; [exact Hnumber | now right|].
        apply andb_true_iff in Hswap as [Hn Hl].
        apply andb_true_iff in Hn as [Hn _]. apply andb_true_iff in Hl as [Hl _].
        apply is_zero_rank in Hn as [_ Hn]. apply is_zero_rank in Hl as [_ Hl].
        apply leb_below. split_and!; [exact Hnumber | exact Hlowest | right; congruence].
      - split_and!; [exact Hlowest | now left | now apply leb_refl]. }
    destruct H1 as (Hn1 & Hfrom1 & Hle1).
    assert (H2 : isNumber lowest2 /\ (lowest2 = lowest \/ lowest2 = number)
                 /\ PrimFloat.leb lowest2 lowest = true
                 /\ PrimFloat.leb lowest2 number = true).
    { subst lowest2. destruct (PrimFloat.ltb number lowest1) eqn:Hlt.
      - split_and!; [exact Hnumber | now right | | now apply leb_refl].
        eapply leb_trans; [apply ltb_leb, Hlt | exact Hle1].
      - split_and!; [exact Hn1 | exact Hfrom1 | exact Hle1 | now apply not_ltb_leb]. }
    destruct H2 as (Hn2 & Hfrom2 & Hle2 & Hle2').
    destruct (IH lowest2 Hn2 Hrest) as (Hr & Hfrom & Hle & Hbelow).
    split_and!; [exact Hr | | |].
    + destruct Hfrom as [->|Hin]; [|right; now right].
      destruct Hfrom2 as [->| ->]; [now left | right; now left].
    + eapply leb_trans; eassumption.
    + constructor; [eapply leb_trans; eassumption | exact Hbelow].
Qed.

Lemma maxFrom_spec : forall numbers highest,
  isNumber highest -> List.Forall isNumber numbers ->
  isNumber (maxFrom highest numbers)
  /\ (maxFrom highest numbers = highest \/ List.In (maxFrom highest numbers) numbers)
  /\ PrimFloat.leb highest (maxFrom highest numbers) = true
  /\ List.Forall (fun number => PrimFloat.leb number (maxFrom highest numbers) = true) numbers.
Proof.
  induction numbers as [|number rest IH]; intros highest Hhighest Hall; cbn [maxFrom].
  - split_and!; [exact Hhighest | now left | now apply leb_refl | constructor].
  - inversion Hall as [|? ? Hnumber Hrest]; subst. rewrite Hnumber.
    set (highest1 := if isPositiveZero number && isNegativeZero highest then number else highest).
    set (highest2 := if PrimFloat.ltb highest1 number then number else highest1).
    assert (H1 : isNumber highest1 /\ (highest1 = highest \/ highest1 = number)
                 /\ PrimFloat.leb highest highest1 = true).
    { subst highest1. destruct (isPositiveZero number && isNegativeZero highest) eqn:Hswap.
      - split_and!; [exact Hnumber | now right|].
        apply andb_true_iff in Hswap as [Hn Hl].
        apply andb_true_iff in Hn as [Hn _]. apply andb_true_iff in Hl as [Hl _].
        apply is_zero_rank in Hn as [_ Hn]. apply is_zero_rank in Hl as [_ Hl].
        apply leb_below. split_and!; [exact Hhighest | exact Hnumber | right; congruence].
      - split_and!; [exact Hhighest | now left | now apply leb_refl]. }
    destruct H1 as (Hn1 & Hfrom1 & Hle1).
    assert (H2 : isNumber highest2 /\ (highest2 = highest \/ highest2 = number)
                 /\ PrimFloat.leb highest highest2 = true
                 /\ PrimFloat.leb number highest2 = true).
    { subst highest2. destruct (PrimFloat.ltb highest1 number) eqn:Hlt.
      - split_and!; [exact Hnumber | now right | | now apply leb_refl].
        eapply leb_trans; [exact Hle1 | apply ltb_leb, Hlt].
      - split_and!; [exact Hn1 | exact Hfrom1 | exact Hle1 | now apply not_ltb_leb]. }
    destruct H2 as (Hn2 & Hfrom2 & Hle2 & Hle2').
    destruct (IH highest2 Hn2 Hrest) as (Hr & Hfrom & Hle & Hbelow).
    split_and!; [exact Hr | | |].
    + destruct Hfrom as [->|Hin]; [|right; now right].
      destruct Hfrom2 as [->| ->]; [now left | right; now left].
    + eapply leb_trans; eassumption.
    + constructor; [eapply leb_trans; eassumption | exact Hbelow].
Qed.

Lemma Math_min_spec numbers :
  numbers <> [] -> List.Forall isNumber numbers ->
  List.In (Math_min numbers) numbers
  /\ List.Forall (fun number => PrimFloat.leb (Math_min numbers) number = true) numbers.
Proof.
  intros Hne Hall. unfold Math_min.
  destruct (minFrom_spec numbers PrimFloat.infinity eq_refl Hall) as (Hr & Hfrom & _ & Hbelow).
  split; [|exact Hbelow]. destruct Hfrom as [Heq|Hin]; [|exact Hin].
  destruct numbers as [|number rest]; [now destruct Hne|].
  rewrite Heq in *. left.
  inversion Hbelow as [|? ? Hle _]; subst. inversion Hall as [|? ? Hnumber _]; subst.
  apply leb_below in Hle as (_ & _ & [Hlt|Heq']).
  - now destruct (rank_range number) as [Htop _].
  - symmetry in Heq'. now apply rank_infinity.
Qed.

Lemma Math_max_spec numbers :
  numbers <> [] -> List.Forall isNumber numbers ->
  List.In (Math_max numbers) numbers
  /\ List.Forall (fun number => PrimFloat.leb number (Math_max numbers) = true) numbers.
Proof.
  intros Hne Hall. unfold Math_max.
  destruct (maxFrom_spec numbers PrimFloat.neg_infinity eq_refl Hall)
    as (Hr & Hfrom & _ & Hbelow).
  split; [|exact Hbelow]. destruct Hfrom as [Heq|Hin]; [|exact Hin].
  destruct numbers as [|number rest]; [now destruct Hne|].
  rewrite Heq in *. left.
  inversion Hbelow as [|? ? Hle _]; subst. inversion Hall as [|? ? Hnumber _]; subst.
  apply leb_below in Hle as (_ & _ & [Hlt|Heq']).
  - now destruct (rank_range number) as [_ Hbottom].
  - now apply rank_neg_infinity.
Qed.

Lemma coordinates_are_numbers (coordinate : SpatialPoint.t -> float) points :
  List.In coordinate [SpatialPoint.x; SpatialPoint.y; SpatialPoint.z] ->
  List.Forall numeric points -> List.Forall isNumber (List.map coordinate points).
Proof.
  intros Hc Hall. apply List.Forall_map. eapply List.Forall_impl; [|exact Hall].
  intros point (Hx & Hy & Hz). destruct Hc as [<-|[<-|[<-|[]]]]; assumption.
Qed.

Lemma extremes_enclose (coordinate : SpatialPoint.t -> float) points :
  points <> [] ->
  List.In coordinate [SpatialPoint.x; SpatialPoint.y; SpatialPoint.z] ->
  List.Forall numeric points ->
  List.In (Math_min (List.map coordinate points)) (List.map coordinate points)
  /\ List.In (Math_max (List.map coordinate points)) (List.map coordinate points)
  /\ List.Forall
       (fun point => between (Math_min (List.map coordinate points)) (coordinate point)
                       (Math_max (List.map coordinate points))) points.
Proof.
  intros Hne Hc Hall.
  pose proof (coordinates_are_numbers coordinate points Hc Hall) as Hnumbers.
  assert (Hne' : List.map coordinate points <> []) by (destruct points; [easy | discriminate]).
  destruct (Math_min_spec _ Hne' Hnumbers) as [Hmin Hlow].
  destruct (Math_max_spec _ Hne' Hnumbers) as [Hmax Hhigh].
  split_and!; [exact Hmin | exact Hmax|].
  apply List.Forall_forall. intros point Hin. split.
  - apply (proj1 (List.Forall_forall _ _) Hlow). now apply List.in_map.
  - apply (proj1 (List.Forall_forall _ _) Hhigh). now apply List.in_map.
Qed.

(** X27. [calculateBounds] encloses its points.  For a cloud that is not
    empty and has no coordinate that is not a number, every point lies
    between the two corners in each of the three coordinates, and the box
    is tight: each coordinate of each corner is that coordinate of some
    point of the cloud. *)
Theorem calculateBounds_encloses_the_points points :
  points <> [] -> List.Forall numeric points ->
  List.Forall (inside (calculateBounds points)) points
  /\ touched (calculateBounds points) points.
Proof.
  intros Hne Hall. unfold calculateBounds.
  destruct points as [|first rest] eqn:Hpoints; [now destruct Hne|].
  cbn [List.length Nat.eqb]. rewrite <- Hpoints in *. clear Hpoints.
  destruct (extremes_enclose SpatialPoint.x points Hne) as (Hminx & Hmaxx & Hx);
    [now left | exact Hall|].
  destruct (extremes_enclose SpatialPoint.y points Hne) as (Hminy & Hmaxy & Hy);
    [right; now left | exact Hall|].
  destruct (extremes_enclose SpatialPoint.z points Hne) as (Hminz & Hmaxz & Hz);
    [right; right; now left | exact Hall|].
  split.
  - apply List.Forall_forall. intros point Hin.
    unfold inside, corner. cbn [Bounds.min Bounds.max SpatialPoint.x SpatialPoint.y SpatialPoint.z].
    split_and!.
    + exact (proj1 (List.Forall_forall _ _) Hx point Hin).
    + exact (proj1 (List.Forall_forall _ _) Hy point Hin).
    + exact (proj1 (List.Forall_forall _ _) Hz point Hin).
  - intros coordinate [<-|[<-|[<-|[]]]];
      unfold corner; cbn [Bounds.min Bounds.max SpatialPoint.x SpatialPoint.y SpatialPoint.z];
      split; assumption.
Qed.

Lemma calculateBounds_encloses_the_points_witness :
  List.Forall (inside (calculateBounds sampleCorners)) sampleCorners
  /\ touched (calculateBounds sampleCorners) sampleCorners.
Proof.
  apply calculateBounds_encloses_the_points; [discriminate|].
  repeat constructor.
Defined.

(** *** A coordinate that is not a number *)

Lemma minFrom_nan : forall numbers lowest,
  List.Exists (fun number => PrimFloat.is_nan number = true) numbers ->
  minFrom lowest numbers = PrimFloat.nan.
Proof.
  induction numbers as [|number rest IH]; intros lowest H; [inversion H|].
  cbn [minFrom]. destruct (PrimFloat.is_nan number) eqn:Hnumber; [reflexivity|].
  apply IH. inversion H as [? ? Hhead|? ? Htail]; subst; [congruence | exact Htail].
Qed.

Lemma maxFrom_nan : forall numbers highest,
  List.Exists (fun number => PrimFloat.is_nan number = true) numbers ->
  maxFrom highest numbers = PrimFloat.nan.
Proof.
  induction numbers as [|number rest IH]; intros highest H; [inversion H|].
  cbn [maxFrom]. destruct (PrimFloat.is_nan number) eqn:Hnumber; [reflexivity|].
  apply IH. inversion H as [? ? Hhead|? ? Htail]; subst; [congruence | exact Htail].
Qed.

Lemma mul_nan_l a b : PrimFloat.is_nan a = true -> PrimFloat.is_nan (a * b) = true.
Proof.
  rewrite !is_nan_spec, mul_spec. intros ->. reflexivity.
Qed.

Lemma mul_nan_r a b : PrimFloat.is_nan b = true -> PrimFloat.is_nan (a * b) = true.
Proof.
  rewrite !is_nan_spec, mul_spec. intros ->. now destruct (Prim2SF a).
Qed.

(** X29. One coordinate that is not a number poisons the box.  When some
    point of the cloud has NaN as its x, y or z, [calculateBounds] gives
    NaN for that coordinate of both corners; for x and z, and a cloud of
    at least three points, the area [calculateSurfaceArea] computes is NaN
    as well.  [segmentSurfaces] keeps such points out by height only, so
    the area of a surface can be NaN. *)
Theorem nan_coordinate_poisons_the_bounds points coordinate :
  List.In coordinate [SpatialPoint.x; SpatialPoint.y; SpatialPoint.z] ->
  hasNaN coordinate points ->
  PrimFloat.is_nan (coordinate (Bounds.min (calculateBounds points))) = true
  /\ PrimFloat.is_nan (coordinate (Bounds.max (calculateBounds points))) = true
  /\ ((3 <= List.length points)%nat ->
      List.In coordinate [SpatialPoint.x; SpatialPoint.z] ->
      PrimFloat.is_nan (calculateSurfaceArea points) = true).
Proof.
  intros Hc Hnan.
  assert (Hnumbers : List.Exists (fun number => PrimFloat.is_nan number = true)
                       (List.map coordinate points)).
  { apply List.Exists_exists. apply List.Exists_exists in Hnan as (point & Hin & Hpoint).
    exists (coordinate point). split; [now apply List.in_map | exact Hpoint]. }
  assert (Hmin : Math_min (List.map coordinate points) = PrimFloat.nan)
    by (now apply minFrom_nan).
  assert (Hmax : Math_max (List.map coordinate points) = PrimFloat.nan)
    by (now apply maxFrom_nan).
  assert (Hbounds : calculateBounds points
                    = Bounds.mk
                        (corner (Math_min (List.map SpatialPoint.x points))
                                (Math_min (List.map SpatialPoint.y points))
                                (Math_min (List.map SpatialPoint.z points)))
                        (corner (Math_max (List.map SpatialPoint.x points))
                                (Math_max (List.map SpatialPoint.y points))
                                (Math_max (List.map SpatialPoint.z points)))).
  { unfold calculateBounds. destruct points; [inversion Hnan | reflexivity]. }
  split_and!.
  - rewrite Hbounds. destruct Hc as [<-|[<-|[<-|[]]]]; cbn; now rewrite Hmin.
  - rewrite Hbounds. destruct Hc as [<-|[<-|[<-|[]]]]; cbn; now rewrite Hmax.
  - intros Hsize Hxz. unfold calculateSurfaceArea.
    destruct (Nat.ltb_spec (List.length points) 3) as [?|_]; [lia|].
    rewrite Hbounds. cbn [Bounds.min Bounds.max corner SpatialPoint.x SpatialPoint.z].
    destruct Hxz as [<-|[<-|[]]]; rewrite Hmin, Hmax.
    + now apply mul_nan_l.
    + now apply mul_nan_r.
Qed.

Lemma nan_coordinate_poisons_the_bounds_witness :
  PrimFloat.is_nan (SpatialPoint.x (Bounds.min (calculateBounds poisonedCorners))) = true
  /\ PrimFloat.is_nan (SpatialPoint.x (Bounds.max (calculateBounds poisonedCorners))) = true
  /\ ((3 <= List.length poisonedCorners)%nat ->
      List.In SpatialPoint.x [SpatialPoint.x; SpatialPoint.z] ->
      PrimFloat.is_nan (calculateSurfaceArea poisonedCorners) = true).
Proof.
  apply (nan_coordinate_poisons_the_bounds poisonedCorners SpatialPoint.x); [now left|].
  apply List.Exists_cons_tl, List.Exists_cons_hd. reflexivity.
Defined.

(** *** The best match *)

Section MatchingFacts.

Context {Features Material : Type}.
Variable selectMaterials : Outcome (Selection Material).
Variable idOf : Material -> string.
Variable calculateMaterialMatchConfidence : Features -> Material -> Outcome float.
Variable features : Features.

Lemma bestFrom_spec : forall materials bestMatch maxConfidence result,
  bestFrom idOf calculateMaterialMatchConfidence features materials bestMatch maxConfidence
  = Returned result ->
  isNumber maxConfidence ->
  (result = bestMatch
   /\ List.Forall
        (fun material =>
           exists confidence,
             calculateMaterialMatchConfidence features material = Returned confidence
             /\ PrimFloat.ltb maxConfidence confidence && PrimFloat.ltb 0.6 confidence = false)
        materials)
  \/ exists before material after confidence,
       materials = (before ++ material :: after)%list
       /\ calculateMaterialMatchConfidence features material = Returned confidence
       /\ result = Some (mkMatch (idOf material) confidence)
       /\ PrimFloat.ltb maxConfidence confidence = true
       /\ PrimFloat.ltb 0.6 confidence = true
       /\ List.Forall (staysBelow calculateMaterialMatchConfidence features confidence) before
       /\ List.Forall (notAbove calculateMaterialMatchConfidence features confidence) after.
Proof.
  induction materials as [|material materials IH]; intros bestMatch maxConfidence result H Hmax.
  - cbn in H. injection H as <-. left. split; [reflexivity | constructor].
  - cbn [bestFrom] in H.
    destruct (calculateMaterialMatchConfidence features material) as [c0|] eqn:Hc0;
      [|discriminate].
    destruct (PrimFloat.ltb maxConfidence c0 && PrimFloat.ltb 0.6 c0) eqn:Htest.
    + apply andb_true_iff in Htest as [Hgt Hbar].
      assert (Hc0n : isNumber c0) by (now apply ltb_below in Hgt).
      destruct (IH _ _ _ H Hc0n)
        as [[-> Hrest] | (before & m & after & c & -> & Hc & -> & Hgt' & Hbar' & Hb & Ha)].
      * right. exists [], material, materials, c0.
        split_and!; [reflexivity | exact Hc0 | reflexivity | exact Hgt | exact Hbar
                    | constructor |].
        eapply List.Forall_impl; [|exact Hrest].
        intros m (c & Hc & Htest). exists c. split; [exact Hc|].
        destruct (PrimFloat.ltb c0 c) eqn:Hlt; [|reflexivity].
        now rewrite (ltb_trans _ _ _ Hbar Hlt) in Htest.
      * right. exists (material :: before), m, after, c.
        split_and!; [reflexivity | exact Hc | reflexivity | | exact Hbar' | | exact Ha].
        -- eapply ltb_trans; eassumption.
        -- constructor; [|exact Hb]. exists c0. split; [exact Hc0 | now apply ltb_not_leb].
    + destruct (IH _ _ _ H Hmax)
        as [[-> Hrest] | (before & m & after & c & -> & Hc & -> & Hgt' & Hbar' & Hb & Ha)].
      * left. split; [reflexivity|]. constructor; [|exact Hrest]. now exists c0.
      * right. exists (material :: before), m, after, c.
        split_and!; [reflexivity | exact Hc | reflexivity | exact Hgt' | exact Hbar' |
                     | exact Ha].
        constructor; [|exact Hb]. exists c0. split; [exact Hc0|].
        destruct (PrimFloat.leb c c0) eqn:Hle; [|reflexivity].
        assert (Hc0n : isNumber c0) by (now apply leb_below in Hle).
        apply andb_false_iff in Htest as [Htest|Htest].
        -- apply not_ltb_leb in Htest; [|exact Hmax | exact Hc0n].
           pose proof (leb_trans _ _ _ Hle Htest) as Hbad.
           now rewrite (ltb_not_leb _ _ Hgt') in Hbad.
        -- apply not_ltb_leb in Htest; [|reflexivity | exact Hc0n].
           pose proof (leb_trans _ _ _ Hle Htest) as Hbad.
           now rewrite (ltb_not_leb _ _ Hbar') in Hbad.
Qed.

Lemma bestFrom_threw : forall materials bestMatch maxConfidence message,
  bestFrom idOf calculateMaterialMatchConfidence features materials bestMatch maxConfidence
  = Threw message ->
  exists material,
    List.In material materials
    /\ calculateMaterialMatchConfidence features material = Threw message.
Proof.
  induction materials as [|material materials IH]; intros bestMatch maxConfidence message H;
    [discriminate|].
  cbn [bestFrom] in H.
  destruct (calculateMaterialMatchConfidence features material) as [c0|thrown] eqn:Hc0.
  - destruct (PrimFloat.ltb maxConfidence c0 && PrimFloat.ltb 0.6 c0);
      destruct (IH _ _ _ H) as (m & Hin & Hm); exists m; (split; [now right | exact Hm]).
  - injection H as ->. exists material. split; [now left | exact Hc0].
Qed.

(** X28. [matchMaterialFromFeatures] returns the best match.  It never
    throws.  A match it returns is the first material of the catalogue
    with the greatest confidence: its confidence exceeds 0.6, no material
    before it reaches that confidence and none behind it exceeds it, and
    nothing was logged.  It returns no match without logging when no
    material of the catalogue has a confidence above 0.6, and no match with
    the logged error when the query throws or reports an error or the
    confidence of a material cannot be computed. *)
Theorem matchMaterialFromFeatures_returns_best :
  match matchMaterialFromFeatures selectMaterials idOf calculateMaterialMatchConfidence
          features with
  | (Some best, logged) =>
      logged = []
      /\ exists selection before material after,
           selectMaterials = Returned selection
           /\ error selection = None
           /\ data selection = Some (before ++ material :: after)%list
           /\ materialId best = idOf material
           /\ calculateMaterialMatchConfidence features material
              = Returned (confidence best)
           /\ PrimFloat.ltb 0.6 (confidence best) = true
           /\ List.Forall
                (staysBelow calculateMaterialMatchConfidence features (confidence best))
                before
           /\ List.Forall
                (notAbove calculateMaterialMatchConfidence features (confidence best))
                after
  | (None, []) =>
      exists selection,
        selectMaterials = Returned selection
        /\ error selection = None
        /\ List.Forall (notAbove calculateMaterialMatchConfidence features 0.6)
             (default [] (data selection))
  | (None, logged) =>
      exists message,
        logged = [message]
        /\ (selectMaterials = Threw message
            \/ exists selection,
                 selectMaterials = Returned selection
                 /\ (error selection = Some message
                     \/ exists material,
                          List.In material (default [] (data selection))
                          /\ calculateMaterialMatchConfidence features material
                             = Threw message))
  end.
Proof.
  unfold matchMaterialFromFeatures.
  destruct selectMaterials as [selection|message] eqn:Hselect.
  2:{ exists message. split; [reflexivity | now left]. }
  destruct (error selection) as [message|] eqn:Herror.
  { exists message. split; [reflexivity|]. right. exists selection. split; [reflexivity | now left]. }
  destruct (bestFrom _ _ _ _ None 0) as [result|message] eqn:Hbest.
  2:{ apply bestFrom_threw in Hbest as (material & Hin & Hthrew).
      exists message. split; [reflexivity|]. right. exists selection.
      split; [reflexivity|]. right. now exists material. }
  destruct (bestFrom_spec _ _ _ _ Hbest eq_refl)
    as [[-> Hall] | (before & material & after & c & Hdata & Hc & -> & _ & Hbar & Hb & Ha)].
  - exists selection. split_and!; [reflexivity | exact Herror|].
    eapply List.Forall_impl; [|exact Hall].
    intros material (c & Hc & Htest). exists c. split; [exact Hc|].
    destruct (PrimFloat.ltb 0.6 c) eqn:Hbar; [|reflexivity].
    assert (Hzero : PrimFloat.ltb 0 c = true) by (eapply ltb_trans; [|exact Hbar]; reflexivity).
    now rewrite Hzero in Htest.
  - split; [reflexivity|]. exists selection, before, material, after.
    cbn [materialId confidence].
    split_and!; [reflexivity | exact Herror | | reflexivity | exact Hc | exact Hbar
                | exact Hb | exact Ha].
    destruct (data selection) as [materials|]; cbn in Hdata; [now subst|].
    now destruct before.
Qed.

End MatchingFacts.

End SpatialFacts.
